(** * Narrative state machine and evaluation engine

    A shallow embedding of the narrative runtime (engines/narrative.ts) and of
    the evaluation engine (engines/evaluation.ts), with the properties the
    specification states about them.

    Modelling conventions.
    - A JavaScript [number] holding a score, a relationship dimension or a
      delta is a rational [Q]; decimal literals of the source ([0.1], [0.4])
      are the same decimals here.  Rounding of IEEE doubles and the values
      NaN and Infinity are outside this model.  Counters and indices are [Z].
    - A JavaScript string is a [string] of bytes; [toLowerCase] folds the
      ASCII letters.
    - The relationship graph, a JavaScript object keyed by strings, is a
      [gmap string LoveGraphPair].
    - The engine object's mutable fields are the record [Engine]; every
      method takes the engine and returns the new engine next to its result.
    - The collaborators (dialogue generation, safety validation, embedding
      service) are the environment: what they answer is an argument of the
      call that consults them.
    - Identifiers (uuid), wall-clock timestamps and latencies are left out:
      no decision of the engine reads them. *)

From Stdlib Require Import Ascii String QArith Qminmax Qabs Lqa ZArith Lia.
From stdpp Require Import gmap strings list fin_maps.

(** ** JavaScript helpers *)

Module Js.

(** What a promise settles to: a value, or a rejection with its message. *)
Inductive Result (A : Type) : Type :=
| Ok (a : A)
| Throw (msg : string).
Arguments Ok {A} a.
Arguments Throw {A} msg.

Definition Qltb (x y : Q) : bool := negb (Qle_bool y x).
Definition Qgtb (x y : Q) : bool := Qltb y x.
Definition Qgeb (x y : Q) : bool := Qle_bool y x.

(** [Math.max(lo, Math.min(hi, x))] *)
Definition clamp (lo hi x : Q) : Q := Qmax lo (Qmin hi x).

Definition lowerAscii (c : ascii) : ascii :=
  let n := nat_of_ascii c in
  if (65 <=? n)%nat && (n <=? 90)%nat then ascii_of_nat (n + 32) else c.

Fixpoint toLowerCase (s : string) : string :=
  match s with
  | EmptyString => EmptyString
  | String c r => String (lowerAscii c) (toLowerCase r)
  end.

(** [hay.includes(needle)] *)
Fixpoint includes (needle hay : string) : bool :=
  String.prefix needle hay ||
  match hay with
  | EmptyString => false
  | String _ r => includes needle r
  end.

(** [s.split(' ')]: the pieces between single spaces, at least one. *)
Fixpoint split_space (s : string) : list string :=
  match s with
  | EmptyString => [EmptyString]
  | String c r =>
      if Ascii.eqb c " "%char then EmptyString :: split_space r
      else match split_space r with
           | [] => [String c EmptyString]
           | w :: ws => String c w :: ws
           end
  end.

(** [new Set(xs)]: first occurrences, in order. *)
Fixpoint dedup_strings (xs : list string) : list string :=
  match xs with
  | [] => []
  | x :: r =>
      let r' := dedup_strings r in
      x :: List.filter (fun y => negb (String.eqb x y)) r'
  end.

Definition mem_string (x : string) (xs : list string) : bool :=
  existsb (String.eqb x) xs.

(** [xs.slice(-n)] *)
Definition slice_last {A} (n : nat) (xs : list A) : list A :=
  drop (length xs - n) xs.

(** Truthiness of an optional string: [undefined] and [''] are falsy. *)
Definition truthy (o : option string) : bool :=
  match o with
  | Some s => negb (String.eqb s EmptyString)
  | None => false
  end.

End Js.
Import Js.

(** ** Data contracts (types/narrative.ts, types/character.ts) *)

Inductive Act := Act1 | Act2 | Act3 | Act4 | Act5.

Inductive CheckpointType :=
  mutual_spark | explicit_conflict | need_boundary | relational_choice.

Inductive NudgeType :=
  raise_stakes | comfort | vulnerability | recall | aside | tempo_up | tempo_down.

Inductive NudgeIntensity := minor | major.

Inductive NudgeSource := observer | auto | evaluator.

Inductive EndReason := checkpoint | plateau | wrap.

#[global] Instance Act_eq_dec : EqDecision Act.
Proof. solve_decision. Defined.
#[global] Instance NudgeType_eq_dec : EqDecision NudgeType.
Proof. solve_decision. Defined.
#[global] Instance NudgeIntensity_eq_dec : EqDecision NudgeIntensity.
Proof. solve_decision. Defined.
#[global] Instance CheckpointType_eq_dec : EqDecision CheckpointType.
Proof. solve_decision. Defined.

(** The number an [Act] is in the source ([type Act = 1 | 2 | 3 | 4 | 5]). *)
Definition act_num (a : Act) : Z :=
  match a with Act1 => 1 | Act2 => 2 | Act3 => 3 | Act4 => 4 | Act5 => 5 end.

Record LoveGraphPair := mkPair {
  attraction : Q;
  trust : Q;
  tension : Q;
  comfort_ : Q  (* [comfort]; the plain name is the nudge type *)
}.

Record ChemistryDeltas := mkDeltas {
  d_attraction : Q;
  d_trust : Q;
  d_tension : Q;
  d_comfort : Q
}.

(** [LoveGraph]: an object from pair key to pair record. *)
Abbreviation LoveGraph := (gmap string LoveGraphPair).

Record SpokenLine := mkLine {
  speaker : string;
  text : string;
  secs : Q;
  deltas : ChemistryDeltas
}.

Record Nudge := mkNudge {
  n_type : NudgeType;
  n_intensity : NudgeIntensity;
  n_source : NudgeSource;
  n_target : option string;
  n_token : option string
}.

(** [FinalLine] of the character engine, with the fields the runtime reads. *)
Record FinalLine := mkFinalLine {
  fl_speaker : string;
  fl_text : string;
  fl_used_tokens : list string;
  fl_deltas : ChemistryDeltas
}.

(** A scene.  Its [spotlightPair] is the one array object that
    [StoryState.spotlight] also refers to, so it is kept there only. *)
Record Scene := mkScene {
  sc_act : Act;
  sc_index : Z;
  sc_endedReason : option EndReason;
  majorNudges : Z;
  minorNudges : Z
}.

(** A slot of the spotlight array: a character id, or [undefined] when the
    seed listed too few characters. *)
Abbreviation Spotlight := (option string * option string)%type.

(** [Episode] and [StoryState] together.  [currentScene] is the same object
    as the last element of [episode.scenes]: the scenes of the episode are
    [pastScenes ++ [currentScene]]. *)
Record StoryState := mkState {
  actPath : list Act;
  pastScenes : list Scene;
  currentScene : Scene;
  loveGraph : LoveGraph;
  activeVibe : string;
  setting : string;
  spotlight : Spotlight;
  recentLines : list SpokenLine;
  openLoops : list string;
  callbacks : list string;
  pendingNudges : list Nudge;
  recoveryBias : option Z;
  plateauCounter : Z;
  lastMajorNudgeExchange : Z
}.

Record Checkpoint := mkCheckpoint {
  cp_type : CheckpointType;
  fromAct : Act;
  toAct : Act
}.

Record ActGate := mkGate {
  allowedNudges : list NudgeType;
  blockedNudges : list NudgeType;
  coherenceWeight : Q
}.

Record NudgeDescriptor := mkDescriptor {
  nd_intensity : NudgeIntensity;
  actRestrictions : option (list Act);
  cooldownExchanges : Z
}.

Record SceneTransitionEvent := mkTransition {
  tr_fromAct : Act;
  tr_fromScene : Z;
  tr_toAct : Act;
  tr_toScene : Z;
  tr_reason : EndReason
}.

Inductive TelemetryEvent :=
| TurnStart (act : option Act) (scene : Z)
| TurnEnd (line : SpokenLine)
| NudgeApplied (nudge : Nudge)
| SceneTransition (t : SceneTransitionEvent)
| MetricTick (name : string) (value : Q).

Record EpisodeSeed := mkSeed {
  characters : list string;
  seed_vibe : string;
  seed_setting : string;
  importSeed : option string;
  previousEnding : option string;
  seed_callbacks : option (list string);
  seed_openLoops : option (list string)
}.

Record EpisodeSummary := mkSummary {
  sum_act : option Act;
  sum_scene : Z;
  sum_spotlight : Spotlight;
  sum_openLoops : list string;
  sum_lastLines : list SpokenLine;
  loveGraphSnapshot : LoveGraph
}.

Record TickResult := mkTickResult {
  producedLines : list SpokenLine;
  updatedSummary : EpisodeSummary;
  transitions : list SceneTransitionEvent;
  telemetryEvents : list TelemetryEvent
}.

(** The mutable fields of a [NarrativeEngine] instance. *)
Record Engine := mkEngine {
  currentState : option StoryState;
  exchangeCounter : Z;
  telemetryBuffer : list TelemetryEvent
}.

(** Evaluation engine types *)

Record EvaluationState := mkEvalState {
  es_recentLines : list SpokenLine;
  es_act : Act;                          (* [structuralState.act] *)
  es_sceneIndex : Z;                     (* [structuralState.sceneIndex] *)
  es_spotlight : string * string;        (* [structuralState.spotlight] *)
  loveGraphDeltas : list ChemistryDeltas;
  callbackActivity : list string
}.

Record EvaluationScores := mkScores {
  freshnessGain : Q;
  coherenceCost : Q;
  fragilityIndex : Q;
  finalScore : Q
}.

Record EvaluationRecommendation := mkRecommendation {
  autoNudge : option Nudge;
  rec_rationales : list string;
  rec_scores : EvaluationScores;
  abstain : bool
}.

Record EvaluationSnapshot := mkSnapshot {
  snap_sceneId : Act;
  candidate : Nudge;
  snap_scores : EvaluationScores;
  snap_rationales : list string;
  chosen : bool
}.

Record FragilityComponents := mkFragility {
  highTension : Q;
  lowTrust : Q;
  recentContradictions : Q;
  fragility_total : Q
}.

Record FreshnessComponents := mkFreshness {
  semanticNovelty : Q;
  diversityBonus : Q;
  stagnationBuster : Q;
  callbackRevival : Q;
  freshness_total : Q
}.

Record CoherenceComponents := mkCoherence {
  personaDrift : Q;
  actGrammarViolation : Q;
  continuityContradiction : Q;
  safetyGuard : Q;
  coherence_total : Q
}.

(** The console's view of an engine ([ConsoleState]).  A badge is given by
    its type: every badge the engine produces has level 'high' and the
    description that goes with its type. *)
Inductive BadgeType :=
  badge_spark | badge_fragile_trust | badge_safe_space | badge_high_tension | badge_plateau.

(** The scores [getState] shows.  The coherence cost is [None] where the
    source computes NaN, which is when the act path is empty. *)
Record ConsoleScores := mkConsoleScores {
  shown_freshnessGain : Q;
  shown_coherenceCost : option Q;
  shown_fragilityIndex : Q;
  shown_finalScore : Q
}.

Record CadenceStatus := mkCadence {
  majorBudgetUsed : Z;
  majorBudgetMax : Z;
  lastMajorExchange : Z;
  recoveryMode : bool
}.

Record ConsoleState := mkConsole {
  console_episode : EpisodeSummary;
  console_badges : list BadgeType;
  console_recentNudges : list Nudge;
  console_scores : ConsoleScores;
  console_cadence : CadenceStatus
}.

(** [biasEffects] of a nudge descriptor: a missing entry is [None]. *)
Record BiasEffects := mkBias {
  be_attraction : option Q;
  be_trust : option Q;
  be_tension : option Q;
  be_comfort : option Q
}.

(** The [bias_flags] object handed to the dialogue collaborator; a flag that
    is not set is [None] ([false] for [bias_clarify], which is only ever set
    to true). *)
Record BiasFlags := mkFlags {
  bias_reassure : option Q;
  bias_clarify : bool;
  bias_self_disclosure : option Q;
  bias_stakes : option Q;
  recall_token : option string
}.

(** ** The narrative engine (engines/narrative.ts) *)

Module NarrativeEngine.

Open Scope Q_scope.

(** Act progression checkpoints *)
Definition checkpoints : list Checkpoint :=
  [ mkCheckpoint mutual_spark Act1 Act2;
    mkCheckpoint explicit_conflict Act2 Act3;
    mkCheckpoint need_boundary Act3 Act4;
    mkCheckpoint relational_choice Act4 Act5 ].

(** Act gates and coherence weights *)
Definition actGates (a : Act) : ActGate :=
  match a with
  | Act1 => mkGate [comfort; vulnerability; recall; tempo_down] [raise_stakes] 0.7
  | Act2 => mkGate [comfort; vulnerability; recall; aside; tempo_up; raise_stakes] [] 0.9
  | Act3 => mkGate [raise_stakes; vulnerability; aside; tempo_up] [comfort] 1.2
  | Act4 => mkGate [comfort; vulnerability; recall; tempo_down] [raise_stakes] 1.6
  | Act5 => mkGate [comfort; recall; tempo_down] [raise_stakes; aside] 1.8
  end.

(** Nudge catalog with act restrictions and cooldowns (the engine reads it
    only to log the pending nudges and to build the bias flags it hands to
    the dialogue collaborator) *)
Definition nudgeCatalog (t : NudgeType) : NudgeDescriptor :=
  match t with
  | raise_stakes => mkDescriptor major (Some [Act2; Act3; Act4]) 6
  | comfort => mkDescriptor minor None 2
  | vulnerability => mkDescriptor minor None 3
  | recall => mkDescriptor minor None 4
  | aside => mkDescriptor minor (Some [Act2; Act3; Act4]) 5
  | tempo_up => mkDescriptor minor None 2
  | tempo_down => mkDescriptor minor None 2
  end.

(** [xs.includes(t)] on a list of nudge types *)
Definition includesNudge (xs : list NudgeType) (t : NudgeType) : bool :=
  existsb (fun x => bool_decide (x = t)) xs.

(** The engine a constructor call yields. *)
Definition newEngine : Engine := mkEngine None 0 [].

Definition emitTelemetry (ev : TelemetryEvent) (e : Engine) : Engine :=
  mkEngine (currentState e) (exchangeCounter e) (telemetryBuffer e ++ [ev]).

Definition setState (st : StoryState) (e : Engine) : Engine :=
  mkEngine (Some st) (exchangeCounter e) (telemetryBuffer e).

(** *** The spotlight array and its pair key *)

(** [spotlight.sort()]: the default comparator orders strings by code unit
    and puts [undefined] last.  The array is sorted in place, so every
    caller below stores the sorted array back. *)
Definition sortSpotlight (sp : Spotlight) : Spotlight :=
  match sp with
  | (Some a, Some b) => if String.ltb b a then (Some b, Some a) else sp
  | (None, Some b) => (Some b, None)
  | _ => sp
  end.

Definition slotString (o : option string) : string :=
  match o with Some s => s | None => EmptyString end.

(** [sp.join('-')]: an [undefined] slot prints as the empty string. *)
Definition joinSpotlight (sp : Spotlight) : string :=
  (slotString (fst sp) ++ "-" ++ slotString (snd sp))%string.

(** [`${a}-${b}`] *)
Definition pairKeyOf (a b : string) : string := (a ++ "-" ++ b)%string.

Definition withSpotlight (sp : Spotlight) (st : StoryState) : StoryState :=
  mkState (actPath st) (pastScenes st) (currentScene st) (loveGraph st)
    (activeVibe st) (setting st) sp (recentLines st) (openLoops st)
    (callbacks st) (pendingNudges st) (recoveryBias st) (plateauCounter st)
    (lastMajorNudgeExchange st).

(** The state after an expression [this.currentState.spotlight.sort()]. *)
Definition sortedState (st : StoryState) : StoryState :=
  withSpotlight (sortSpotlight (spotlight st)) st.

Definition spotlightKey (st : StoryState) : string :=
  joinSpotlight (sortSpotlight (spotlight st)).

(** [getCurrentAct]: the last element of the act path ([undefined] for an
    empty path). *)
Definition getCurrentAct (st : StoryState) : option Act := last (actPath st).

(** [getLoveGraphForSpotlight] (it also sorts the spotlight in place) *)
Definition getLoveGraphForSpotlight (st : StoryState) : option LoveGraphPair :=
  loveGraph st !! spotlightKey st.

Definition buildEpisodeSummary (st : StoryState) : EpisodeSummary :=
  mkSummary (getCurrentAct st) (sc_index (currentScene st)) (spotlight st)
    (openLoops st) (slice_last 3 (recentLines st)) (loveGraph st).

(** *** startEpisode *)

Definition basePair : LoveGraphPair := mkPair 0.1 0.1 0.2 0.1.

(** The double loop over [i < j]: one record per pair, keyed in seed order. *)
Fixpoint initLoveGraph (cs : list string) (g : LoveGraph) : LoveGraph :=
  match cs with
  | [] => g
  | c :: rest =>
      initLoveGraph rest (foldl (fun g' d => <[pairKeyOf c d := basePair]> g') g rest)
  end.

(** The list held by [state.x] after [x: seed.x || []] and, when a seed
    context is imported, [state.x.push(...seed.x)]: the state holds the
    seed's own array, so the push appends the array to itself. *)
Definition seededList (imported : bool) (o : option (list string)) : list string :=
  match o with
  | Some xs => if imported then xs ++ xs else xs
  | None => []
  end.

Definition startEpisode (seed : EpisodeSeed) (e : Engine)
  : Result EpisodeSummary * Engine :=
  let scene := mkScene Act1 0 None 0 0 in
  let imported := truthy (importSeed seed) || truthy (previousEnding seed) in
  let st :=
    mkState [Act1] [] scene (initLoveGraph (characters seed) ∅)
      (seed_vibe seed) (seed_setting seed)
      (characters seed !! 0%nat, characters seed !! 1%nat)
      [] (seededList imported (seed_openLoops seed))
      (seededList imported (seed_callbacks seed)) [] None 0 0 in
  (Ok (buildEpisodeSummary st), mkEngine (Some st) 0 (telemetryBuffer e)).

(** *** applyNudge *)

Definition scheduleNudge (n : Nudge) (counter : Z) (st : StoryState) : StoryState :=
  let sc := currentScene st in
  match n_intensity n with
  | major =>
      mkState (actPath st) (pastScenes st)
        (mkScene (sc_act sc) (sc_index sc) (sc_endedReason sc)
           (majorNudges sc + 1) (minorNudges sc))
        (loveGraph st) (activeVibe st) (setting st) (spotlight st)
        (recentLines st) (openLoops st) (callbacks st)
        (pendingNudges st ++ [n]) (Some 2%Z) (plateauCounter st) counter
  | minor =>
      mkState (actPath st) (pastScenes st)
        (mkScene (sc_act sc) (sc_index sc) (sc_endedReason sc)
           (majorNudges sc) (minorNudges sc + 1))
        (loveGraph st) (activeVibe st) (setting st) (spotlight st)
        (recentLines st) (openLoops st) (callbacks st)
        (pendingNudges st ++ [n]) (recoveryBias st) (plateauCounter st)
        (lastMajorNudgeExchange st)
  end.

(** [applyNudge].  [verdict] is what the safety collaborator answers for this
    nudge if it is consulted: [Some isSafe], or [None] when the call fails. *)
Definition applyNudge (nudgeDescriptor : Nudge) (verdict : option bool) (e : Engine)
  : Result bool * Engine :=
  match currentState e with
  | None => (Ok false, e)
  | Some st =>
      match getCurrentAct st with
      | None => (Throw "Cannot read properties of undefined", e)
      | Some currentAct =>
          let actGate := actGates currentAct in
          if includesNudge (blockedNudges actGate) (n_type nudgeDescriptor) then
            (Ok false, e)
          else if negb (includesNudge (allowedNudges actGate) (n_type nudgeDescriptor)) then
            (Ok false, e)
          else if bool_decide (n_intensity nudgeDescriptor = major)
                  && (exchangeCounter e - lastMajorNudgeExchange st <? 6)%Z then
            (Ok false, e)
          else
            match verdict with
            | None => (Throw "safety validation failed", e)
            | Some false => (Ok false, e)
            | Some true =>
                let st' := scheduleNudge nudgeDescriptor (exchangeCounter e) st in
                (Ok true, emitTelemetry (NudgeApplied nudgeDescriptor) (setState st' e))
            end
      end
  end.

(** *** Relationship graph *)

Definition clampPair (p : LoveGraphPair) : LoveGraphPair :=
  mkPair (clamp 0 1 (attraction p)) (clamp 0 1 (trust p))
         (clamp 0 1 (tension p)) (clamp 0 1 (comfort_ p)).

Definition addDeltas (p : LoveGraphPair) (d : ChemistryDeltas) : LoveGraphPair :=
  mkPair (attraction p + d_attraction d) (trust p + d_trust d)
         (tension p + d_tension d) (comfort_ p + d_comfort d).

Definition rippleStrength : Q := 0.1.

(** The body of the [forEach] of [applyRippleEffects] for one other pair. *)
Definition ripplePair (primaryDeltas : ChemistryDeltas) (pair : LoveGraphPair)
  : LoveGraphPair :=
  let pair1 :=
    if Qgtb (d_attraction primaryDeltas) 0 || Qgtb (d_comfort primaryDeltas) 0 then
      mkPair (attraction pair + d_attraction primaryDeltas * rippleStrength)
             (trust pair) (tension pair)
             (comfort_ pair + d_comfort primaryDeltas * rippleStrength)
    else pair in
  let pair2 :=
    if Qgtb (d_tension primaryDeltas) 0.1 then
      mkPair (attraction pair1)
             (trust pair1 - d_tension primaryDeltas * rippleStrength * 0.3)
             (tension pair1 + d_tension primaryDeltas * rippleStrength * 0.5)
             (comfort_ pair1)
    else pair1 in
  clampPair pair2.

Definition applyRippleEffects (primaryDeltas : ChemistryDeltas)
    (primaryPairKey : string) (g : LoveGraph) : LoveGraph :=
  map_imap (fun pairKey pair =>
              Some (if bool_decide (pairKey = primaryPairKey) then pair
                    else ripplePair primaryDeltas pair)) g.

Definition withLoveGraph (g : LoveGraph) (st : StoryState) : StoryState :=
  mkState (actPath st) (pastScenes st) (currentScene st) g
    (activeVibe st) (setting st) (spotlight st) (recentLines st) (openLoops st)
    (callbacks st) (pendingNudges st) (recoveryBias st) (plateauCounter st)
    (lastMajorNudgeExchange st).

Definition updateLoveGraph (line : SpokenLine) (st : StoryState) : StoryState :=
  let st1 := sortedState st in
  let pairKey := joinSpotlight (spotlight st1) in
  match loveGraph st1 !! pairKey with
  | Some currentPair =>
      let g1 := <[pairKey := clampPair (addDeltas currentPair (deltas line))]> (loveGraph st1) in
      withLoveGraph (applyRippleEffects (deltas line) pairKey g1) st1
  | None => st1
  end.

(** *** Checkpoints and act transitions *)

Definition someLine (f : SpokenLine -> bool) (st : StoryState) : bool :=
  existsb f (recentLines st).

Definition textHas (needle : string) (l : SpokenLine) : bool :=
  includes needle (toLowerCase (text l)).

(** The [switch] of [checkActAdvancement] on the checkpoint's type. *)
Definition checkpointHolds (t : CheckpointType) (loveData : LoveGraphPair)
    (st : StoryState) : bool :=
  match t with
  | mutual_spark =>
      let hasReciprocal := Qgeb (attraction loveData) 0.4 in
      let hasSharedMoment :=
        (0 <? length (callbacks st))%nat
        || someLine (fun l => Qgtb (d_trust (deltas l)) 0.05) st in
      hasReciprocal && hasSharedMoment
  | explicit_conflict =>
      let hasConflict := Qgeb (tension loveData) 0.6 in
      let hasSpokenDisagreement :=
        someLine (fun l => textHas "disagree" l || textHas "wrong" l
                           || Qgtb (d_tension (deltas l)) 0.1) st in
      hasConflict && hasSpokenDisagreement
  | need_boundary =>
      let hasTrust := Qgeb (trust loveData) 0.6 in
      let hasBoundaryStatement :=
        someLine (fun l => textHas "need" l || textHas "want" l
                           || textHas "boundary" l) st in
      hasTrust && hasBoundaryStatement
  | relational_choice =>
      someLine (fun l => textHas "choose" l || textHas "want us" l
                         || textHas "together" l) st
  end.

(** [checkActAdvancement]: the checkpoint to take, if any, and the state
    (the spotlight is sorted once a checkpoint for the act is found). *)
Definition checkActAdvancement (st : StoryState) : option Checkpoint * StoryState :=
  match getCurrentAct st with
  | None => (None, st)
  | Some currentAct =>
      match List.find (fun c => bool_decide (fromAct c = currentAct)) checkpoints with
      | None => (None, st)
      | Some cp =>
          let st1 := sortedState st in
          match loveGraph st1 !! joinSpotlight (spotlight st1) with
          | None => (None, st1)
          | Some loveData =>
              (if checkpointHolds (cp_type cp) loveData st1 then Some cp else None, st1)
          end
      end
  end.

(** [advanceAct]: the transition event and the new state. *)
Definition advanceAct (cp : Checkpoint) (st : StoryState)
  : SceneTransitionEvent * StoryState :=
  let old := currentScene st in
  let closed := mkScene (sc_act old) (sc_index old) (Some checkpoint)
                  (majorNudges old) (minorNudges old) in
  let newScene := mkScene (toAct cp) (sc_index old + 1) None 0 0 in
  let st' :=
    mkState (actPath st ++ [toAct cp]) (pastScenes st ++ [closed]) newScene
      (loveGraph st) (activeVibe st) (setting st) (spotlight st)
      (recentLines st) (openLoops st) (callbacks st) (pendingNudges st)
      (recoveryBias st) 0 (lastMajorNudgeExchange st) in
  (mkTransition (fromAct cp) (sc_index newScene - 1) (toAct cp)
     (sc_index newScene) checkpoint, st').

(** *** Plateau detection *)

(** Jaccard similarity of the two word sets *)
Definition calculateTextSimilarity (text1 text2 : string) : Q :=
  let words1 := dedup_strings (split_space (toLowerCase text1)) in
  let words2 := dedup_strings (split_space (toLowerCase text2)) in
  let intersection := List.filter (fun x => mem_string x words2) words1 in
  let union := dedup_strings (words1 ++ words2) in
  inject_Z (Z.of_nat (length intersection)) / inject_Z (Z.of_nat (length union)).

(** [recentDeltas.some((line, i) => recentDeltas.slice(i + 1).some(...))] *)
Fixpoint hasRepetition (ls : list SpokenLine) : bool :=
  match ls with
  | [] => false
  | line :: rest =>
      existsb (fun other => Qgtb (calculateTextSimilarity (text line) (text other)) 0.8) rest
      || hasRepetition rest
  end.

Definition withPlateau (c : Z) (st : StoryState) : StoryState :=
  mkState (actPath st) (pastScenes st) (currentScene st) (loveGraph st)
    (activeVibe st) (setting st) (spotlight st) (recentLines st) (openLoops st)
    (callbacks st) (pendingNudges st) (recoveryBias st) c
    (lastMajorNudgeExchange st).

(** [checkPlateau]: the new state and the events it emits. *)
Definition checkPlateau (st : StoryState) : StoryState * list TelemetryEvent :=
  let recentDeltas := slice_last 3 (recentLines st) in
  if (length recentDeltas <? 3)%nat then (st, [])
  else
    let avgDeltaMagnitude :=
      foldl (fun sum line =>
               sum + Qabs (d_attraction (deltas line)) + Qabs (d_trust (deltas line))
               + Qabs (d_tension (deltas line)) + Qabs (d_comfort (deltas line)))
            0 recentDeltas
      / (inject_Z (Z.of_nat (length recentDeltas)) * 4) in
    if Qltb avgDeltaMagnitude 0.02 || hasRepetition recentDeltas then
      let c := (plateauCounter st + 1)%Z in
      (withPlateau c st, [MetricTick "plateau_detected" (inject_Z c)])
    else (withPlateau 0 st, []).

(** *** Processing one produced line *)

(** Roughly 2.5 words per second, capped at 9 seconds *)
Definition estimateLineDuration (t : string) : Q :=
  Qmin 9 (inject_Z (Z.of_nat (length (split_space t))) / 2.5).

Definition processLine (finalLine : FinalLine) (st : StoryState)
  : SpokenLine * StoryState :=
  let spokenLine :=
    mkLine (fl_speaker finalLine) (fl_text finalLine)
      (estimateLineDuration (fl_text finalLine)) (fl_deltas finalLine) in
  let pushed := recentLines st ++ [spokenLine] in
  let recent := if (16 <? length pushed)%nat then slice_last 16 pushed else pushed in
  let cbs :=
    if (0 <? length (fl_used_tokens finalLine))%nat then
      List.filter (fun token => negb (mem_string token (fl_used_tokens finalLine)))
        (callbacks st)
    else callbacks st in
  (spokenLine,
   mkState (actPath st) (pastScenes st) (currentScene st) (loveGraph st)
     (activeVibe st) (setting st) (spotlight st) recent (openLoops st) cbs
     (pendingNudges st) (recoveryBias st) (plateauCounter st)
     (lastMajorNudgeExchange st)).

(** *** tick *)

(** What the body of the [for (const finalLine of finalLines)] loop carries. *)
Record LoopState := mkLoop {
  ls_state : StoryState;
  ls_produced : list SpokenLine;
  ls_transitions : list SceneTransitionEvent;
  ls_events : list TelemetryEvent
}.

(** One iteration: process the line, update the graph, look for a checkpoint
    and advance on one, look for a plateau. *)
Definition processFinalLine (ls : LoopState) (finalLine : FinalLine) : LoopState :=
  let '(spokenLine, st1) := processLine finalLine (ls_state ls) in
  let st2 := updateLoveGraph spokenLine st1 in
  let '(cp, st3) := checkActAdvancement st2 in
  let '(trs, st4) :=
    match cp with
    | Some c => let '(t, st') := advanceAct c st3 in ([t], st')
    | None => ([], st3)
    end in
  let '(st5, evs) := checkPlateau st4 in
  mkLoop st5 (ls_produced ls ++ [spokenLine]) (ls_transitions ls ++ trs)
    (ls_events ls ++ map SceneTransition trs ++ evs).

(** [processPendingNudges] then [updateRecoveryBias] *)
Definition endOfExchange (st : StoryState) : StoryState :=
  let bias :=
    match recoveryBias st with
    | None => None
    | Some exchangesLeft =>
        if (exchangesLeft - 1 <=? 0)%Z then None else Some (exchangesLeft - 1)%Z
    end in
  mkState (actPath st) (pastScenes st) (currentScene st) (loveGraph st)
    (activeVibe st) (setting st) (spotlight st) (recentLines st) (openLoops st)
    (callbacks st) [] bias (plateauCounter st) (lastMajorNudgeExchange st).

Definition emitMetrics (counter : Z) (st : StoryState) : list TelemetryEvent :=
  [ MetricTick "exchange_counter" (inject_Z counter);
    MetricTick "plateau_counter" (inject_Z (plateauCounter st));
    MetricTick "active_callbacks" (inject_Z (Z.of_nat (length (callbacks st))));
    MetricTick "love_graph_attraction"
      (match getLoveGraphForSpotlight st with
       | Some p => attraction p
       | None => 0
       end) ].

(** [tick].  [beat] is what the dialogue collaborator returns for this
    exchange: [Some finalLines], or [None] when [executeBeatPlan] fails.  A
    failed tick has already counted the exchange and emitted [turn.start]. *)
Definition tick (beat : option (list FinalLine)) (e : Engine)
  : Result TickResult * Engine :=
  match currentState e with
  | None => (Throw "No active episode to tick", e)
  | Some st =>
      let counter := (exchangeCounter e + 1)%Z in
      let buffer :=
        telemetryBuffer e ++ [TurnStart (getCurrentAct st) (sc_index (currentScene st))] in
      let st0 := sortedState st in
      match getCurrentAct st0, beat with
      | Some _, Some finalLines =>
          let ls := foldl processFinalLine (mkLoop st0 [] [] []) finalLines in
          let st1 := endOfExchange (ls_state ls) in
          let st2 := sortedState st1 in
          let events :=
            buffer ++ ls_events ls ++ emitMetrics counter st1
            ++ map TurnEnd (ls_produced ls) in
          (Ok (mkTickResult (ls_produced ls) (buildEpisodeSummary st2)
                 (ls_transitions ls) events),
           mkEngine (Some st2) counter [])
      | _, _ => (Throw "Error during tick", mkEngine (Some st0) counter buffer)
      end
  end.

(** *** getState *)

(** What [getState] leaves of the engine.  The snapshot it returns for the
    console is not modelled; computing its badges sorts the spotlight array
    in place, which is the one write of the method. *)
Definition afterGetState (e : Engine) : Engine :=
  match currentState e with
  | None => e
  | Some st => setState (sortedState st) e
  end.

(** The snapshot [getState] returns.  The episode summary is built first and
    holds the spotlight array itself, which computing the badges then sorts
    in place: the summary returned shows the sorted spotlight. *)
Definition calculateFreshnessGain (st : StoryState) : Q :=
  if (length (recentLines st) <? 2)%nat then 0.5
  else
    match slice_last 2 (recentLines st) with
    | [r0; r1] => Qmax 0 (1 - calculateTextSimilarity (text r0) (text r1))
    | _ => 0.5 (* the slice of two or more lines has two lines *)
    end.

Definition calculateCoherenceCost (st : StoryState) : option Q :=
  match getCurrentAct st with
  | Some currentAct => Some (Qmin 1 (0.2 + (inject_Z (act_num currentAct) - 1) * 0.1))
  | None => None
  end.

Definition calculateFragilityIndex (st : StoryState) : Q :=
  match getLoveGraphForSpotlight st with
  | None => 0
  | Some loveData =>
      let highTension := tension loveData * 0.4 in
      let lowTrust := (1 - trust loveData) * 0.4 in
      let contradictions := 0.2 in
      Qmin 1 (highTension + lowTrust + contradictions)
  end.

Definition generateThresholdBadges (st : StoryState) : list BadgeType :=
  match getLoveGraphForSpotlight st with
  | Some loveData =>
      (if Qgeb (attraction loveData) 0.7 then [badge_spark] else [])
      ++ (if Qltb (trust loveData) 0.3 && Qgtb (tension loveData) 0.5
          then [badge_fragile_trust] else [])
      ++ (if Qgeb (comfort_ loveData) 0.8 then [badge_safe_space] else [])
  | None => []
  end
  ++ (if (3 <=? plateauCounter st)%Z then [badge_plateau] else []).

Definition getState (e : Engine) : option ConsoleState :=
  match currentState e with
  | None => None
  | Some st =>
      Some (mkConsole
              (buildEpisodeSummary (sortedState st))
              (generateThresholdBadges st)
              (pendingNudges st)
              (mkConsoleScores (calculateFreshnessGain st) (calculateCoherenceCost st)
                 (calculateFragilityIndex st) 0)
              (mkCadence (majorNudges (currentScene st)) 1 (lastMajorNudgeExchange st)
                 (match recoveryBias st with Some _ => true | None => false end)))
  end.

(** *** The bias flags of an exchange *)

(** The [biasEffects] column of the nudge catalog. *)
Definition biasEffects (t : NudgeType) : BiasEffects :=
  match t with
  | raise_stakes => mkBias (Some 0.05) None (Some 0.15) None
  | comfort => mkBias None None (Some (-0.05)) (Some 0.1)
  | vulnerability => mkBias (Some 0.03) (Some 0.12) None None
  | recall => mkBias (Some 0.08) None None (Some 0.04)
  | aside => mkBias (Some 0.02) None (Some 0.06) None
  | tempo_up => mkBias (Some 0.02) None (Some 0.04) None
  | tempo_down => mkBias None (Some 0.02) None (Some 0.06)
  end.

(** Truthiness of an optional number: [undefined] and 0 are falsy. *)
Definition truthyNumber (o : option Q) : bool :=
  match o with
  | Some q => negb (Qeq_bool q 0)
  | None => false
  end.

(** The body of the loop of [buildBiasFlags] for one pending nudge. *)
Definition applyNudgeBias (flags : BiasFlags) (nudge : Nudge) : BiasFlags :=
  let effects := biasEffects (n_type nudge) in
  mkFlags
    (if truthyNumber (be_comfort effects) then Some 0.7 else bias_reassure flags)
    (bias_clarify flags)
    (if truthyNumber (be_trust effects) then Some 0.5 else bias_self_disclosure flags)
    (if truthyNumber (be_tension effects) then Some 0.4 else bias_stakes flags)
    (if truthy (n_token nudge) then n_token nudge else recall_token flags).

Definition buildBiasFlags (st : StoryState) : BiasFlags :=
  foldl applyNudgeBias
    (match recoveryBias st with
     | Some _ => mkFlags (Some 0.6) true None None None
     | None => mkFlags None false None None None
     end)
    (pendingNudges st).

(** *** Calls on the engine *)

Inductive Call :=
| CallStart (seed : EpisodeSeed)
| CallNudge (nudge : Nudge) (verdict : option bool)
| CallTick (beat : option (list FinalLine))
| CallGetState.

Inductive Outcome :=
| Started (r : Result EpisodeSummary)
| Nudged (r : Result bool)
| Ticked (r : Result TickResult)
| Observed.

Definition call (c : Call) (e : Engine) : Outcome * Engine :=
  match c with
  | CallStart seed => let '(r, e') := startEpisode seed e in (Started r, e')
  | CallNudge n v => let '(r, e') := applyNudge n v e in (Nudged r, e')
  | CallTick beat => let '(r, e') := tick beat e in (Ticked r, e')
  | CallGetState => (Observed, afterGetState e)
  end.

(** The engine after a sequence of calls. *)
Definition run (cs : list Call) (e : Engine) : Engine :=
  foldl (fun e' c => snd (call c e')) e cs.

End NarrativeEngine.

(** ** The evaluation engine (engines/evaluation.ts) *)

Module EvaluationEngine.

Open Scope Q_scope.

(** The mutable fields of an [EvaluationEngine] instance. *)
Record Evaluator := mkEvaluator {
  rollingWindow : list SpokenLine;
  recentDeltas : list ChemistryDeltas;
  evaluationSnapshots : list EvaluationSnapshot;
  majorNudgeCount : Z;
  lastMajorNudgeTime : Q;
  exchangeCounter : Q   (* a [metric.tick] event may store any number here *)
}.

Definition newEvaluator : Evaluator := mkEvaluator [] [] [] 0 0 0.

(** Operational defaults *)
Definition actCoherenceWeights (a : Act) : Q :=
  match a with
  | Act1 => 0.7 | Act2 => 0.9 | Act3 => 1.2 | Act4 => 1.6 | Act5 => 1.8
  end.

Definition windowSize : nat := 12.
Definition majorNudgeCooldown : Q := 6.
Definition minScoreThreshold : Q := 0.3.

Definition addToRollingWindow (line : SpokenLine) (w : list SpokenLine)
  : list SpokenLine :=
  let w' := w ++ [line] in
  if (windowSize <? length w')%nat then slice_last windowSize w' else w'.

(** [xs.reduce((sum, d) => sum + f(d), 0) / xs.length] *)
Definition averageOf {A} (f : A -> Q) (xs : list A) : Q :=
  foldl (fun sum d => sum + f d) 0 xs / inject_Z (Z.of_nat (length xs)).

Definition contradictoryPairs : list (string * string) :=
  [ ("yes", "no"); ("love", "hate"); ("trust", "distrust"); ("want", "don't want") ]%string.

Definition detectContradictions (ev : Evaluator) : Q :=
  if (length (rollingWindow ev) <? 2)%nat then 0
  else
    match slice_last 2 (rollingWindow ev) with
    | [r0; r1] =>
        if existsb (fun p => includes (fst p) (toLowerCase (text r0))
                             && includes (snd p) (toLowerCase (text r1)))
             contradictoryPairs
        then 0.5 else 0.1
    | _ => 0.1 (* the slice of a window of two or more lines has two lines *)
    end.

Definition calculateFragilityIndex (ev : Evaluator) : FragilityComponents :=
  let avgTension :=
    if (0 <? length (recentDeltas ev))%nat then averageOf d_tension (recentDeltas ev)
    else 0.2 in
  let highTension := Qmax 0 (avgTension - 0.5) * 2 in
  let avgTrust :=
    if (0 <? length (recentDeltas ev))%nat then averageOf d_trust (recentDeltas ev)
    else 0.3 in
  let lowTrust := Qmax 0 (0.5 - avgTrust) * 2 in
  let recentContradictions := detectContradictions ev in
  mkFragility highTension lowTrust recentContradictions
    (Qmin 1 (0.4 * highTension + 0.4 * lowTrust + 0.2 * recentContradictions)).

Definition calculateLambda (fragility : Q) (act : Act) : Q :=
  let baseWeight := actCoherenceWeights act in
  let fragilityMultiplier := 0.6 + (fragility * 1.2) in
  baseWeight * fragilityMultiplier.

(** *** Candidate generation *)

Definition availableNudges (a : Act) : list NudgeType :=
  match a with
  | Act1 => [comfort; vulnerability; recall; tempo_down]
  | Act2 => [comfort; vulnerability; recall; aside; tempo_up; raise_stakes]
  | Act3 => [raise_stakes; vulnerability; aside; tempo_up]
  | Act4 => [comfort; vulnerability; recall; tempo_down]
  | Act5 => [comfort; recall; tempo_down]
  end.

Definition determineNudgeIntensity (t : NudgeType) : NudgeIntensity :=
  if bool_decide (t = raise_stakes) then major else minor.

Definition generateNudgeCandidates (state : EvaluationState) : list Nudge :=
  take 5
    (map (fun nudgeType =>
            mkNudge nudgeType (determineNudgeIntensity nudgeType) auto None
              (if bool_decide (nudgeType = recall)
                  && (0 <? length (callbackActivity state))%nat
               then callbackActivity state !! 0%nat else None))
         (availableNudges (es_act state))).

(** *** Cadence checking *)

(** The verdict and its reason (the first reason without the count of
    exchanges that the source appends to it). *)
Definition checkCadenceConstraints (nudge : Nudge) (ev : Evaluator) : bool * string :=
  if bool_decide (n_intensity nudge = major)
     && Qltb (exchangeCounter ev - lastMajorNudgeTime ev) majorNudgeCooldown then
    (false, "Major nudge cooldown")
  else if Qle_bool (exchangeCounter ev - lastMajorNudgeTime ev) 2
          && negb (bool_decide (n_type nudge = comfort)) then
    (false, "Recovery period active - comfort/clarify nudges preferred")
  else (true, "Cadence constraints satisfied").

(** *** Component calculations *)

Definition calculateDiversityBonus (nudgeType : NudgeType) (ev : Evaluator) : Q :=
  let recentNudges :=
    map (fun s => n_type (candidate s))
      (List.filter chosen (slice_last 10 (evaluationSnapshots ev))) in
  let recentUsage :=
    length (List.filter (fun t => bool_decide (t = nudgeType)) recentNudges) in
  Qmax 0 (1 - inject_Z (Z.of_nat recentUsage) * 0.3).

Definition calculateStagnationBuster (ev : Evaluator) : Q :=
  if (length (recentDeltas ev) <? 3)%nat then 0
  else
    let recentMagnitudes :=
      map (fun d => Qabs (d_attraction d) + Qabs (d_trust d)
                    + Qabs (d_tension d) + Qabs (d_comfort d))
        (slice_last 3 (recentDeltas ev)) in
    let avgMagnitude := averageOf (fun m => m) recentMagnitudes in
    if Qltb avgMagnitude 0.05 then 0.8 else 0.2.

Definition assessPersonaDriftRisk (c : Nudge) : Q :=
  match n_type c with
  | raise_stakes => 0.3
  | vulnerability => 0.1
  | comfort => 0.05
  | recall => 0.1
  | aside => 0.2
  | tempo_up => 0.15
  | tempo_down => 0.1
  end.

Definition assessActGrammarViolation (c : Nudge) (act : Act) : Q :=
  match act, n_type c with
  | Act1, raise_stakes => 0.8
  | Act3, comfort => 0.6
  | Act4, raise_stakes => 0.7
  | Act5, raise_stakes => 0.9
  | Act5, aside => 0.8
  | _, _ => 0.1
  end.

Definition assessContinuityRisk (c : Nudge) (state : EvaluationState) : Q :=
  if bool_decide (n_type c = recall) && (length (callbackActivity state) =? 0)%nat
  then 0.8 else 0.1.

Definition assessSafetyRisk (c : Nudge) : Q :=
  if bool_decide (n_type c = raise_stakes) && bool_decide (n_intensity c = major)
  then 0.2 else 0.05.

Definition calculateCoherenceCost (c : Nudge) (state : EvaluationState)
  : CoherenceComponents :=
  let personaDrift := assessPersonaDriftRisk c in
  let actGrammarViolation := assessActGrammarViolation c (es_act state) in
  let continuityContradiction := assessContinuityRisk c state in
  let safetyGuard := assessSafetyRisk c in
  let actWeight := (inject_Z (act_num (es_act state)) - 1) * 0.1 + 1 in
  mkCoherence personaDrift actGrammarViolation continuityContradiction safetyGuard
    (Qmin 1 (actWeight * (0.3 * personaDrift + 0.25 * actGrammarViolation
                          + 0.25 * continuityContradiction + 0.2 * safetyGuard))).

(** *** Scoring *)

Section Scoring.

(** What the [try] block of [calculateSemanticNovelty] yields for a candidate
    against the rolling window: one minus the average cosine similarity of
    the embeddings the embedding service returns, floored at 0, or the
    default 0.5 when the service fails. *)
Variable embeddingNovelty : Nudge -> list SpokenLine -> Q.

Definition calculateSemanticNovelty (c : Nudge) (ev : Evaluator) : Q :=
  if (length (rollingWindow ev) <? 2)%nat then 0.8
  else embeddingNovelty c (rollingWindow ev).

Definition calculateFreshnessGain (c : Nudge) (ev : Evaluator) : FreshnessComponents :=
  let semanticNovelty := calculateSemanticNovelty c ev in
  let diversityBonus := calculateDiversityBonus (n_type c) ev in
  let stagnationBuster := calculateStagnationBuster ev in
  let callbackRevival := if truthy (n_token c) then 0.3 else 0 in
  mkFreshness semanticNovelty diversityBonus stagnationBuster callbackRevival
    (Qmin 1 (0.4 * semanticNovelty + 0.3 * diversityBonus
             + 0.2 * stagnationBuster + 0.1 * callbackRevival)).

(** Core scoring logic *)
Definition scoreNudgeCandidate (c : Nudge) (state : EvaluationState)
    (fragility : FragilityComponents) (ev : Evaluator) : EvaluationScores :=
  let freshnessComponents := calculateFreshnessGain c ev in
  let coherenceComponents := calculateCoherenceCost c state in
  let lambda := calculateLambda (fragility_total fragility) (es_act state) in
  let score :=
    freshness_total freshnessComponents - (lambda * coherence_total coherenceComponents) in
  mkScores (freshness_total freshnessComponents) (coherence_total coherenceComponents)
    (fragility_total fragility) (Qmax (-1) (Qmin 1 score)).

Definition generateRationales (c : Nudge) (scores : EvaluationScores)
    (state : EvaluationState) (ev : Evaluator) : list string :=
  let rationales :=
    (if Qgtb (freshnessGain scores) 0.7 then ["High novelty potential"] else [])
    ++ (if truthy (n_token c) then ["Dormant callback revival"] else [])
    ++ (if Qgtb (calculateStagnationBuster ev) 0.6 then ["Story momentum stagnating"] else [])
    ++ (if Qgtb (coherenceCost scores) 0.5 then ["Moderate coherence risk"] else [])
    ++ (if (4 <=? act_num (es_act state))%Z && bool_decide (n_type c = raise_stakes)
        then ["Late-act stakes escalation"] else [])
    ++ (if (act_num (es_act state) <=? 2)%Z && bool_decide (n_type c = vulnerability)
        then ["Early vulnerability building"] else [])
    ++ (if Qgtb (fragilityIndex scores) 0.6 && bool_decide (n_type c = comfort)
        then ["Fragile scene needs stabilization"] else []) in
  (if (0 <? length rationales)%nat then rationales
   else ["Standard progression nudge"])%string.

(** An element of [scoredCandidates]; [sd_position] is where its candidate
    stands among the candidates of the call, which tells the candidate
    objects of one call apart. *)
Record Scored := mkScored {
  sd_position : nat;
  sd_nudge : Nudge;
  sd_scores : EvaluationScores;
  sd_rationales : list string
}.

(** The loop of [consider] over the candidates: each is scored against the
    snapshots stored so far, then stored itself. *)
Fixpoint scoreCandidates (state : EvaluationState) (fragility : FragilityComponents)
    (position : nat) (cands : list Nudge) (ev : Evaluator)
  : list Scored * Evaluator :=
  match cands with
  | [] => ([], ev)
  | c :: rest =>
      let scores := scoreNudgeCandidate c state fragility ev in
      let rationales := generateRationales c scores state ev in
      let snapshot := mkSnapshot (es_act state) c scores rationales false in
      let ev1 :=
        mkEvaluator (rollingWindow ev) (recentDeltas ev)
          (evaluationSnapshots ev ++ [snapshot]) (majorNudgeCount ev)
          (lastMajorNudgeTime ev) (exchangeCounter ev) in
      let '(scored, ev2) := scoreCandidates state fragility (S position) rest ev1 in
      (mkScored position c scores rationales :: scored, ev2)
  end.

(** [sort((a, b) => b.scores.finalScore - a.scores.finalScore)]: descending,
    candidates of equal score keeping their order. *)
Fixpoint insertByScore (x : Scored) (l : list Scored) : list Scored :=
  match l with
  | [] => [x]
  | y :: r =>
      if Qltb (finalScore (sd_scores y)) (finalScore (sd_scores x)) then x :: y :: r
      else y :: insertByScore x r
  end.

Definition sortByScore (l : list Scored) : list Scored :=
  foldl (fun acc x => insertByScore x acc) [] l.

Definition markChosen (s : EvaluationSnapshot) : EvaluationSnapshot :=
  mkSnapshot (snap_sceneId s) (candidate s) (snap_scores s) (snap_rationales s) true.

(** Hook: Consider - analyze state and return recommendation.  No step of
    the [try] block raises on arguments of the declared types (the embedding
    service's failures are caught inside [calculateSemanticNovelty]), so the
    [catch] branch has no counterpart here. *)
Definition consider (state : EvaluationState) (lastLine : option SpokenLine)
    (ev : Evaluator) : EvaluationRecommendation * Evaluator :=
  let ev1 :=
    mkEvaluator
      (match lastLine with
       | Some l => addToRollingWindow l (rollingWindow ev)
       | None => rollingWindow ev
       end)
      (recentDeltas ev) (evaluationSnapshots ev) (majorNudgeCount ev)
      (lastMajorNudgeTime ev) (exchangeCounter ev + 1) in
  let fragility := calculateFragilityIndex ev1 in
  let candidates := generateNudgeCandidates state in
  let '(scored, ev2) := scoreCandidates state fragility 0 candidates ev1 in
  match sortByScore scored with
  | [] =>
      (mkRecommendation None
         ["All candidates below minimum threshold"; "Maintaining current trajectory"]
         (mkScores 0 0 (fragility_total fragility) 0) true, ev2)
  | bestCandidate :: _ =>
      if Qltb (finalScore (sd_scores bestCandidate)) minScoreThreshold then
        (mkRecommendation None
           ["All candidates below minimum threshold"; "Maintaining current trajectory"]
           (mkScores 0 0 (fragility_total fragility) 0) true, ev2)
      else
        let cadenceCheck := checkCadenceConstraints (sd_nudge bestCandidate) ev2 in
        if negb (fst cadenceCheck) then
          (mkRecommendation None
             [snd cadenceCheck; "Respecting nudge cadence limits"]
             (sd_scores bestCandidate) true, ev2)
        else
          let snapshots :=
            alter markChosen
              (length (evaluationSnapshots ev1) + sd_position bestCandidate)%nat
              (evaluationSnapshots ev2) in
          (mkRecommendation (Some (sd_nudge bestCandidate))
             (sd_rationales bestCandidate) (sd_scores bestCandidate) false,
           mkEvaluator (rollingWindow ev2) (recentDeltas ev2) snapshots
             (majorNudgeCount ev2) (lastMajorNudgeTime ev2) (exchangeCounter ev2))
  end.

End Scoring.

(** *** Telemetry hooks *)

Definition onTelemetry (event : TelemetryEvent) (ev : Evaluator) : Evaluator :=
  match event with
  | TurnEnd line =>
      let ds := recentDeltas ev ++ [deltas line] in
      mkEvaluator (addToRollingWindow line (rollingWindow ev))
        (if (10 <? length ds)%nat then slice_last 10 ds else ds)
        (evaluationSnapshots ev) (majorNudgeCount ev) (lastMajorNudgeTime ev)
        (exchangeCounter ev)
  | NudgeApplied nudge =>
      if bool_decide (n_intensity nudge = major) then
        mkEvaluator (rollingWindow ev) (recentDeltas ev) (evaluationSnapshots ev)
          (majorNudgeCount ev + 1) (exchangeCounter ev) (exchangeCounter ev)
      else ev
  | MetricTick name value =>
      if String.eqb name "exchange_counter" then
        mkEvaluator (rollingWindow ev) (recentDeltas ev) (evaluationSnapshots ev)
          (majorNudgeCount ev) (lastMajorNudgeTime ev) value
      else ev
  | _ => ev
  end.

(** *** Public accessors *)

Definition getRecentScores (ev : Evaluator) : list EvaluationScores :=
  map snap_scores (slice_last 5 (evaluationSnapshots ev)).

Definition clearSnapshots (ev : Evaluator) : Evaluator :=
  mkEvaluator (rollingWindow ev) (recentDeltas ev) [] (majorNudgeCount ev)
    (lastMajorNudgeTime ev) (exchangeCounter ev).

End EvaluationEngine.

(** * Properties *)

Import NarrativeEngine.

(** ** Predicates the properties are stated with *)

Section Predicates.

Open Scope Q_scope.

Definition inUnit (x : Q) : Prop := 0 <= x /\ x <= 1.

Definition pairInRange (p : LoveGraphPair) : Prop :=
  inUnit (attraction p) /\ inUnit (trust p) /\ inUnit (tension p) /\ inUnit (comfort_ p).

Definition graphInRange (g : LoveGraph) : Prop :=
  map_Forall (fun _ p => pairInRange p) g.

Definition engineGraphInRange (e : Engine) : Prop :=
  match currentState e with
  | Some st => graphInRange (loveGraph st)
  | None => True
  end.

(** The five acts in order. *)
Definition allActs : list Act := [Act1; Act2; Act3; Act4; Act5].

(** Each entry of the path is the act after the entry before it. *)
Definition stepsByOne (path : list Act) : Prop :=
  forall (i : nat) (a b : Act),
    path !! i = Some a -> path !! S i = Some b -> act_num b = (act_num a + 1)%Z.

Definition nonDecreasing (path : list Act) : Prop :=
  forall (i j : nat) (a b : Act),
    (i <= j)%nat -> path !! i = Some a -> path !! j = Some b ->
    (act_num a <= act_num b)%Z.

(** The path is [1], [1,2], ... or [1,2,3,4,5]. *)
Definition sequentialPath (path : list Act) : Prop :=
  exists k : nat, (1 <= k <= 5)%nat /\ path = take k allActs.

Definition engineSequential (e : Engine) : Prop :=
  match currentState e with
  | Some st => sequentialPath (actPath st)
  | None => True
  end.

(** A transition event that goes from an act to the next one. *)
Definition forwardByOne (t : SceneTransitionEvent) : Prop :=
  act_num (tr_toAct t) = (act_num (tr_fromAct t) + 1)%Z.

(** What the loop of [tick] keeps true of its transitions: they account for
    the growth of the act path from [base], there is at most one per line
    processed, and each goes to the next act. *)
Definition loopAccounted (base : list Act) (ls : LoopState) : Prop :=
  actPath (ls_state ls) = base ++ map tr_toAct (ls_transitions ls)
  /\ (length (ls_transitions ls) <= length (ls_produced ls))%nat
  /\ Forall forwardByOne (ls_transitions ls).

(** The two conditions of the act 1 to act 2 checkpoint, on the record of
    the spotlighted pair, the open callbacks and the recent lines. *)
Definition sparkCheckpoint : Checkpoint := mkCheckpoint mutual_spark Act1 Act2.

Definition reciprocalAttraction (st : StoryState) : Prop :=
  exists loveData : LoveGraphPair,
    loveGraph st !! spotlightKey st = Some loveData /\ 0.4 <= attraction loveData.

Definition sharedMoment (st : StoryState) : Prop :=
  callbacks st <> []
  \/ Exists (fun l => 0.05 < d_trust (deltas l)) (recentLines st).

(** *** Sequences of calls within one episode *)

Definition isTick (c : Call) : bool :=
  match c with CallTick _ => true | _ => false end.

Definition isStart (c : Call) : bool :=
  match c with CallStart _ => true | _ => false end.

(** The calls stay within the episode: none of them starts a new one. *)
Definition noRestart (cs : list Call) : Prop :=
  Forall (fun c => isStart c = false) cs.

(** The number of exchanges among the calls: one per [tick]. *)
Definition ticksIn (cs : list Call) : Z :=
  Z.of_nat (length (List.filter isTick cs)).

(** The calls strictly between positions [i] and [j]. *)
Definition callsBetween (i j : nat) (cs : list Call) : list Call :=
  take (j - S i) (drop (S i) cs).

(** What each call of the sequence returns. *)
Fixpoint outcomes (cs : list Call) (e : Engine) : list Outcome :=
  match cs with
  | [] => []
  | c :: rest => fst (call c e) :: outcomes rest (snd (call c e))
  end.

(** The call at position [i] is a major nudge and [applyNudge] returned true. *)
Definition acceptedMajorAt (cs : list Call) (os : list Outcome) (i : nat) : Prop :=
  (exists (n : Nudge) (v : option bool),
      cs !! i = Some (CallNudge n v) /\ n_intensity n = major)
  /\ os !! i = Some (Nudged (Ok true)).

Definition lastMajorOf (e : Engine) : Z :=
  from_option lastMajorNudgeExchange 0%Z (currentState e).

(** An episode is active, its act path is not empty and the exchange of the
    last major nudge is not in the future. *)
Definition cadenceInv (e : Engine) : Prop :=
  exists st : StoryState,
    currentState e = Some st /\ actPath st <> []
    /\ (lastMajorNudgeExchange st <= exchangeCounter e)%Z.

(** The final score as the scoring model gives it from the other three
    reported scores: freshness gain minus lambda times coherence cost,
    clamped to [-1,1], lambda being the act's base coherence weight (the
    weight of its gate) times 0.6 + 1.2 fragility. *)
Definition scoreFormula (act : Act) (s : EvaluationScores) : Prop :=
  finalScore s ==
  clamp (-1) 1
    (freshnessGain s
     - (coherenceWeight (actGates act) * (0.6 + fragilityIndex s * 1.2))
       * coherenceCost s).

(** The reading of the specification under which [startEpisode] fails on a
    character list of fewer than two entries. *)
Definition startEpisodeFailsOnShortLists : Prop :=
  forall (seed : EpisodeSeed) (e : Engine),
    (length (characters seed) < 2)%nat ->
    exists msg : string, fst (startEpisode seed e) = Throw msg.

(** The reading of the specification under which a tick never makes more
    than one act transition. *)
Definition atMostOneTransitionPerTick : Prop :=
  forall (calls : list Call) (beat : option (list FinalLine))
         (r : TickResult) (e' : Engine),
    tick beat (run calls newEngine) = (Ok r, e') ->
    (length (transitions r) <= 1)%nat.

End Predicates.

(** ** Sample episodes *)

Section Samples.

Open Scope Q_scope.

Definition emmaJake : EpisodeSeed :=
  mkSeed ["emma"; "jake"]%string "ember" "coffee shop" None None None None.

Definition lineWith (d : ChemistryDeltas) : FinalLine :=
  mkFinalLine "emma" "I have been thinking about what you said" [] d.

(** An exchange of two lines that each raise attraction and tension by 0.15. *)
Definition warmUp : Call :=
  CallTick (Some [lineWith (mkDeltas 0.15 0 0.15 0); lineWith (mkDeltas 0.15 0 0.15 0)]).

(** A line that opens up a little (trust +0.06) and adds tension, then a
    line that changes nothing. *)
Definition sparkThenStill : list FinalLine :=
  [lineWith (mkDeltas 0.1 0.06 0.15 0); lineWith (mkDeltas 0 0 0 0)].

(** A state in act 1 whose spotlighted pair is forced to the given record,
    with the given open callbacks and recent lines. *)
Definition forcedState (p : LoveGraphPair) (cbs : list string)
    (recent : list SpokenLine) : StoryState :=
  mkState [Act1] [] (mkScene Act1 0 None 0 0) (<["emma-jake"%string := p]> ∅)
    "ember" "coffee shop" (Some "emma", Some "jake")%string recent [] cbs []
    None 0 0.

Definition sparkOnly : StoryState := forcedState (mkPair 0.45 0.2 0.3 0.2) [] [].

Definition sparkAndCallback : StoryState :=
  forcedState (mkPair 0.45 0.2 0.3 0.2) ["shared moment"%string] [].

Definition nobody : EpisodeSeed :=
  mkSeed [] "ember" "coffee shop" None None None None.

Definition emmaAlone : EpisodeSeed :=
  mkSeed ["emma"]%string "ember" "coffee shop" None None None None.

(** Three characters: the pairs emma-jake, emma-sam and jake-sam. *)
Definition trio : LoveGraph :=
  initLoveGraph ["emma"; "jake"; "sam"]%string ∅.

Definition trioSeed : EpisodeSeed :=
  mkSeed ["emma"; "jake"; "sam"]%string "ember" "coffee shop" None None None None.

(** An exchange whose one line carries deltas far beyond the usual 0.15. *)
Definition stormyExchange : Call :=
  CallTick (Some [lineWith (mkDeltas 2 (-3) 0.5 5)]).

Definition quietTick : Call := CallTick (Some []).

Definition raiseStakesMajor : Nudge := mkNudge raise_stakes major observer None None.

Definition asideMinor : Nudge := mkNudge aside minor observer None None.

(** The state of the first sample forced to act 5, as the acceptance test
    forces it. *)
Definition inAct5 : StoryState :=
  mkState [Act1; Act2; Act3; Act4; Act5] [] (mkScene Act5 0 None 0 0)
    (<["emma-jake"%string := basePair]> ∅) "ember" "coffee shop"
    (Some "emma", Some "jake")%string [] [] [] [] None 0 0.

(** Six exchanges that take the episode to act 3, a major nudge, two more
    exchanges, and the same major nudge again. *)
Definition cadenceCalls : list Call :=
  [ warmUp; CallTick (Some sparkThenStill); quietTick; quietTick; quietTick; quietTick;
    CallNudge raiseStakesMajor (Some true);
    quietTick; quietTick;
    CallNudge raiseStakesMajor (Some true) ].

(** A primary delta with some attraction and a little less comfort. *)
Definition fondButUneasy : ChemistryDeltas := mkDeltas 0.1 0 0 (-0.05).

Definition calmAct1 : EvaluationState :=
  mkEvalState [] Act1 0 ("emma", "jake")%string [] [].

Definition halfNovelty (c : Nudge) (window : list SpokenLine) : Q := 0.5.

End Samples.

(** ** Further predicates *)

Section MorePredicates.

Open Scope Q_scope.

(** What processing the lines of a tick never touches. *)
Definition lineFrame (st st' : StoryState) : Prop :=
  pendingNudges st' = pendingNudges st
  /\ recoveryBias st' = recoveryBias st
  /\ lastMajorNudgeExchange st' = lastMajorNudgeExchange st
  /\ openLoops st' = openLoops st
  /\ activeVibe st' = activeVibe st
  /\ setting st' = setting st.

Definition recoveryOf (e : Engine) : option Z :=
  currentState e ≫= recoveryBias.

Definition pendingOf (e : Engine) : list Nudge :=
  from_option pendingNudges [] (currentState e).

(** The scene transitions among some telemetry events, in order. *)
Definition transitionEvents (evs : list TelemetryEvent) : list SceneTransitionEvent :=
  omap (fun ev => match ev with SceneTransition t => Some t | _ => None end) evs.

(** An event of the kinds the loop of [tick] emits: a scene transition or a
    metric tick. *)
Definition loopEvent (ev : TelemetryEvent) : Prop :=
  match ev with
  | SceneTransition _ | MetricTick _ _ => True
  | _ => False
  end.

(** The spoken line [processLine] makes of a final line. *)
Definition spokenOf (fl : FinalLine) : SpokenLine :=
  mkLine (fl_speaker fl) (fl_text fl) (estimateLineDuration (fl_text fl)) (fl_deltas fl).

(** A token that one of the lines used. *)
Definition usedBy (fls : list FinalLine) (token : string) : bool :=
  existsb (fun fl => mem_string token (fl_used_tokens fl)) fls.

(** What the graph update, the checkpoint detector and the plateau detector
    never touch. *)
Definition recordFrame (st st' : StoryState) : Prop :=
  recentLines st' = recentLines st
  /\ callbacks st' = callbacks st
  /\ pastScenes st' = pastScenes st
  /\ currentScene st' = currentScene st.

(** The scenes of the episode: the closed ones, then the current one. *)
Definition allScenes (st : StoryState) : list Scene :=
  pastScenes st ++ [currentScene st].

(** There is one scene per entry of the act path, of that act and numbered
    from 0; every scene but the current one was closed by a checkpoint, the
    current one is open; no nudge counter is negative. *)
Definition scenesConsistent (st : StoryState) : Prop :=
  map sc_act (allScenes st) = actPath st
  /\ map sc_index (allScenes st) = map Z.of_nat (seq 0 (length (allScenes st)))
  /\ Forall (fun s => sc_endedReason s = Some checkpoint) (pastScenes st)
  /\ sc_endedReason (currentScene st) = None
  /\ Forall (fun s => (0 <= majorNudges s)%Z /\ (0 <= minorNudges s)%Z) (allScenes st).

Definition engineScenesConsistent (e : Engine) : Prop :=
  match currentState e with
  | Some st => scenesConsistent st
  | None => True
  end.

(** The recovery bias after the end of one more exchange. *)
Definition recoveryAfterExchange (bias : option Z) : option Z :=
  match bias with
  | None => None
  | Some exchangesLeft =>
      if (exchangesLeft - 1 <=? 0)%Z then None else Some (exchangesLeft - 1)%Z
  end.

Definition recentBounded (e : Engine) : Prop :=
  match currentState e with
  | Some st => (length (recentLines st) <= 16)%nat
  | None => True
  end.





(** The key is the key of two characters of the list, the first listed
    before the second. *)
Definition pairOfCast (cs : list string) (key : string) : Prop :=
  exists (i j : nat) (a b : string),
    (i < j)%nat /\ cs !! i = Some a /\ cs !! j = Some b /\ key = pairKeyOf a b.

Fixpoint pairOfCastb (cs : list string) (key : string) : bool :=
  match cs with
  | [] => false
  | c :: rest =>
      existsb (fun d => String.eqb key (pairKeyOf c d)) rest || pairOfCastb rest key
  end.

(** What a call returns when no episode is active. *)
Definition idleOutcome (o : Outcome) : Prop :=
  match o with
  | Nudged (Ok false) => True
  | Ticked (Throw _) => True
  | Observed => True
  | _ => False
  end.

(** *** Reading the state *)

Definition isGetState (c : Call) : bool :=
  match c with CallGetState => true | _ => false end.

Definition isObserved (o : Outcome) : bool :=
  match o with Observed => true | _ => false end.

(** The engine with the spotlight of its state in sorted order. *)
Definition settled (e : Engine) : Engine :=
  mkEngine (sortedState <$> currentState e) (exchangeCounter e) (telemetryBuffer e).

(** A pending nudge of one of the given types. *)
Definition pendingOfType (types : list NudgeType) (st : StoryState) : bool :=
  existsb (fun n => includesNudge types (n_type n)) (pendingNudges st).

(** The tokens of the pending nudges that carry one, in order. *)
Definition pendingTokens (st : StoryState) : list string :=
  omap (fun n => if truthy (n_token n) then n_token n else None) (pendingNudges st).

(** *** Evaluation engine *)

(** The ranges the reported scores are declared to have (freshness from
    above only: its novelty component comes from the embedding service). *)
Definition scoresInRange (s : EvaluationScores) : Prop :=
  0 <= fragilityIndex s /\ fragilityIndex s <= 1
  /\ 0 <= coherenceCost s /\ coherenceCost s <= 1
  /\ freshnessGain s <= 1
  /\ -1 <= finalScore s /\ finalScore s <= 1.

(** The rolling window holds at most 12 lines, the recent deltas at most 10. *)
Definition windowsBounded (ev : EvaluationEngine.Evaluator) : Prop :=
  (length (EvaluationEngine.rollingWindow ev) <= 12)%nat
  /\ (length (EvaluationEngine.recentDeltas ev) <= 10)%nat.

(** [a] is sorted before [b]: a higher final score, or the same score and
    an earlier place among the candidates. *)
Definition outranks (a b : EvaluationEngine.Scored) : Prop :=
  finalScore (EvaluationEngine.sd_scores b) < finalScore (EvaluationEngine.sd_scores a)
  \/ (finalScore (EvaluationEngine.sd_scores b) == finalScore (EvaluationEngine.sd_scores a)
      /\ (EvaluationEngine.sd_position a < EvaluationEngine.sd_position b)%nat).

Fixpoint ranked (l : list EvaluationEngine.Scored) : Prop :=
  match l with
  | [] => True
  | a :: r => Forall (outranks a) r /\ ranked r
  end.

(** The snapshot that the scoring loop stores for a scored candidate. *)
Definition snapshotOf (act : Act) (sc : EvaluationEngine.Scored) : EvaluationSnapshot :=
  mkSnapshot act (EvaluationEngine.sd_nudge sc) (EvaluationEngine.sd_scores sc)
    (EvaluationEngine.sd_rationales sc) false.

(** The scores and rationales of a scored candidate are those computed for
    its nudge, with [fragility], against some evaluator that has the given
    rolling window and recent deltas. *)
Definition scoredWith (embeddingNovelty : Nudge -> list SpokenLine -> Q)
    (state : EvaluationState) (fragility : FragilityComponents)
    (window : list SpokenLine) (ds : list ChemistryDeltas)
    (sc : EvaluationEngine.Scored) : Prop :=
  exists ev' : EvaluationEngine.Evaluator,
    EvaluationEngine.sd_scores sc
    = EvaluationEngine.scoreNudgeCandidate embeddingNovelty
        (EvaluationEngine.sd_nudge sc) state fragility ev'
    /\ EvaluationEngine.sd_rationales sc
       = EvaluationEngine.generateRationales (EvaluationEngine.sd_nudge sc)
           (EvaluationEngine.sd_scores sc) state ev'
    /\ EvaluationEngine.rollingWindow ev' = window
    /\ EvaluationEngine.recentDeltas ev' = ds.

(** The rolling window after [consider] has been given [lastLine]. *)
Definition windowWith (lastLine : option SpokenLine) (ev : EvaluationEngine.Evaluator)
  : list SpokenLine :=
  match lastLine with
  | Some l => EvaluationEngine.addToRollingWindow l (EvaluationEngine.rollingWindow ev)
  | None => EvaluationEngine.rollingWindow ev
  end.

(** The fragility that [consider] computes: that of the evaluator once the
    last line is in its window. *)
Definition fragilityWith (lastLine : option SpokenLine) (ev : EvaluationEngine.Evaluator)
  : FragilityComponents :=
  EvaluationEngine.calculateFragilityIndex
    (EvaluationEngine.mkEvaluator (windowWith lastLine ev)
       (EvaluationEngine.recentDeltas ev) (EvaluationEngine.evaluationSnapshots ev)
       (EvaluationEngine.majorNudgeCount ev) (EvaluationEngine.lastMajorNudgeTime ev)
       (EvaluationEngine.exchangeCounter ev + 1)).

(** The exchanges the evaluator counts since the last major nudge it was
    told of, as [checkCadenceConstraints] computes them. *)
Definition sinceMajor (ev : EvaluationEngine.Evaluator) : Q :=
  EvaluationEngine.exchangeCounter ev - EvaluationEngine.lastMajorNudgeTime ev.

End MorePredicates.

Section EvaluatorCalls.

Variable embeddingNovelty : Nudge -> list SpokenLine -> Q.

(** The two hooks of the evaluation engine, as calls on an evaluator. *)
Inductive EvCall :=
| EvTelemetry (event : TelemetryEvent)
| EvConsider (state : EvaluationState) (lastLine : option SpokenLine).

Definition evCall (c : EvCall) (ev : EvaluationEngine.Evaluator)
  : EvaluationEngine.Evaluator :=
  match c with
  | EvTelemetry event => EvaluationEngine.onTelemetry event ev
  | EvConsider state lastLine =>
      snd (EvaluationEngine.consider embeddingNovelty state lastLine ev)
  end.

Definition evRun (cs : list EvCall) (ev : EvaluationEngine.Evaluator)
  : EvaluationEngine.Evaluator :=
  foldl (fun ev' c => evCall c ev') ev cs.

Definition isConsider (c : EvCall) : bool :=
  match c with EvConsider _ _ => true | _ => false end.

(** A [metric.tick] event that overwrites the evaluator's exchange counter. *)
Definition isCounterReset (c : EvCall) : bool :=
  match c with
  | EvTelemetry (MetricTick name _) => String.eqb name "exchange_counter"
  | _ => false
  end.

Definition considersIn (cs : list EvCall) : nat := length (List.filter isConsider cs).

End EvaluatorCalls.

(** ** The telemetry of one engine fed to the other *)

Section Wiring.

(** The evaluator after it has received the events, in order. *)
Definition feed (events : list TelemetryEvent) (ev : EvaluationEngine.Evaluator)
  : EvaluationEngine.Evaluator :=
  foldl (fun ev' event => EvaluationEngine.onTelemetry event ev') ev events.

Definition isTurnEnd (event : TelemetryEvent) : bool :=
  match event with TurnEnd _ => true | _ => false end.

(** No [turn.end] event waits in the engine's buffer. *)
Definition bufferQuiet (e : Engine) : Prop :=
  Forall (fun event => isTurnEnd event = false) (telemetryBuffer e).

End Wiring.

(** ** Further sample inputs *)

Section MoreSamples.

Open Scope Q_scope.

(** The episode of emma and jake, just started. *)
Definition started : Engine := snd (startEpisode emmaJake newEngine).

Definition comfortMinor : Nudge := mkNudge comfort minor observer None None.

(** The first candidate the evaluation engine generates outside act 3. *)
Definition comfortAuto : Nudge := mkNudge comfort minor auto None None.

(** The episode after six exchanges, in act 3. *)
Definition sixExchangesIn : Engine := run (take 6 cadenceCalls) started.


(** A line that uses the callback of the second forced state. *)
Definition recallLine : FinalLine :=
  mkFinalLine "jake" "remember that shared moment" ["shared moment"%string]
    (mkDeltas 0 0 0 0).

Definition stillLine (t : string) : SpokenLine := mkLine "emma" t 1 (mkDeltas 0 0 0 0).


Definition calmAct3 : EvaluationState :=
  mkEvalState [] Act3 0 ("emma", "jake")%string [] [].

(** A new evaluator that has been told of a major nudge. *)
Definition justAfterMajor : EvaluationEngine.Evaluator :=
  EvaluationEngine.onTelemetry (NudgeApplied raiseStakesMajor) EvaluationEngine.newEvaluator.

Definition oneTurn : list EvCall :=
  [EvTelemetry (TurnEnd (stillLine "well"))].

Definition calmFragility : FragilityComponents := mkFragility 0 0 0 0.

Definition highFragility : FragilityComponents := mkFragility 1 1 0.5 0.9.

(** A state with a recall carrying a token and a comfort nudge pending. *)
Definition twoPending : StoryState :=
  mkState [Act1] [] (mkScene Act1 0 None 0 2) (<["emma-jake"%string := basePair]> ∅)
    "ember" "coffee shop" (Some "emma", Some "jake")%string [] [] []
    [mkNudge recall minor observer None (Some "shared moment"%string); comfortMinor]
    None 0 0.

End MoreSamples.

(** ** Numbers *)

Section Numbers.

Open Scope Q_scope.

Lemma Qltb_lt (x y : Q) : Qltb x y = true <-> x < y.
Proof.
  unfold Qltb. rewrite negb_true_iff. split.
  - intros H. apply Qnot_le_lt. intros Hle. apply Qle_bool_iff in Hle. congruence.
  - intros H. destruct (Qle_bool y x) eqn:E; [|reflexivity].
    apply Qle_bool_iff in E. lra.
Qed.

Lemma Qltb_ge (x y : Q) : Qltb x y = false <-> y <= x.
Proof.
  unfold Qltb. rewrite negb_false_iff. apply Qle_bool_iff.
Qed.

Lemma Qgtb_gt (x y : Q) : Qgtb x y = true <-> y < x.
Proof. apply Qltb_lt. Qed.

Lemma Qgtb_le (x y : Q) : Qgtb x y = false <-> x <= y.
Proof. apply Qltb_ge. Qed.

Lemma Qgeb_ge (x y : Q) : Qgeb x y = true <-> y <= x.
Proof. apply Qle_bool_iff. Qed.

Lemma clamp_bounds (lo hi x : Q) : lo <= hi -> lo <= clamp lo hi x /\ clamp lo hi x <= hi.
Proof.
  intros H. unfold clamp. split.
  - apply Q.le_max_l.
  - apply Q.max_lub; [exact H | apply Q.le_min_l].
Qed.

Lemma clamp_inside (lo hi x : Q) : lo <= x -> x <= hi -> clamp lo hi x == x.
Proof.
  intros H1 H2. unfold clamp.
  rewrite (Q.min_r hi x) by exact H2. apply Q.max_r. exact H1.
Qed.

Lemma clamp_above (lo hi x : Q) : lo <= hi -> hi <= x -> clamp lo hi x == hi.
Proof.
  intros H1 H2. unfold clamp.
  rewrite (Q.min_l hi x) by exact H2. apply Q.max_r. exact H1.
Qed.

Lemma clamp_below (lo hi x : Q) : lo <= hi -> x <= lo -> clamp lo hi x == lo.
Proof.
  intros H1 H2. unfold clamp. apply Q.max_l.
  destruct (Q.min_spec hi x) as [[L E]|[L E]]; rewrite E; lra.
Qed.

Lemma clamp_monotone (lo hi x y : Q) : x <= y -> clamp lo hi x <= clamp lo hi y.
Proof.
  intros H. unfold clamp.
  apply Q.max_le_compat_l. apply Q.min_le_compat_l. exact H.
Qed.

End Numbers.

(** ** The relationship graph stays in the unit interval *)

Section LoveGraphBounds.

Open Scope Q_scope.

Lemma clamp_inUnit (x : Q) : inUnit (clamp 0 1 x).
Proof. apply clamp_bounds. lra. Qed.

Lemma clampPair_in_range (p : LoveGraphPair) : pairInRange (clampPair p).
Proof. repeat split; apply clamp_inUnit. Qed.

Lemma ripplePair_in_range (d : ChemistryDeltas) (p : LoveGraphPair) :
  pairInRange (ripplePair d p).
Proof. unfold ripplePair. apply clampPair_in_range. Qed.

Lemma basePair_in_range : pairInRange basePair.
Proof. unfold pairInRange, inUnit, basePair; simpl. lra. Qed.

Lemma applyRippleEffects_lookup (d : ChemistryDeltas) (key k : string) (g : LoveGraph) :
  applyRippleEffects d key g !! k =
  (fun pair => if bool_decide (k = key) then pair else ripplePair d pair) <$> g !! k.
Proof.
  unfold applyRippleEffects. rewrite map_lookup_imap.
  destruct (g !! k); reflexivity.
Qed.

(** A ripple puts every other pair in range, whatever it held before. *)
Lemma applyRippleEffects_others (d : ChemistryDeltas) (key k : string)
    (g : LoveGraph) (pair : LoveGraphPair) :
  k <> key -> applyRippleEffects d key g !! k = Some pair -> pairInRange pair.
Proof.
  intros Hne. rewrite applyRippleEffects_lookup.
  destruct (g !! k) as [p|]; simpl; [|discriminate].
  rewrite bool_decide_eq_false_2 by exact Hne.
  intros [= <-]. apply ripplePair_in_range.
Qed.

(** One update of the graph: every record is either in range or the record
    that was there before (the lookup of the spotlight key failed). *)
Lemma updateLoveGraph_each (line : SpokenLine) (st : StoryState)
    (k : string) (pair : LoveGraphPair) :
  loveGraph (updateLoveGraph line st) !! k = Some pair ->
  pairInRange pair \/ (loveGraph st !! k = Some pair /\ loveGraph st !! spotlightKey st = None).
Proof.
  unfold updateLoveGraph. simpl.
  fold (spotlightKey st).
  destruct (loveGraph st !! spotlightKey st) as [cur|] eqn:E; simpl.
  - rewrite applyRippleEffects_lookup. intros H. left.
    destruct (decide (k = spotlightKey st)) as [->|Hne].
    + rewrite lookup_insert_eq in H. simpl in H.
      rewrite bool_decide_eq_true_2 in H by reflexivity.
      injection H as <-. apply clampPair_in_range.
    + rewrite lookup_insert_ne in H by congruence.
      destruct (loveGraph st !! k); simpl in H; [|discriminate].
      rewrite bool_decide_eq_false_2 in H by exact Hne.
      injection H as <-. apply ripplePair_in_range.
  - intros H. right. split; [exact H | reflexivity].
Qed.

Lemma updateLoveGraph_in_range (line : SpokenLine) (st : StoryState) :
  graphInRange (loveGraph st) -> graphInRange (loveGraph (updateLoveGraph line st)).
Proof.
  intros Hg k pair H.
  destruct (updateLoveGraph_each line st k pair H) as [Hp|[Hold _]]; [exact Hp|].
  exact (Hg k pair Hold).
Qed.

Lemma initLoveGraph_in_range (cs : list string) (g : LoveGraph) :
  graphInRange g -> graphInRange (initLoveGraph cs g).
Proof.
  revert g. induction cs as [|c rest IH]; intros g Hg; simpl; [exact Hg|].
  apply IH. clear IH. revert g Hg.
  induction rest as [|d rest' IH']; intros g Hg; simpl; [exact Hg|].
  apply IH'. apply map_Forall_insert_2; [apply basePair_in_range | exact Hg].
Qed.

End LoveGraphBounds.

Section LoveGraphReachable.

Lemma checkActAdvancement_loveGraph (st : StoryState) :
  loveGraph (snd (checkActAdvancement st)) = loveGraph st.
Proof.
  unfold checkActAdvancement.
  destruct (getCurrentAct st); [|reflexivity].
  destruct (List.find _ checkpoints); [|reflexivity].
  destruct (loveGraph (sortedState st) !! _); reflexivity.
Qed.

Lemma checkPlateau_loveGraph (st : StoryState) :
  loveGraph (fst (checkPlateau st)) = loveGraph st.
Proof.
  unfold checkPlateau.
  destruct (length _ <? 3)%nat; [reflexivity|].
  destruct (_ || _); reflexivity.
Qed.

(** The graph after one iteration of the loop of [tick] is the graph
    [updateLoveGraph] leaves: nothing else in the iteration writes to it. *)
Lemma processFinalLine_loveGraph (ls : LoopState) (fl : FinalLine) :
  loveGraph (ls_state (processFinalLine ls fl)) =
  loveGraph (updateLoveGraph (fst (processLine fl (ls_state ls)))
                             (snd (processLine fl (ls_state ls)))).
Proof.
  unfold processFinalLine.
  destruct (processLine fl (ls_state ls)) as [spoken st1]; simpl fst; simpl snd.
  pose proof (checkActAdvancement_loveGraph (updateLoveGraph spoken st1)) as Hc.
  destruct (checkActAdvancement (updateLoveGraph spoken st1)) as [cp st3].
  simpl in Hc.
  destruct cp as [c|].
  - destruct (advanceAct c st3) as [t st'] eqn:Ea.
    assert (loveGraph st' = loveGraph st3) as Ha.
    { unfold advanceAct in Ea. injection Ea as _ <-. reflexivity. }
    pose proof (checkPlateau_loveGraph st') as Hp.
    destruct (checkPlateau st') as [st5 evs]. simpl in Hp. simpl. congruence.
  - pose proof (checkPlateau_loveGraph st3) as Hp.
    destruct (checkPlateau st3) as [st5 evs]. simpl in Hp. simpl. congruence.
Qed.

Lemma processFinalLine_in_range (ls : LoopState) (fl : FinalLine) :
  graphInRange (loveGraph (ls_state ls)) ->
  graphInRange (loveGraph (ls_state (processFinalLine ls fl))).
Proof.
  intros H. rewrite processFinalLine_loveGraph.
  apply updateLoveGraph_in_range. exact H.
Qed.

Lemma processLines_in_range (fls : list FinalLine) (ls : LoopState) :
  graphInRange (loveGraph (ls_state ls)) ->
  graphInRange (loveGraph (ls_state (foldl processFinalLine ls fls))).
Proof.
  revert ls. induction fls as [|fl rest IH]; intros ls H; simpl; [exact H|].
  apply IH. apply processFinalLine_in_range. exact H.
Qed.

Lemma startEpisode_in_range (seed : EpisodeSeed) (e : Engine) :
  engineGraphInRange (snd (startEpisode seed e)).
Proof.
  unfold engineGraphInRange, startEpisode. simpl.
  apply initLoveGraph_in_range. apply map_Forall_empty.
Qed.

Lemma applyNudge_in_range (n : Nudge) (v : option bool) (e : Engine) :
  engineGraphInRange e -> engineGraphInRange (snd (applyNudge n v e)).
Proof.
  unfold engineGraphInRange, applyNudge. intros H.
  destruct (currentState e) as [st|] eqn:E; [|simpl; rewrite E; exact I].
  destruct (getCurrentAct st); [|simpl; rewrite E; exact H].
  destruct (includesNudge _ _); [simpl; rewrite E; exact H|].
  destruct (negb _); [simpl; rewrite E; exact H|].
  destruct (_ && _); [simpl; rewrite E; exact H|].
  destruct v as [[|]|]; try (simpl; rewrite E; exact H).
  simpl. unfold scheduleNudge. destruct (n_intensity n); exact H.
Qed.

Lemma tick_in_range (beat : option (list FinalLine)) (e : Engine) :
  engineGraphInRange e -> engineGraphInRange (snd (tick beat e)).
Proof.
  unfold engineGraphInRange, tick. intros H.
  destruct (currentState e) as [st|] eqn:E; [|simpl; rewrite E; exact I].
  destruct (getCurrentAct (sortedState st)); [|exact H].
  destruct beat as [fls|]; [|exact H].
  simpl. apply (processLines_in_range fls (mkLoop (sortedState st) [] [] [])).
  exact H.
Qed.

Lemma call_in_range (c : Call) (e : Engine) :
  engineGraphInRange e -> engineGraphInRange (snd (call c e)).
Proof.
  intros H. destruct c as [seed|n v|beat|]; unfold call.
  - pose proof (startEpisode_in_range seed e) as Hs.
    destruct (startEpisode seed e); exact Hs.
  - pose proof (applyNudge_in_range n v e H) as Hs.
    destruct (applyNudge n v e); exact Hs.
  - pose proof (tick_in_range beat e H) as Hs.
    destruct (tick beat e); exact Hs.
  - unfold engineGraphInRange, afterGetState in *. simpl.
    destruct (currentState e) as [st|] eqn:E; simpl; [exact H | rewrite E; exact I].
Qed.

Lemma run_in_range (cs : list Call) (e : Engine) :
  engineGraphInRange e -> engineGraphInRange (run cs e).
Proof.
  revert e. induction cs as [|c rest IH]; intros e H; [exact H|].
  unfold run. simpl. apply IH. apply call_in_range. exact H.
Qed.

(** C1.  Whatever calls an engine receives (episodes started, nudges applied,
    exchanges ticked with whatever lines and deltas the dialogue collaborator
    produces, states read), every pair record of the relationship graph has
    its four dimensions attraction, trust, tension and comfort within [0,1];
    and so has every record of the graph right after the direct update of a
    further line with its ripples, and right after the ripples of a further
    line alone. *)
Theorem love_graph_dimensions_within_unit_interval
    (calls : list Call) (st : StoryState) (line : SpokenLine)
    (pairKey : string) (pair : LoveGraphPair) :
  currentState (run calls newEngine) = Some st ->
  loveGraph st !! pairKey = Some pair
  \/ loveGraph (updateLoveGraph line st) !! pairKey = Some pair
  \/ applyRippleEffects (deltas line) (spotlightKey st) (loveGraph st) !! pairKey
     = Some pair ->
  (0 <= attraction pair <= 1 /\ 0 <= trust pair <= 1
   /\ 0 <= tension pair <= 1 /\ 0 <= comfort_ pair <= 1)%Q.
Proof.
  intros Hst Hp.
  pose proof (run_in_range calls newEngine I) as H.
  unfold engineGraphInRange in H. rewrite Hst in H.
  destruct Hp as [Hp|[Hp|Hp]].
  - exact (H pairKey pair Hp).
  - exact (updateLoveGraph_in_range line st H pairKey pair Hp).
  - rewrite applyRippleEffects_lookup in Hp.
    destruct (loveGraph st !! pairKey) as [p|] eqn:E; simpl in Hp; [|discriminate].
    injection Hp as <-.
    destruct (bool_decide _); [exact (H pairKey p E) | apply ripplePair_in_range].
Qed.

End LoveGraphReachable.

(** ** The act path *)

Section ActPath.

Lemma processLine_actPath (fl : FinalLine) (st : StoryState) :
  actPath (snd (processLine fl st)) = actPath st.
Proof. reflexivity. Qed.

Lemma updateLoveGraph_actPath (line : SpokenLine) (st : StoryState) :
  actPath (updateLoveGraph line st) = actPath st.
Proof.
  unfold updateLoveGraph.
  destruct (loveGraph (sortedState st) !! _); reflexivity.
Qed.

Lemma checkActAdvancement_actPath (st : StoryState) :
  actPath (snd (checkActAdvancement st)) = actPath st.
Proof.
  unfold checkActAdvancement.
  destruct (getCurrentAct st); [|reflexivity].
  destruct (List.find _ checkpoints); [|reflexivity].
  destruct (loveGraph (sortedState st) !! _); reflexivity.
Qed.

Lemma checkPlateau_actPath (st : StoryState) :
  actPath (fst (checkPlateau st)) = actPath st.
Proof.
  unfold checkPlateau.
  destruct (length _ <? 3)%nat; [reflexivity|].
  destruct (_ || _); reflexivity.
Qed.

(** The checkpoint [checkActAdvancement] returns is the one of the table
    that leaves from the current act. *)
Lemma checkActAdvancement_checkpoint (st : StoryState) (cp : Checkpoint) :
  fst (checkActAdvancement st) = Some cp ->
  getCurrentAct st = Some (fromAct cp) /\ In cp checkpoints.
Proof.
  unfold checkActAdvancement.
  destruct (getCurrentAct st) as [a|]; [|discriminate].
  destruct (List.find _ checkpoints) as [c|] eqn:Ef; [|discriminate].
  apply find_some in Ef. destruct Ef as [Hin Hfrom].
  apply bool_decide_eq_true in Hfrom.
  destruct (loveGraph (sortedState st) !! _); [|discriminate].
  simpl. destruct (checkpointHolds _ _ _); [|discriminate].
  intros [= <-]. split; [congruence | exact Hin].
Qed.

(** Every checkpoint of the table leads to the next act. *)
Lemma checkpoints_forward (cp : Checkpoint) :
  In cp checkpoints -> act_num (toAct cp) = (act_num (fromAct cp) + 1)%Z.
Proof.
  unfold checkpoints. simpl.
  intros [<-|[<-|[<-|[<-|[]]]]]; reflexivity.
Qed.

(** What one iteration of the loop does to the act path and to the list of
    transitions: nothing, or one step along a checkpoint that leaves from
    the current act. *)
Lemma processFinalLine_step (ls : LoopState) (fl : FinalLine) :
  (actPath (ls_state (processFinalLine ls fl)) = actPath (ls_state ls)
   /\ ls_transitions (processFinalLine ls fl) = ls_transitions ls)
  \/ (exists cp : Checkpoint,
        In cp checkpoints
        /\ last (actPath (ls_state ls)) = Some (fromAct cp)
        /\ actPath (ls_state (processFinalLine ls fl)) = actPath (ls_state ls) ++ [toAct cp]
        /\ exists (fromScene toScene : Z),
             ls_transitions (processFinalLine ls fl) =
             ls_transitions ls
             ++ [mkTransition (fromAct cp) fromScene (toAct cp) toScene checkpoint]).
Proof.
  unfold processFinalLine.
  destruct (processLine fl (ls_state ls)) as [spoken st1] eqn:Ep.
  assert (actPath st1 = actPath (ls_state ls)) as H1.
  { rewrite <- (processLine_actPath fl (ls_state ls)), Ep. reflexivity. }
  pose proof (updateLoveGraph_actPath spoken st1) as H2.
  pose proof (checkActAdvancement_actPath (updateLoveGraph spoken st1)) as H3.
  pose proof (checkActAdvancement_checkpoint (updateLoveGraph spoken st1)) as H4.
  destruct (checkActAdvancement (updateLoveGraph spoken st1)) as [cp st3].
  simpl in H3, H4.
  destruct cp as [c|].
  - right. exists c. destruct (H4 c eq_refl) as [Hact Hin].
    destruct (advanceAct c st3) as [t st'] eqn:Ea.
    unfold advanceAct in Ea. injection Ea as <- <-.
    pose proof (checkPlateau_actPath
      (mkState (actPath st3 ++ [toAct c])
         (pastScenes st3 ++ [mkScene (sc_act (currentScene st3))
            (sc_index (currentScene st3)) (Some checkpoint)
            (majorNudges (currentScene st3)) (minorNudges (currentScene st3))])
         (mkScene (toAct c) (sc_index (currentScene st3) + 1) None 0 0)
         (loveGraph st3) (activeVibe st3) (setting st3) (spotlight st3)
         (recentLines st3) (openLoops st3) (callbacks st3) (pendingNudges st3)
         (recoveryBias st3) 0 (lastMajorNudgeExchange st3))) as H5.
    destruct (checkPlateau _) as [st5 evs]. simpl in H5. simpl.
    split; [exact Hin|]. split.
    + unfold getCurrentAct in Hact. congruence.
    + split; [congruence|]. eexists _, _. reflexivity.
  - left. pose proof (checkPlateau_actPath st3) as H5.
    destruct (checkPlateau st3) as [st5 evs]. simpl in H5. simpl.
    split; [congruence | apply app_nil_r].
Qed.

Lemma sequentialPath_step (path : list Act) (cp : Checkpoint) :
  sequentialPath path -> In cp checkpoints -> last path = Some (fromAct cp) ->
  sequentialPath (path ++ [toAct cp]).
Proof.
  intros [k [Hk ->]] Hin Hlast.
  unfold checkpoints in Hin. simpl in Hin.
  assert (k = 1 \/ k = 2 \/ k = 3 \/ k = 4 \/ k = 5)%nat as Hcases by lia.
  destruct Hcases as [->|[->|[->|[->| ->]]]];
    destruct Hin as [<-|[<-|[<-|[<-|[]]]]]; simpl in Hlast; try discriminate.
  - exists 2%nat. split; [lia | reflexivity].
  - exists 3%nat. split; [lia | reflexivity].
  - exists 4%nat. split; [lia | reflexivity].
  - exists 5%nat. split; [lia | reflexivity].
Qed.

Lemma processFinalLine_sequential (ls : LoopState) (fl : FinalLine) :
  sequentialPath (actPath (ls_state ls)) ->
  sequentialPath (actPath (ls_state (processFinalLine ls fl))).
Proof.
  intros H.
  destruct (processFinalLine_step ls fl) as [[-> _]|[cp [Hin [Hlast [-> _]]]]];
    [exact H | exact (sequentialPath_step _ cp H Hin Hlast)].
Qed.

Lemma processLines_sequential (fls : list FinalLine) (ls : LoopState) :
  sequentialPath (actPath (ls_state ls)) ->
  sequentialPath (actPath (ls_state (foldl processFinalLine ls fls))).
Proof.
  revert ls. induction fls as [|fl rest IH]; intros ls H; simpl; [exact H|].
  apply IH. apply processFinalLine_sequential. exact H.
Qed.

Lemma applyNudge_actPath (n : Nudge) (v : option bool) (e : Engine) (st' : StoryState) :
  currentState (snd (applyNudge n v e)) = Some st' ->
  exists st, currentState e = Some st /\ actPath st' = actPath st.
Proof.
  unfold applyNudge.
  destruct (currentState e) as [st|] eqn:E; [|simpl; congruence].
  intros H. exists st. split; [reflexivity|].
  destruct (getCurrentAct st); [|simpl in H; congruence].
  destruct (includesNudge _ _); [simpl in H; congruence|].
  destruct (negb _); [simpl in H; congruence|].
  destruct (_ && _); [simpl in H; congruence|].
  destruct v as [[|]|]; try (simpl in H; congruence).
  simpl in H. injection H as <-.
  unfold scheduleNudge. destruct (n_intensity n); reflexivity.
Qed.

Lemma call_sequential (c : Call) (e : Engine) :
  engineSequential e -> engineSequential (snd (call c e)).
Proof.
  intros H. destruct c as [seed|n v|beat|]; unfold call.
  4: { unfold engineSequential, afterGetState in *. simpl.
       destruct (currentState e) as [st|] eqn:E; simpl; [exact H | rewrite E; exact I]. }
  - unfold startEpisode. simpl. exists 1%nat. split; [lia | reflexivity].
  - destruct (applyNudge n v e) as [r e'] eqn:Ea. simpl.
    unfold engineSequential in *.
    destruct (currentState e') as [st'|] eqn:E'; [|exact I].
    destruct (applyNudge_actPath n v e st') as [st [Hst Hpath]].
    { rewrite Ea. exact E'. }
    rewrite Hst in H. rewrite Hpath. exact H.
  - unfold engineSequential in *. unfold tick.
    destruct (currentState e) as [st|] eqn:E; [|simpl; rewrite E; exact I].
    destruct (getCurrentAct (sortedState st)); [|exact H].
    destruct beat as [fls|]; [|exact H].
    simpl. apply (processLines_sequential fls (mkLoop (sortedState st) [] [] [])).
    exact H.
Qed.

Lemma run_sequential (cs : list Call) (e : Engine) :
  engineSequential e -> engineSequential (run cs e).
Proof.
  revert e. induction cs as [|c rest IH]; intros e H; [exact H|].
  unfold run. simpl. apply IH. apply call_sequential. exact H.
Qed.

Lemma sequentialPath_shape (path : list Act) :
  sequentialPath path ->
  head path = Some Act1 /\ stepsByOne path /\ nonDecreasing path.
Proof.
  intros [k [Hk ->]].
  assert (k = 1 \/ k = 2 \/ k = 3 \/ k = 4 \/ k = 5)%nat as Hcases by lia.
  split; [|split].
  - destruct Hcases as [->|[->|[->|[->| ->]]]]; reflexivity.
  - intros i a b Ha Hb.
    destruct Hcases as [->|[->|[->|[->| ->]]]]; simpl in Ha, Hb;
      repeat (destruct i as [|i]; simpl in Ha, Hb; try discriminate);
      injection Ha as <-; injection Hb as <-; reflexivity.
  - intros i j a b Hij Ha Hb.
    destruct Hcases as [->|[->|[->|[->| ->]]]]; simpl in Ha, Hb;
      repeat (destruct i as [|i]; simpl in Ha; try discriminate);
      repeat (destruct j as [|j]; simpl in Hb; try discriminate; try lia);
      injection Ha as <-; injection Hb as <-; simpl; lia.
Qed.

(** C5.  In every state an engine can reach, the act path starts at act 1,
    each entry is exactly one act after the entry before it (no act is
    skipped, none is gone back to), and so the path is non-decreasing: it is
    one of [1], [1,2], [1,2,3], [1,2,3,4], [1,2,3,4,5]. *)
Theorem act_path_moves_forward_one_act_at_a_time
    (calls : list Call) (st : StoryState) :
  currentState (run calls newEngine) = Some st ->
  sequentialPath (actPath st)
  /\ head (actPath st) = Some Act1
  /\ stepsByOne (actPath st)
  /\ nonDecreasing (actPath st).
Proof.
  intros Hst.
  pose proof (run_sequential calls newEngine I) as H.
  unfold engineSequential in H. rewrite Hst in H.
  split; [exact H | apply sequentialPath_shape; exact H].
Qed.

End ActPath.

(** ** Transitions within one tick *)

Section TickTransitions.

Lemma processFinalLine_produced (ls : LoopState) (fl : FinalLine) :
  length (ls_produced (processFinalLine ls fl)) = S (length (ls_produced ls)).
Proof.
  unfold processFinalLine.
  destruct (processLine fl (ls_state ls)) as [spoken st1].
  destruct (checkActAdvancement _) as [cp st3].
  destruct cp as [c|].
  - destruct (advanceAct c st3) as [t st']. destruct (checkPlateau st') as [st5 evs].
    simpl. rewrite length_app. simpl. lia.
  - destruct (checkPlateau st3) as [st5 evs].
    simpl. rewrite length_app. simpl. lia.
Qed.

Lemma processFinalLine_accounted (base : list Act) (ls : LoopState) (fl : FinalLine) :
  loopAccounted base ls -> loopAccounted base (processFinalLine ls fl).
Proof.
  intros [Hpath [Hlen Hfwd]]. unfold loopAccounted.
  rewrite processFinalLine_produced.
  destruct (processFinalLine_step ls fl)
    as [[-> ->]|[cp [Hin [_ [-> [fromScene [toScene ->]]]]]]].
  - split; [exact Hpath|]. split; [lia | exact Hfwd].
  - split; [|split].
    + rewrite map_app. simpl. rewrite Hpath. rewrite <- app_assoc. reflexivity.
    + rewrite length_app. simpl. lia.
    + apply Forall_app. split; [exact Hfwd|].
      constructor; [|constructor].
      unfold forwardByOne. simpl. apply checkpoints_forward. exact Hin.
Qed.

Lemma processLines_accounted (base : list Act) (fls : list FinalLine) (ls : LoopState) :
  loopAccounted base ls -> loopAccounted base (foldl processFinalLine ls fls).
Proof.
  revert ls. induction fls as [|fl rest IH]; intros ls H; simpl; [exact H|].
  apply IH. apply processFinalLine_accounted. exact H.
Qed.

(** C9, as the code has it.  A tick that completes takes every checkpoint
    that is satisfied after one of its lines: its transitions are at most as
    many as the lines it produced, each goes from an act to the next one,
    and they are exactly the acts the tick appended to the act path. *)
Theorem tick_takes_at_most_one_transition_per_line
    (beat : option (list FinalLine)) (e : Engine) (st : StoryState)
    (r : TickResult) (e' : Engine) :
  currentState e = Some st ->
  tick beat e = (Ok r, e') ->
  (length (transitions r) <= length (producedLines r))%nat
  /\ Forall forwardByOne (transitions r)
  /\ exists st', currentState e' = Some st'
       /\ actPath st' = actPath st ++ map tr_toAct (transitions r).
Proof.
  intros Hst Ht. unfold tick in Ht. rewrite Hst in Ht.
  destruct (getCurrentAct (sortedState st)); [|discriminate].
  destruct beat as [fls|]; [|discriminate].
  injection Ht as <- <-. simpl.
  destruct (processLines_accounted (actPath st) fls (mkLoop (sortedState st) [] [] []))
    as [Hpath [Hlen Hfwd]].
  { unfold loopAccounted. simpl. split; [symmetry; apply app_nil_r|].
    split; [lia | constructor]. }
  split; [exact Hlen|]. split; [exact Hfwd|].
  eexists. split; [reflexivity|]. simpl. exact Hpath.
Qed.

(** C9, as the specification states it, fails: after an exchange that
    raised attraction to 0.4 and tension to 0.5 while the episode stayed in
    act 1, one tick of two lines crosses act 2 and arrives in act 3. *)
Lemma a_tick_can_take_two_transitions : ~ atMostOneTransitionPerTick.
Proof.
  intros H.
  assert (exists r e',
            tick (Some sparkThenStill) (run [CallStart emmaJake; warmUp] newEngine)
            = (Ok r, e')
            /\ length (transitions r) = 2%nat) as (r & e' & Ht & Hlen).
  { eexists _, _. split; vm_compute; reflexivity. }
  specialize (H _ _ _ _ Ht). lia.
Qed.

End TickTransitions.

(** ** The act 1 to act 2 checkpoint *)

Section MutualSpark.

Open Scope Q_scope.

Lemma sharedMoment_bool (st : StoryState) :
  (0 <? length (callbacks st))%nat
  || someLine (fun l => Qgtb (d_trust (deltas l)) 0.05) st = true
  <-> sharedMoment st.
Proof.
  unfold sharedMoment, someLine. rewrite orb_true_iff. split.
  - intros [H|H].
    + left. destruct (callbacks st); [discriminate H | discriminate].
    + right. apply existsb_exists in H. destruct H as [l [Hin Hl]].
      apply Exists_exists. exists l. split.
      * apply list_elem_of_In. exact Hin.
      * apply Qgtb_gt. exact Hl.
  - intros [H|H].
    + left. destruct (callbacks st); [congruence | reflexivity].
    + right. apply Exists_exists in H. destruct H as [l [Hin Hl]].
      apply existsb_exists. exists l. split.
      * apply list_elem_of_In. exact Hin.
      * apply Qgtb_gt. exact Hl.
Qed.

(** In act 1 the detector answers by the two conditions and nothing else. *)
Lemma checkActAdvancement_act1 (st : StoryState) :
  getCurrentAct st = Some Act1 ->
  fst (checkActAdvancement st) =
  match loveGraph st !! spotlightKey st with
  | Some loveData =>
      if Qgeb (attraction loveData) 0.4
         && ((0 <? length (callbacks st))%nat
             || someLine (fun l => Qgtb (d_trust (deltas l)) 0.05) st)
      then Some sparkCheckpoint else None
  | None => None
  end.
Proof.
  intros Hact. unfold checkActAdvancement. rewrite Hact. simpl.
  fold (spotlightKey st).
  destruct (loveGraph st !! spotlightKey st); reflexivity.
Qed.

Lemma checkActAdvancement_act1_only (st : StoryState) (cp : Checkpoint) :
  getCurrentAct st = Some Act1 ->
  fst (checkActAdvancement st) = Some cp ->
  cp = sparkCheckpoint /\ reciprocalAttraction st /\ sharedMoment st.
Proof.
  intros Hact H. rewrite (checkActAdvancement_act1 st Hact) in H.
  destruct (loveGraph st !! spotlightKey st) as [loveData|] eqn:E; [|discriminate].
  destruct (Qgeb (attraction loveData) 0.4) eqn:Ea; simpl in H; [|discriminate].
  destruct (_ || _) eqn:Es; [|discriminate].
  injection H as <-. split; [reflexivity|]. split.
  - exists loveData. split; [exact E | apply Qgeb_ge; exact Ea].
  - apply sharedMoment_bool. exact Es.
Qed.

Lemma checkActAdvancement_act1_none (st : StoryState) :
  getCurrentAct st = Some Act1 ->
  ~ (reciprocalAttraction st /\ sharedMoment st) ->
  fst (checkActAdvancement st) = None.
Proof.
  intros Hact Hnot.
  destruct (fst (checkActAdvancement st)) as [cp|] eqn:E; [|reflexivity].
  destruct (checkActAdvancement_act1_only st cp Hact E) as [_ [H1 H2]].
  exfalso. apply Hnot. split; assumption.
Qed.

(** C6.  In act 1 the checkpoint detector returns a checkpoint exactly when
    the spotlighted pair's attraction is at least 0.4 and, besides, a
    callback is open or a recent line carried a trust delta above 0.05; the
    checkpoint is then the one to act 2.  With only one of the two
    conditions it returns none, and the act stays 1. *)
Theorem mutual_spark_fires_only_on_both_conditions (st : StoryState) :
  getCurrentAct st = Some Act1 ->
  (forall cp : Checkpoint,
      fst (checkActAdvancement st) = Some cp ->
      cp = sparkCheckpoint /\ reciprocalAttraction st /\ sharedMoment st)
  /\ (reciprocalAttraction st -> sharedMoment st ->
      fst (checkActAdvancement st) = Some sparkCheckpoint)
  /\ (~ (reciprocalAttraction st /\ sharedMoment st) ->
      fst (checkActAdvancement st) = None
      /\ getCurrentAct (snd (checkActAdvancement st)) = Some Act1).
Proof.
  intros Hact.
  split; [intros cp; apply checkActAdvancement_act1_only; exact Hact|]. split.
  - intros [loveData [E Ha]] Hs. rewrite (checkActAdvancement_act1 st Hact), E.
    apply Qgeb_ge in Ha. rewrite Ha.
    apply sharedMoment_bool in Hs. rewrite Hs. reflexivity.
  - intros Hnot. split.
    + apply checkActAdvancement_act1_none; assumption.
    + unfold getCurrentAct in *. rewrite checkActAdvancement_actPath. exact Hact.
Qed.

(** One line of a tick in act 1 leaves the act path as it is unless both
    conditions hold once the line is recorded and the graph updated. *)
Lemma line_without_spark_stays_in_act1 (ls : LoopState) (fl : FinalLine) :
  getCurrentAct (ls_state ls) = Some Act1 ->
  ~ (reciprocalAttraction
       (updateLoveGraph (fst (processLine fl (ls_state ls)))
                        (snd (processLine fl (ls_state ls))))
     /\ sharedMoment
          (updateLoveGraph (fst (processLine fl (ls_state ls)))
                           (snd (processLine fl (ls_state ls))))) ->
  actPath (ls_state (processFinalLine ls fl)) = actPath (ls_state ls)
  /\ ls_transitions (processFinalLine ls fl) = ls_transitions ls.
Proof.
  intros Hact Hnot.
  assert (getCurrentAct (updateLoveGraph (fst (processLine fl (ls_state ls)))
                           (snd (processLine fl (ls_state ls)))) = Some Act1) as Hact2.
  { unfold getCurrentAct in *. rewrite updateLoveGraph_actPath. exact Hact. }
  pose proof (checkActAdvancement_act1_none _ Hact2 Hnot) as Hnone.
  pose proof (processLine_actPath fl (ls_state ls)) as H1.
  unfold processFinalLine.
  destruct (processLine fl (ls_state ls)) as [spoken st1]. simpl in *.
  pose proof (checkActAdvancement_actPath (updateLoveGraph spoken st1)) as Hp.
  destruct (checkActAdvancement (updateLoveGraph spoken st1)) as [cp st3].
  simpl in Hnone, Hp. subst cp.
  pose proof (checkPlateau_actPath st3) as Hq.
  destruct (checkPlateau st3) as [st5 evs]. simpl in *.
  split; [|apply app_nil_r].
  rewrite Hq, Hp, updateLoveGraph_actPath. exact H1.
Qed.

End MutualSpark.

(** ** Act gates and cadence *)

Section Cadence.

Lemma includesNudge_In (xs : list NudgeType) (t : NudgeType) :
  includesNudge xs t = true <-> In t xs.
Proof.
  unfold includesNudge. rewrite existsb_exists. split.
  - intros [x [Hin Hx]]. apply bool_decide_eq_true in Hx. congruence.
  - intros Hin. exists t. split; [exact Hin | apply bool_decide_eq_true; reflexivity].
Qed.

(** C4.  A nudge whose type is in the blocked list of the current act's gate
    is refused: [applyNudge] returns false and leaves the engine as it was,
    whatever the exchange counter, the exchange of the last major nudge, the
    recovery bias and the answer of the safety collaborator. *)
Theorem blocked_nudge_is_always_rejected
    (e : Engine) (st : StoryState) (currentAct : Act)
    (nudge : Nudge) (verdict : option bool) :
  currentState e = Some st ->
  getCurrentAct st = Some currentAct ->
  In (n_type nudge) (blockedNudges (actGates currentAct)) ->
  applyNudge nudge verdict e = (Ok false, e).
Proof.
  intros Hst Hact Hblocked. unfold applyNudge. rewrite Hst, Hact.
  apply includesNudge_In in Hblocked. rewrite Hblocked. reflexivity.
Qed.

(** *** What a call does to the counter and to the last major exchange *)

Lemma processFinalLine_lastMajor (ls : LoopState) (fl : FinalLine) :
  lastMajorNudgeExchange (ls_state (processFinalLine ls fl))
  = lastMajorNudgeExchange (ls_state ls).
Proof.
  unfold processFinalLine.
  destruct (processLine fl (ls_state ls)) as [spoken st1] eqn:Ep.
  assert (lastMajorNudgeExchange st1 = lastMajorNudgeExchange (ls_state ls)) as H1.
  { unfold processLine in Ep. injection Ep as _ <-. reflexivity. }
  assert (forall s, lastMajorNudgeExchange (updateLoveGraph spoken s)
                    = lastMajorNudgeExchange s) as H2.
  { intros s. unfold updateLoveGraph.
    destruct (loveGraph (sortedState s) !! _); reflexivity. }
  assert (forall s, lastMajorNudgeExchange (snd (checkActAdvancement s))
                    = lastMajorNudgeExchange s) as H3.
  { intros s. unfold checkActAdvancement.
    destruct (getCurrentAct s); [|reflexivity].
    destruct (List.find _ checkpoints); [|reflexivity].
    destruct (loveGraph (sortedState s) !! _); reflexivity. }
  assert (forall s, lastMajorNudgeExchange (fst (checkPlateau s))
                    = lastMajorNudgeExchange s) as H4.
  { intros s. unfold checkPlateau.
    destruct (length _ <? 3)%nat; [reflexivity|].
    destruct (_ || _); reflexivity. }
  specialize (H3 (updateLoveGraph spoken st1)).
  destruct (checkActAdvancement (updateLoveGraph spoken st1)) as [cp st3].
  simpl in H3.
  destruct cp as [c|].
  - destruct (advanceAct c st3) as [t st'] eqn:Ea.
    assert (lastMajorNudgeExchange st' = lastMajorNudgeExchange st3) as H5.
    { unfold advanceAct in Ea. injection Ea as _ <-. reflexivity. }
    specialize (H4 st'). destruct (checkPlateau st') as [st5 evs].
    simpl in *. rewrite H4, H5, H3, H2. exact H1.
  - specialize (H4 st3). destruct (checkPlateau st3) as [st5 evs].
    simpl in *. rewrite H4, H3, H2. exact H1.
Qed.

Lemma processLines_lastMajor (fls : list FinalLine) (ls : LoopState) :
  lastMajorNudgeExchange (ls_state (foldl processFinalLine ls fls))
  = lastMajorNudgeExchange (ls_state ls).
Proof.
  revert ls. induction fls as [|fl rest IH]; intros ls; simpl; [reflexivity|].
  rewrite IH. apply processFinalLine_lastMajor.
Qed.

Lemma processLines_actPath_nonempty (fls : list FinalLine) (ls : LoopState) :
  actPath (ls_state ls) <> [] ->
  actPath (ls_state (foldl processFinalLine ls fls)) <> [].
Proof.
  revert ls. induction fls as [|fl rest IH]; intros ls H; simpl; [exact H|].
  apply IH.
  destruct (processFinalLine_step ls fl) as [[-> _]|[cp [_ [_ [-> _]]]]];
    [exact H|].
  intros Habs. apply app_eq_nil in Habs. destruct Habs as [_ Habs]. discriminate.
Qed.

(** A tick of an active episode counts one exchange, whether it completes
    or fails, and leaves the last major exchange as it is. *)
Lemma tick_cadence (beat : option (list FinalLine)) (e : Engine) :
  cadenceInv e ->
  cadenceInv (snd (tick beat e))
  /\ exchangeCounter (snd (tick beat e)) = (exchangeCounter e + 1)%Z
  /\ lastMajorOf (snd (tick beat e)) = lastMajorOf e.
Proof.
  intros [st [Hst [Hpath Hle]]]. unfold tick, lastMajorOf. rewrite Hst.
  destruct (getCurrentAct (sortedState st)) as [a|].
  - destruct beat as [fls|]; simpl.
    + pose proof (processLines_lastMajor fls (mkLoop (sortedState st) [] [] [])) as Hl.
      pose proof (processLines_actPath_nonempty fls (mkLoop (sortedState st) [] [] []) Hpath) as Hp.
      simpl in Hl. split; [|split; [reflexivity | exact Hl]].
      eexists. split; [reflexivity|]. simpl. split; [exact Hp|]. rewrite Hl. lia.
    + split; [|split; reflexivity].
      eexists. split; [reflexivity|]. simpl. split; [exact Hpath | lia].
  - simpl. split; [|split; reflexivity].
    eexists. split; [reflexivity|]. simpl. split; [exact Hpath | lia].
Qed.

(** [applyNudge] never moves the counter; the last major exchange stays or
    becomes the current exchange. *)
Lemma applyNudge_cadence (n : Nudge) (v : option bool) (e : Engine) :
  cadenceInv e ->
  cadenceInv (snd (applyNudge n v e))
  /\ exchangeCounter (snd (applyNudge n v e)) = exchangeCounter e
  /\ (lastMajorOf e <= lastMajorOf (snd (applyNudge n v e)))%Z.
Proof.
  intros Hinv. pose proof Hinv as [st [Hst [Hpath Hle]]].
  unfold applyNudge, lastMajorOf. rewrite Hst.
  destruct (getCurrentAct st);
    [|simpl; rewrite Hst; split; [exact Hinv | split; [reflexivity | simpl; lia]]].
  destruct (includesNudge _ _);
    [simpl; rewrite Hst; split; [exact Hinv | split; [reflexivity | simpl; lia]]|].
  destruct (negb _);
    [simpl; rewrite Hst; split; [exact Hinv | split; [reflexivity | simpl; lia]]|].
  destruct (_ && _);
    [simpl; rewrite Hst; split; [exact Hinv | split; [reflexivity | simpl; lia]]|].
  destruct v as [[|]|];
    try (simpl; rewrite Hst; split; [exact Hinv | split; [reflexivity | simpl; lia]]).
  simpl. unfold scheduleNudge.
  destruct (n_intensity n); simpl.
  - split; [|split; [reflexivity | lia]].
    eexists. split; [reflexivity|]. simpl. split; [exact Hpath | exact Hle].
  - split; [|split; [reflexivity | exact Hle]].
    eexists. split; [reflexivity|]. simpl. split; [exact Hpath | lia].
Qed.

(** An accepted major nudge records the current exchange. *)
Lemma applyNudge_major_accepted (n : Nudge) (v : option bool) (e : Engine) :
  n_intensity n = major ->
  fst (applyNudge n v e) = Ok true ->
  lastMajorOf (snd (applyNudge n v e)) = exchangeCounter e.
Proof.
  intros Hmajor. unfold applyNudge, lastMajorOf.
  destruct (currentState e) as [st|]; [|discriminate].
  destruct (getCurrentAct st); [|discriminate].
  destruct (includesNudge _ _); [discriminate|].
  destruct (negb _); [discriminate|].
  destruct (_ && _); [discriminate|].
  destruct v as [[|]|]; try discriminate.
  intros _. simpl. unfold scheduleNudge. rewrite Hmajor. reflexivity.
Qed.

(** A major nudge within six exchanges of the recorded one is refused. *)
Lemma applyNudge_major_on_cooldown (n : Nudge) (v : option bool) (e : Engine) :
  cadenceInv e ->
  n_intensity n = major ->
  (exchangeCounter e - lastMajorOf e < 6)%Z ->
  applyNudge n v e = (Ok false, e).
Proof.
  intros [st [Hst [Hpath _]]] Hmajor Hlt.
  unfold lastMajorOf in Hlt. rewrite Hst in Hlt. simpl in Hlt.
  unfold applyNudge. rewrite Hst.
  destruct (getCurrentAct st) eqn:Hact.
  - destruct (includesNudge _ _); [reflexivity|].
    destruct (negb _); [reflexivity|].
    rewrite bool_decide_eq_true_2 by exact Hmajor.
    apply Z.ltb_lt in Hlt. rewrite Hlt. reflexivity.
  - unfold getCurrentAct in Hact. apply last_None in Hact. contradiction.
Qed.

Lemma ticksIn_cons (c : Call) (cs : list Call) :
  ticksIn (c :: cs) = ((if isTick c then 1 else 0) + ticksIn cs)%Z.
Proof.
  unfold ticksIn. simpl. destruct (isTick c); simpl; lia.
Qed.

Lemma ticksIn_nonneg (cs : list Call) : (0 <= ticksIn cs)%Z.
Proof. unfold ticksIn. lia. Qed.

Lemma call_cadence (c : Call) (e : Engine) :
  isStart c = false ->
  cadenceInv e ->
  cadenceInv (snd (call c e))
  /\ exchangeCounter (snd (call c e))
     = (exchangeCounter e + (if isTick c then 1 else 0))%Z
  /\ (lastMajorOf e <= lastMajorOf (snd (call c e)))%Z.
Proof.
  intros Hc Hinv. destruct c as [seed|n v|beat|]; [discriminate| | |].
  3: { destruct Hinv as [st [Hst [Hpath Hle]]].
       unfold call, afterGetState, lastMajorOf. rewrite Hst. simpl.
       split; [|split; [lia | lia]].
       eexists. split; [reflexivity|]. simpl. split; assumption. }
  - unfold call. pose proof (applyNudge_cadence n v e Hinv) as [H1 [H2 H3]].
    destruct (applyNudge n v e) as [r e']. simpl in *.
    split; [exact H1|]. split; [lia | exact H3].
  - unfold call. pose proof (tick_cadence beat e Hinv) as [H1 [H2 H3]].
    destruct (tick beat e) as [r e']. simpl in *.
    split; [exact H1|]. split; [exact H2 | lia].
Qed.

Lemma run_cadence (cs : list Call) (e : Engine) :
  noRestart cs ->
  cadenceInv e ->
  cadenceInv (run cs e)
  /\ exchangeCounter (run cs e) = (exchangeCounter e + ticksIn cs)%Z
  /\ (lastMajorOf e <= lastMajorOf (run cs e))%Z.
Proof.
  revert e. induction cs as [|c rest IH]; intros e Hno Hinv.
  - unfold run, ticksIn. simpl. split; [exact Hinv|]. split; lia.
  - inversion Hno as [|c' rest' Hc Hrest]; subst.
    destruct (call_cadence c e Hc Hinv) as [H1 [H2 H3]].
    destruct (IH (snd (call c e)) Hrest H1) as [H4 [H5 H6]].
    unfold run in *. simpl. rewrite ticksIn_cons.
    split; [exact H4|]. split; lia.
Qed.

Lemma startEpisode_cadence (seed : EpisodeSeed) (e : Engine) :
  cadenceInv (snd (startEpisode seed e))
  /\ exchangeCounter (snd (startEpisode seed e)) = 0%Z
  /\ lastMajorOf (snd (startEpisode seed e)) = 0%Z.
Proof.
  unfold startEpisode, lastMajorOf. simpl. split; [|split; reflexivity].
  eexists. split; [reflexivity|]. simpl. split; [discriminate | lia].
Qed.

End Cadence.

Section MajorNudgeSpacing.

Lemma run_app (cs1 cs2 : list Call) (e : Engine) :
  run (cs1 ++ cs2) e = run cs2 (run cs1 e).
Proof. unfold run. apply foldl_app. Qed.

(** The outcome at position [k] is what the call returns on the engine the
    first [k] calls leave. *)
Lemma outcomes_lookup (cs : list Call) (e : Engine) (k : nat) (c : Call) :
  cs !! k = Some c ->
  outcomes cs e !! k = Some (fst (call c (run (take k cs) e))).
Proof.
  revert e k. induction cs as [|c0 rest IH]; intros e k H; [discriminate|].
  destruct k as [|k]; simpl in *.
  - injection H as ->. reflexivity.
  - rewrite (IH _ _ H). reflexivity.
Qed.

Lemma run_take_S (cs : list Call) (e : Engine) (k : nat) (c : Call) :
  cs !! k = Some c ->
  run (take (S k) cs) e = snd (call c (run (take k cs) e)).
Proof.
  intros H. rewrite (take_S_r cs k c H), run_app. reflexivity.
Qed.

Lemma take_split_between (cs : list Call) (i j : nat) :
  (i < j)%nat -> take j cs = take (S i) cs ++ callsBetween i j cs.
Proof.
  intros Hij. unfold callsBetween. rewrite take_take_drop.
  f_equal. lia.
Qed.

Lemma noRestart_take (cs : list Call) (k : nat) : noRestart cs -> noRestart (take k cs).
Proof. apply Forall_take. Qed.

Lemma noRestart_between (cs : list Call) (i j : nat) :
  noRestart cs -> noRestart (callsBetween i j cs).
Proof. intros H. apply Forall_take, Forall_drop, H. Qed.

(** Between an accepted major nudge and a later call, the exchanges the
    engine has counted since the recorded major exchange are at most the
    ticks in between. *)
Lemma cooldown_since_accepted_major
    (seed : EpisodeSeed) (e0 : Engine) (cs : list Call) (i j : nat) :
  noRestart cs -> (i < j)%nat ->
  acceptedMajorAt cs (outcomes cs (snd (startEpisode seed e0))) i ->
  cadenceInv (run (take j cs) (snd (startEpisode seed e0)))
  /\ (exchangeCounter (run (take j cs) (snd (startEpisode seed e0)))
      - lastMajorOf (run (take j cs) (snd (startEpisode seed e0)))
      <= ticksIn (callsBetween i j cs))%Z.
Proof.
  intros Hno Hij [[n [v [Hi Hmajor]]] Hout].
  set (e1 := snd (startEpisode seed e0)) in *.
  destruct (startEpisode_cadence seed e0) as [Hinv1 _]. fold e1 in Hinv1.
  destruct (run_cadence (take i cs) e1 (noRestart_take cs i Hno) Hinv1) as [Hinvi _].
  rewrite (outcomes_lookup cs e1 i _ Hi) in Hout. simpl in Hout.
  destruct (applyNudge n v (run (take i cs) e1)) as [r ei'] eqn:Ea.
  simpl in Hout. injection Hout as ->.
  pose proof (applyNudge_major_accepted n v (run (take i cs) e1) Hmajor) as Hrec.
  pose proof (applyNudge_cadence n v (run (take i cs) e1) Hinvi) as [Hinv' [Hcnt _]].
  rewrite Ea in Hrec, Hinv', Hcnt. simpl in Hrec, Hinv', Hcnt.
  specialize (Hrec eq_refl).
  assert (run (take (S i) cs) e1 = ei') as Hsi.
  { rewrite (run_take_S cs e1 i _ Hi). simpl. rewrite Ea. reflexivity. }
  rewrite (take_split_between cs i j Hij), run_app, Hsi.
  destruct (run_cadence (callsBetween i j cs) ei' (noRestart_between cs i j Hno) Hinv')
    as [Hinvj [Hcntj Hlastj]].
  split; [exact Hinvj | lia].
Qed.

(** C3.  Within one episode (calls after [startEpisode], none of them a new
    start), take a major nudge that was accepted and a later major nudge,
    with the number of ticks between the two calls.  If fewer than 6
    exchanges were ticked, the later nudge is rejected: [applyNudge] returns
    false.  Hence if the later one is accepted too, at least 6 exchanges lie
    between them. *)
Theorem major_nudges_are_six_exchanges_apart
    (seed : EpisodeSeed) (e0 : Engine) (cs : list Call) (i j : nat)
    (nudge : Nudge) (verdict : option bool) :
  noRestart cs ->
  (i < j)%nat ->
  acceptedMajorAt cs (outcomes cs (snd (startEpisode seed e0))) i ->
  cs !! j = Some (CallNudge nudge verdict) ->
  n_intensity nudge = major ->
  ((ticksIn (callsBetween i j cs) < 6)%Z ->
   outcomes cs (snd (startEpisode seed e0)) !! j = Some (Nudged (Ok false)))
  /\ (outcomes cs (snd (startEpisode seed e0)) !! j = Some (Nudged (Ok true)) ->
      (6 <= ticksIn (callsBetween i j cs))%Z).
Proof.
  intros Hno Hij Hacc Hj Hmajor.
  destruct (cooldown_since_accepted_major seed e0 cs i j Hno Hij Hacc) as [Hinv Hgap].
  assert ((ticksIn (callsBetween i j cs) < 6)%Z ->
          outcomes cs (snd (startEpisode seed e0)) !! j = Some (Nudged (Ok false))) as Hrej.
  { intros Hlt. rewrite (outcomes_lookup cs _ j _ Hj). unfold call.
    rewrite (applyNudge_major_on_cooldown nudge verdict _ Hinv Hmajor) by lia.
    reflexivity. }
  split; [exact Hrej|].
  intros Hok.
  destruct (Z_lt_le_dec (ticksIn (callsBetween i j cs)) 6) as [Hlt|Hge]; [|exact Hge].
  rewrite (Hrej Hlt) in Hok. discriminate.
Qed.

(** C10.  In a fresh episode every major nudge submitted before 6 exchanges
    have been ticked is rejected, although no major nudge was ever accepted:
    the last major exchange starts at 0 and the counter is compared with it.
    [applyNudge] returns false and leaves the engine as it was, whatever the
    type of the nudge and the answer of the safety collaborator. *)
Theorem fresh_episode_rejects_major_nudges_before_six_exchanges
    (seed : EpisodeSeed) (e0 : Engine) (cs : list Call)
    (nudge : Nudge) (verdict : option bool) :
  noRestart cs ->
  (ticksIn cs < 6)%Z ->
  n_intensity nudge = major ->
  applyNudge nudge verdict (run cs (snd (startEpisode seed e0)))
  = (Ok false, run cs (snd (startEpisode seed e0))).
Proof.
  intros Hno Hlt Hmajor.
  destruct (startEpisode_cadence seed e0) as [Hinv1 [Hc1 Hl1]].
  destruct (run_cadence cs _ Hno Hinv1) as [Hinv [Hcnt Hlast]].
  apply applyNudge_major_on_cooldown; [exact Hinv | exact Hmajor | lia].
Qed.

End MajorNudgeSpacing.

(** ** Ripples of compersion *)

Section Compersion.

Open Scope Q_scope.

Lemma ripplePair_attraction (d : ChemistryDeltas) (p : LoveGraphPair) :
  attraction (ripplePair d p) =
  clamp 0 1 (if Qgtb (d_attraction d) 0 || Qgtb (d_comfort d) 0
             then attraction p + d_attraction d * rippleStrength
             else attraction p).
Proof.
  unfold ripplePair.
  destruct (_ || _); destruct (Qgtb (d_tension d) 0.1); reflexivity.
Qed.

Lemma ripplePair_comfort (d : ChemistryDeltas) (p : LoveGraphPair) :
  comfort_ (ripplePair d p) =
  clamp 0 1 (if Qgtb (d_attraction d) 0 || Qgtb (d_comfort d) 0
             then comfort_ p + d_comfort d * rippleStrength
             else comfort_ p).
Proof.
  unfold ripplePair.
  destruct (_ || _); destruct (Qgtb (d_tension d) 0.1); reflexivity.
Qed.

Lemma compersion_gate (d : ChemistryDeltas) :
  Qgtb (d_attraction d) 0 || Qgtb (d_comfort d) 0 = true
  <-> 0 < d_attraction d \/ 0 < d_comfort d.
Proof. rewrite orb_true_iff, !Qgtb_gt. reflexivity. Qed.

(** The change of one dimension: a tenth of the component when the ripple
    applies, clamped; no gain from a component that is not positive. *)
Lemma ripple_dimension (gate : bool) (old component : Q) :
  inUnit old ->
  let new := clamp 0 1 (if gate then old + component * rippleStrength else old) in
  (gate = true -> new == clamp 0 1 (old + component * 0.1))
  /\ (gate = true -> 0 < component -> old + component * 0.1 <= 1 ->
      new - old == component * 0.1)
  /\ (component <= 0 -> new <= old).
Proof.
  intros [H0 H1]. unfold rippleStrength. simpl. split; [|split].
  - intros ->. reflexivity.
  - intros -> Hpos Hfit. rewrite clamp_inside; [ring | lra | exact Hfit].
  - intros Hneg. destruct gate.
    + rewrite <- (clamp_inside 0 1 old H0 H1) at 2.
      apply clamp_monotone. lra.
    + rewrite clamp_inside by assumption. lra.
Qed.

(** C8.  A ripple gives every tracked pair other than the spotlighted one,
    when the attraction or the comfort component of the primary delta is
    positive, a tenth of each of the two components in the corresponding
    dimension, the result clamped to [0,1]: the gain is exactly 10% of a
    positive component unless the dimension saturates at 1.  A component
    that is not positive never raises its dimension in another pair. *)
Theorem ripple_gives_a_tenth_of_positive_attraction_and_comfort
    (primaryDeltas : ChemistryDeltas) (primaryPairKey pairKey : string)
    (g : LoveGraph) (pair : LoveGraphPair) :
  g !! pairKey = Some pair ->
  pairKey <> primaryPairKey ->
  pairInRange pair ->
  exists pair' : LoveGraphPair,
    applyRippleEffects primaryDeltas primaryPairKey g !! pairKey = Some pair'
    /\ (0 < d_attraction primaryDeltas \/ 0 < d_comfort primaryDeltas ->
        attraction pair' == clamp 0 1 (attraction pair + d_attraction primaryDeltas * 0.1)
        /\ comfort_ pair' == clamp 0 1 (comfort_ pair + d_comfort primaryDeltas * 0.1))
    /\ (0 < d_attraction primaryDeltas ->
        attraction pair + d_attraction primaryDeltas * 0.1 <= 1 ->
        attraction pair' - attraction pair == d_attraction primaryDeltas * 0.1)
    /\ (0 < d_comfort primaryDeltas ->
        comfort_ pair + d_comfort primaryDeltas * 0.1 <= 1 ->
        comfort_ pair' - comfort_ pair == d_comfort primaryDeltas * 0.1)
    /\ (d_attraction primaryDeltas <= 0 -> attraction pair' <= attraction pair)
    /\ (d_comfort primaryDeltas <= 0 -> comfort_ pair' <= comfort_ pair).
Proof.
  intros Hlook Hne [Ha [_ [_ Hc]]].
  exists (ripplePair primaryDeltas pair). split.
  { rewrite applyRippleEffects_lookup, Hlook. simpl.
    rewrite bool_decide_eq_false_2 by exact Hne. reflexivity. }
  rewrite ripplePair_attraction, ripplePair_comfort.
  pose proof (compersion_gate primaryDeltas) as Hgate.
  destruct (ripple_dimension
              (Qgtb (d_attraction primaryDeltas) 0 || Qgtb (d_comfort primaryDeltas) 0)
              (attraction pair) (d_attraction primaryDeltas) Ha) as [A1 [A2 A3]].
  destruct (ripple_dimension
              (Qgtb (d_attraction primaryDeltas) 0 || Qgtb (d_comfort primaryDeltas) 0)
              (comfort_ pair) (d_comfort primaryDeltas) Hc) as [C1 [C2 C3]].
  split; [|split; [|split; [|split]]].
  - intros Hpos. apply Hgate in Hpos. split; [exact (A1 Hpos) | exact (C1 Hpos)].
  - intros Hpos Hfit. apply A2; [apply Hgate; left; exact Hpos | exact Hpos | exact Hfit].
  - intros Hpos Hfit. apply C2; [apply Hgate; right; exact Hpos | exact Hpos | exact Hfit].
  - exact A3.
  - exact C3.
Qed.

End Compersion.

(** ** Starting an episode *)

Section StartEpisode.

(** C7, as the code has it.  [startEpisode] never fails, whatever the number
    of characters: it always installs an episode in act 1, scene 0, and
    returns its summary, with the first two entries of the character list
    as spotlight.  With fewer than two characters the second slot of the
    spotlight is undefined and the relationship graph is empty. *)
Theorem startEpisode_succeeds_for_every_seed (seed : EpisodeSeed) (e : Engine) :
  exists (summary : EpisodeSummary) (st : StoryState),
    startEpisode seed e = (Ok summary, mkEngine (Some st) 0 (telemetryBuffer e))
    /\ summary = buildEpisodeSummary st
    /\ sum_act summary = Some Act1
    /\ sum_scene summary = 0%Z
    /\ sum_spotlight summary = (characters seed !! 0%nat, characters seed !! 1%nat)
    /\ graphInRange (loveGraphSnapshot summary)
    /\ ((length (characters seed) < 2)%nat ->
        snd (sum_spotlight summary) = None /\ loveGraphSnapshot summary = ∅).
Proof.
  eexists _, _. split; [reflexivity|]. split; [reflexivity|].
  simpl. split; [reflexivity|]. split; [reflexivity|]. split; [reflexivity|].
  split.
  - apply initLoveGraph_in_range. apply map_Forall_empty.
  - intros Hlen. destruct (characters seed) as [|c [|c' rest]]; simpl in *;
      [split; reflexivity | split; reflexivity | lia].
Qed.

(** C7, as the specification states it, fails: an empty character list
    starts an episode like any other. *)
Lemma startEpisode_accepts_an_empty_cast : ~ startEpisodeFailsOnShortLists.
Proof.
  intros H. destruct (H nobody newEngine) as [msg Hmsg].
  - simpl. lia.
  - discriminate Hmsg.
Qed.

End StartEpisode.

(** ** The final score of the evaluation engine *)

Section FinalScore.

Open Scope Q_scope.

Variable embeddingNovelty : Nudge -> list SpokenLine -> Q.

(** The evaluation engine's table of act weights is the gates' table. *)
Lemma actCoherenceWeights_gate (act : Act) :
  EvaluationEngine.actCoherenceWeights act = coherenceWeight (actGates act).
Proof. destruct act; reflexivity. Qed.

Lemma scoreNudgeCandidate_formula (c : Nudge) (state : EvaluationState)
    (fragility : FragilityComponents) (ev : EvaluationEngine.Evaluator) :
  scoreFormula (es_act state)
    (EvaluationEngine.scoreNudgeCandidate embeddingNovelty c state fragility ev).
Proof.
  unfold scoreFormula, EvaluationEngine.scoreNudgeCandidate,
    EvaluationEngine.calculateLambda, clamp. simpl.
  rewrite actCoherenceWeights_gate. reflexivity.
Qed.

(** The loop over the candidates appends one snapshot per candidate, in
    order, each with a score that obeys the formula. *)
Lemma scoreCandidates_formula (state : EvaluationState) (fragility : FragilityComponents)
    (cands : list Nudge) (position : nat) (ev : EvaluationEngine.Evaluator) :
  exists news : list EvaluationSnapshot,
    EvaluationEngine.evaluationSnapshots
      (snd (EvaluationEngine.scoreCandidates embeddingNovelty state fragility position cands ev))
    = EvaluationEngine.evaluationSnapshots ev ++ news
    /\ map candidate news = cands
    /\ Forall (scoreFormula (es_act state)) (map snap_scores news)
    /\ Forall (scoreFormula (es_act state))
         (map EvaluationEngine.sd_scores
            (fst (EvaluationEngine.scoreCandidates embeddingNovelty state fragility
                    position cands ev))).
Proof.
  revert position ev. induction cands as [|c rest IH]; intros position ev.
  - exists []. simpl. rewrite app_nil_r. repeat split; constructor.
  - simpl.
    set (scores := EvaluationEngine.scoreNudgeCandidate embeddingNovelty c state fragility ev).
    set (snapshot := mkSnapshot (es_act state) c scores
                       (EvaluationEngine.generateRationales c scores state ev) false).
    set (ev1 := EvaluationEngine.mkEvaluator _ _ _ _ _ _).
    destruct (IH (S position) ev1) as [news [Hsnap [Hcand [Hnew Hscored]]]].
    destruct (EvaluationEngine.scoreCandidates embeddingNovelty state fragility
                (S position) rest ev1) as [scored ev2].
    simpl in *. exists (snapshot :: news).
    split; [rewrite Hsnap; rewrite <- app_assoc; reflexivity|].
    split; [simpl; rewrite Hcand; reflexivity|].
    split; constructor; try assumption; apply scoreNudgeCandidate_formula.
Qed.

Lemma insertByScore_Forall (P : EvaluationEngine.Scored -> Prop)
    (x : EvaluationEngine.Scored) (l : list EvaluationEngine.Scored) :
  P x -> Forall P l -> Forall P (EvaluationEngine.insertByScore x l).
Proof.
  intros Hx Hl. induction Hl as [|y r Hy Hr IH]; simpl.
  - constructor; [exact Hx | constructor].
  - destruct (Qltb _ _).
    + constructor; [exact Hx|]. constructor; assumption.
    + constructor; assumption.
Qed.

Lemma sortByScore_Forall (P : EvaluationEngine.Scored -> Prop)
    (l : list EvaluationEngine.Scored) :
  Forall P l -> Forall P (EvaluationEngine.sortByScore l).
Proof.
  unfold EvaluationEngine.sortByScore.
  assert (forall acc, Forall P acc -> Forall P l ->
            Forall P (foldl (fun acc x => EvaluationEngine.insertByScore x acc) acc l)) as H.
  { induction l as [|x r IH]; intros acc Hacc Hl; simpl; [exact Hacc|].
    inversion Hl; subst. apply IH; [apply insertByScore_Forall|]; assumption. }
  apply H. constructor.
Qed.

Lemma map_alter_markChosen {B} (f : EvaluationSnapshot -> B) (i : nat)
    (l : list EvaluationSnapshot) :
  (forall s, f (EvaluationEngine.markChosen s) = f s) ->
  map f (alter EvaluationEngine.markChosen i l) = map f l.
Proof.
  intros Hf. revert i. induction l as [|s r IH]; intros i; [reflexivity|].
  destruct i as [|i]; simpl.
  - rewrite Hf. reflexivity.
  - f_equal. apply IH.
Qed.

Lemma zero_scores_formula (act : Act) (fragility : Q) :
  scoreFormula act (mkScores 0 0 fragility 0).
Proof.
  unfold scoreFormula. simpl.
  assert (0 - coherenceWeight (actGates act) * (0.6 + fragility * 1.2) * 0 == 0) as H
    by ring.
  rewrite clamp_inside; [symmetry; exact H | rewrite H; lra | rewrite H; lra].
Qed.

(** C2.  Every candidate that [consider] scores is recorded, in order, as a
    new snapshot whose final score equals its freshness gain minus lambda
    times its coherence cost, clamped to [-1,1], with lambda the base
    coherence weight of the state's act times (0.6 + 1.2 * fragility
    index).  The scores of the recommendation that is returned obey the
    same equation. *)
Theorem consider_final_score_is_freshness_minus_weighted_coherence
    (state : EvaluationState) (lastLine : option SpokenLine)
    (ev : EvaluationEngine.Evaluator) :
  let result := EvaluationEngine.consider embeddingNovelty state lastLine ev in
  let scoredNow :=
    drop (length (EvaluationEngine.evaluationSnapshots ev))
         (EvaluationEngine.evaluationSnapshots (snd result)) in
  map candidate scoredNow = EvaluationEngine.generateNudgeCandidates state
  /\ Forall (scoreFormula (es_act state)) (map snap_scores scoredNow)
  /\ scoreFormula (es_act state) (rec_scores (fst result)).
Proof.
  unfold EvaluationEngine.consider.
  set (ev1 := EvaluationEngine.mkEvaluator _ _ _ _ _ _).
  set (fragility := EvaluationEngine.calculateFragilityIndex ev1).
  destruct (scoreCandidates_formula state fragility
              (EvaluationEngine.generateNudgeCandidates state) 0 ev1)
    as [news [Hsnap [Hcand [Hnew Hscored]]]].
  destruct (EvaluationEngine.scoreCandidates embeddingNovelty state fragility 0
              (EvaluationEngine.generateNudgeCandidates state) ev1) as [scored ev2].
  simpl in Hsnap, Hscored.
  assert (drop (length (EvaluationEngine.evaluationSnapshots ev))
               (EvaluationEngine.evaluationSnapshots ev2) = news) as Hdrop.
  { rewrite Hsnap. apply drop_app_length. }
  assert (Forall (fun s => scoreFormula (es_act state) (EvaluationEngine.sd_scores s))
                 (EvaluationEngine.sortByScore scored)) as Hsorted.
  { apply sortByScore_Forall. exact (proj1 (List.Forall_map _ _ _) Hscored). }
  destruct (EvaluationEngine.sortByScore scored) as [|best others].
  - simpl. rewrite Hdrop. repeat split; try assumption. apply zero_scores_formula.
  - pose proof (Forall_inv Hsorted) as Hbest.
    destruct (Qltb _ _).
    + simpl. rewrite Hdrop. repeat split; try assumption. apply zero_scores_formula.
    + destruct (negb _).
      * simpl. rewrite Hdrop. repeat split; assumption.
      * simpl. rewrite <- !skipn_map.
        rewrite !map_alter_markChosen by reflexivity.
        rewrite !skipn_map, Hdrop. repeat split; assumption.
Qed.

End FinalScore.

(** ** Worked instances *)

Section Instances.

Open Scope Q_scope.

(** After a line with deltas (2, -3, 0.5, 5) the spotlighted pair of a cast
    of three is clamped to (1, 0, 0.7, 1). *)
Lemma love_graph_dimensions_instance :
  exists (st : StoryState) (pair : LoveGraphPair),
    currentState (run [CallStart trioSeed; stormyExchange] newEngine) = Some st
    /\ loveGraph st !! "emma-jake"%string = Some pair
    /\ attraction pair == 1 /\ trust pair == 0
    /\ (0 <= attraction pair <= 1 /\ 0 <= trust pair <= 1
        /\ 0 <= tension pair <= 1 /\ 0 <= comfort_ pair <= 1).
Proof.
  eexists. eexists.
  split. { vm_compute. reflexivity. }
  split. { vm_compute. reflexivity. }
  split. { vm_compute. reflexivity. }
  split. { vm_compute. reflexivity. }
  eapply (love_graph_dimensions_within_unit_interval
            [CallStart trioSeed; stormyExchange] _
            (mkLine "emma" "hello" 1 fondButUneasy) "emma-jake"%string).
  { vm_compute. reflexivity. }
  { left. vm_compute. reflexivity. }
Defined.

(** A fresh evaluator on a calm act 1 state. *)
Lemma consider_final_score_instance :
  let result := EvaluationEngine.consider halfNovelty calmAct1 None
                  EvaluationEngine.newEvaluator in
  let scoredNow :=
    drop 0 (EvaluationEngine.evaluationSnapshots (snd result)) in
  map candidate scoredNow = EvaluationEngine.generateNudgeCandidates calmAct1
  /\ Forall (scoreFormula Act1) (map snap_scores scoredNow)
  /\ scoreFormula Act1 (rec_scores (fst result)).
Proof.
  exact (consider_final_score_is_freshness_minus_weighted_coherence
           halfNovelty calmAct1 None EvaluationEngine.newEvaluator).
Defined.

(** A major nudge accepted at exchange 6 and tried again two exchanges
    later. *)
Lemma major_nudges_spacing_instance :
  noRestart cadenceCalls
  /\ acceptedMajorAt cadenceCalls
       (outcomes cadenceCalls (snd (startEpisode emmaJake newEngine))) 6
  /\ ticksIn (callsBetween 6 9 cadenceCalls) = 2%Z
  /\ outcomes cadenceCalls (snd (startEpisode emmaJake newEngine)) !! 9%nat
     = Some (Nudged (Ok false)).
Proof.
  assert (noRestart cadenceCalls) as Hno by (repeat constructor).
  assert (acceptedMajorAt cadenceCalls
            (outcomes cadenceCalls (snd (startEpisode emmaJake newEngine))) 6) as Hacc.
  { split.
    - exists raiseStakesMajor, (Some true). split; reflexivity.
    - vm_compute. reflexivity. }
  split; [exact Hno|]. split; [exact Hacc|]. split; [reflexivity|].
  apply (major_nudges_are_six_exchanges_apart emmaJake newEngine cadenceCalls 6 9
           raiseStakesMajor (Some true) Hno); [lia | exact Hacc | reflexivity | reflexivity |].
  vm_compute. reflexivity.
Defined.

(** [raise_stakes] in act 1, with an exchange counter far past any cooldown. *)
Lemma blocked_nudge_instance :
  currentState (mkEngine (Some sparkAndCallback) 42 []) = Some sparkAndCallback
  /\ getCurrentAct sparkAndCallback = Some Act1
  /\ In raise_stakes (blockedNudges (actGates Act1))
  /\ applyNudge raiseStakesMajor (Some true) (mkEngine (Some sparkAndCallback) 42 [])
     = (Ok false, mkEngine (Some sparkAndCallback) 42 []).
Proof.
  split; [reflexivity|]. split; [reflexivity|]. split; [left; reflexivity|].
  apply (blocked_nudge_is_always_rejected _ sparkAndCallback Act1);
    [reflexivity | reflexivity | left; reflexivity].
Defined.

(** [aside] in act 5. *)
Example aside_is_blocked_in_act5 :
  applyNudge asideMinor (Some true) (mkEngine (Some inAct5) 0 [])
  = (Ok false, mkEngine (Some inAct5) 0 []).
Proof. reflexivity. Qed.

(** An episode that has reached act 3. *)
Lemma act_path_instance :
  exists st : StoryState,
    currentState (run [CallStart emmaJake; warmUp; CallTick (Some sparkThenStill)] newEngine)
    = Some st
    /\ actPath st = [Act1; Act2; Act3]
    /\ sequentialPath (actPath st)
    /\ head (actPath st) = Some Act1
    /\ stepsByOne (actPath st)
    /\ nonDecreasing (actPath st).
Proof.
  eexists.
  split. { vm_compute. reflexivity. }
  split. { vm_compute. reflexivity. }
  apply (act_path_moves_forward_one_act_at_a_time
           [CallStart emmaJake; warmUp; CallTick (Some sparkThenStill)]).
  vm_compute. reflexivity.
Defined.

(** Attraction 0.45 with no callback and no trust delta: no checkpoint. *)
Lemma mutual_spark_instance :
  getCurrentAct sparkOnly = Some Act1
  /\ ~ (reciprocalAttraction sparkOnly /\ sharedMoment sparkOnly)
  /\ fst (checkActAdvancement sparkOnly) = None
  /\ getCurrentAct (snd (checkActAdvancement sparkOnly)) = Some Act1.
Proof.
  assert (~ (reciprocalAttraction sparkOnly /\ sharedMoment sparkOnly)) as Hnot.
  { intros [_ [Hcb|Hline]]; [apply Hcb; reflexivity | inversion Hline]. }
  split; [reflexivity|]. split; [exact Hnot|].
  apply (mutual_spark_fires_only_on_both_conditions sparkOnly eq_refl). exact Hnot.
Defined.

(** The same pair with one open callback: the checkpoint to act 2. *)
Example spark_with_callback_fires :
  fst (checkActAdvancement sparkAndCallback) = Some sparkCheckpoint.
Proof. vm_compute. reflexivity. Qed.

(** A single character: an episode all the same. *)
Lemma startEpisode_instance :
  exists (summary : EpisodeSummary) (st : StoryState),
    startEpisode emmaAlone newEngine = (Ok summary, mkEngine (Some st) 0 [])
    /\ summary = buildEpisodeSummary st
    /\ sum_act summary = Some Act1
    /\ sum_scene summary = 0%Z
    /\ sum_spotlight summary = (Some "emma"%string, None)
    /\ graphInRange (loveGraphSnapshot summary)
    /\ ((length (characters emmaAlone) < 2)%nat ->
        snd (sum_spotlight summary) = None /\ loveGraphSnapshot summary = ∅).
Proof.
  exact (startEpisode_succeeds_for_every_seed emmaAlone newEngine).
Defined.

(** The pair jake-sam while emma and jake are in the spotlight: a tenth of
    the attraction gained, a tenth of the comfort lost. *)
Lemma ripple_instance :
  trio !! "jake-sam"%string = Some basePair
  /\ "jake-sam"%string <> "emma-jake"%string
  /\ pairInRange basePair
  /\ exists pair' : LoveGraphPair,
       applyRippleEffects fondButUneasy "emma-jake" trio !! "jake-sam"%string = Some pair'
       /\ attraction pair' - attraction basePair == 0.01
       /\ comfort_ pair' <= comfort_ basePair.
Proof.
  assert (trio !! "jake-sam"%string = Some basePair) as Hlook by (vm_compute; reflexivity).
  assert ("jake-sam"%string <> "emma-jake"%string) as Hne by discriminate.
  split; [exact Hlook|]. split; [exact Hne|]. split; [exact basePair_in_range|].
  destruct (ripple_gives_a_tenth_of_positive_attraction_and_comfort
              fondButUneasy "emma-jake" "jake-sam" trio basePair Hlook Hne basePair_in_range)
    as [pair' [Hp [_ [Hgain [_ [_ Hloss]]]]]].
  exists pair'. split; [exact Hp|]. split.
  - rewrite Hgain; [reflexivity | reflexivity | discriminate].
  - apply Hloss. discriminate.
Defined.

(** The tick that crosses act 2: two lines, two transitions. *)
Lemma tick_transitions_instance :
  exists (st : StoryState) (r : TickResult) (e' : Engine),
    currentState (run [CallStart emmaJake; warmUp] newEngine) = Some st
    /\ tick (Some sparkThenStill) (run [CallStart emmaJake; warmUp] newEngine) = (Ok r, e')
    /\ map (fun t => (tr_fromAct t, tr_toAct t)) (transitions r)
       = [(Act1, Act2); (Act2, Act3)]
    /\ (length (transitions r) <= length (producedLines r))%nat
    /\ Forall forwardByOne (transitions r)
    /\ exists st', currentState e' = Some st'
         /\ actPath st' = actPath st ++ map tr_toAct (transitions r).
Proof.
  eexists. eexists. eexists.
  split. { vm_compute. reflexivity. }
  split. { vm_compute. reflexivity. }
  split. { vm_compute. reflexivity. }
  apply (tick_takes_at_most_one_transition_per_line (Some sparkThenStill)
           (run [CallStart emmaJake; warmUp] newEngine)).
  { vm_compute. reflexivity. }
  { vm_compute. reflexivity. }
Defined.

(** Two exchanges into a fresh episode, in act 3 where [raise_stakes] is
    allowed, and with the safety collaborator agreeing. *)
Lemma fresh_episode_instance :
  noRestart [warmUp; CallTick (Some sparkThenStill)]
  /\ (ticksIn [warmUp; CallTick (Some sparkThenStill)] < 6)%Z
  /\ n_intensity raiseStakesMajor = major
  /\ applyNudge raiseStakesMajor (Some true)
       (run [warmUp; CallTick (Some sparkThenStill)] (snd (startEpisode emmaJake newEngine)))
     = (Ok false,
        run [warmUp; CallTick (Some sparkThenStill)] (snd (startEpisode emmaJake newEngine))).
Proof.
  assert (noRestart [warmUp; CallTick (Some sparkThenStill)]) as Hno by (repeat constructor).
  split; [exact Hno|]. split; [reflexivity|]. split; [reflexivity|].
  apply (fresh_episode_rejects_major_nudges_before_six_exchanges emmaJake newEngine
           [warmUp; CallTick (Some sparkThenStill)] raiseStakesMajor (Some true) Hno);
    reflexivity.
Defined.

End Instances.

(** * Further properties of the narrative engine *)

(** ** One iteration of the loop of [tick], step by step *)

Section LoopSteps.

(** The iteration as the composition of its five steps. *)
Lemma processFinalLine_steps (ls : LoopState) (fl : FinalLine) :
  let st1 := snd (processLine fl (ls_state ls)) in
  let st2 := updateLoveGraph (spokenOf fl) st1 in
  let cp := fst (checkActAdvancement st2) in
  let st3 := snd (checkActAdvancement st2) in
  let trs := match cp with Some c => [fst (advanceAct c st3)] | None => [] end in
  let st4 := match cp with Some c => snd (advanceAct c st3) | None => st3 end in
  processFinalLine ls fl =
  mkLoop (fst (checkPlateau st4)) (ls_produced ls ++ [spokenOf fl])
    (ls_transitions ls ++ trs)
    (ls_events ls ++ map SceneTransition trs ++ snd (checkPlateau st4)).
Proof.
  unfold processFinalLine, processLine, spokenOf. simpl.
  destruct (checkActAdvancement _) as [[c|] st3]; simpl.
  - destruct (checkPlateau _) as [st5 evs]. reflexivity.
  - destruct (checkPlateau _) as [st5 evs]. reflexivity.
Qed.

Lemma lineFrame_refl (st : StoryState) : lineFrame st st.
Proof. repeat split. Qed.

Lemma lineFrame_trans (a b c : StoryState) :
  lineFrame a b -> lineFrame b c -> lineFrame a c.
Proof.
  unfold lineFrame. intros (A1 & A2 & A3 & A4 & A5 & A6) (B1 & B2 & B3 & B4 & B5 & B6).
  repeat split; congruence.
Qed.

Lemma updateLoveGraph_frame (line : SpokenLine) (st : StoryState) :
  lineFrame st (updateLoveGraph line st).
Proof.
  unfold updateLoveGraph. destruct (loveGraph (sortedState st) !! _); repeat split.
Qed.

Lemma checkActAdvancement_frame (st : StoryState) :
  lineFrame st (snd (checkActAdvancement st)).
Proof.
  unfold checkActAdvancement.
  destruct (getCurrentAct st); [|repeat split].
  destruct (List.find _ checkpoints); [|repeat split].
  destruct (loveGraph (sortedState st) !! _); repeat split.
Qed.

Lemma checkPlateau_frame (st : StoryState) : lineFrame st (fst (checkPlateau st)).
Proof.
  unfold checkPlateau.
  destruct (length _ <? 3)%nat; [repeat split|].
  destruct (_ || _); repeat split.
Qed.

Lemma processFinalLine_frame (ls : LoopState) (fl : FinalLine) :
  lineFrame (ls_state ls) (ls_state (processFinalLine ls fl)).
Proof.
  rewrite processFinalLine_steps. simpl.
  eapply lineFrame_trans; [|apply checkPlateau_frame].
  set (st2 := updateLoveGraph _ _).
  assert (lineFrame (ls_state ls) st2) as H2.
  { eapply lineFrame_trans; [|apply updateLoveGraph_frame]. repeat split. }
  assert (lineFrame (ls_state ls) (snd (checkActAdvancement st2))) as H3.
  { eapply lineFrame_trans; [exact H2 | apply checkActAdvancement_frame]. }
  destruct (fst (checkActAdvancement st2)) as [c|]; [|exact H3].
  eapply lineFrame_trans; [exact H3|]. repeat split.
Qed.

Lemma processLines_frame (fls : list FinalLine) (ls : LoopState) :
  lineFrame (ls_state ls) (ls_state (foldl processFinalLine ls fls)).
Proof.
  revert ls. induction fls as [|fl rest IH]; intros ls; simpl; [apply lineFrame_refl|].
  eapply lineFrame_trans; [apply processFinalLine_frame | apply IH].
Qed.

End LoopSteps.

(** ** Nudges: rejection, delivery, recovery *)

Section NudgeLifecycle.

Open Scope Q_scope.

(** X1.  Unless [applyNudge] returns true, it leaves the engine exactly as
    it was: a refusal (no episode, gate, cooldown, unsafe) and a failure of
    the safety collaborator change no field, queue nothing and emit no
    telemetry. *)
Theorem applyNudge_changes_nothing_unless_accepted
    (nudge : Nudge) (verdict : option bool) (e : Engine) :
  fst (applyNudge nudge verdict e) <> Ok true ->
  snd (applyNudge nudge verdict e) = e.
Proof.
  unfold applyNudge.
  destruct (currentState e) as [st|]; [|reflexivity].
  destruct (getCurrentAct st); [|reflexivity].
  destruct (includesNudge _ _); [reflexivity|].
  destruct (negb _); [reflexivity|].
  destruct (_ && _); [reflexivity|].
  destruct verdict as [[|]|]; try reflexivity.
  simpl. intros H. exfalso. apply H. reflexivity.
Qed.

Lemma estimateLineDuration_bounds (t : string) :
  0.4 <= estimateLineDuration t /\ estimateLineDuration t <= 9.
Proof.
  unfold estimateLineDuration. split; [|apply Q.le_min_l].
  apply Q.min_glb; [lra|].
  assert (1 <= length (split_space t))%nat as Hlen.
  { destruct t as [|c r]; simpl; [lia|].
    destruct (Ascii.eqb c " "); simpl; [lia|].
    destruct (split_space r); simpl; lia. }
  assert (1 <= inject_Z (Z.of_nat (length (split_space t)))) as Hq.
  { change 1 with (inject_Z 1). rewrite <- Zle_Qle. lia. }
  apply Qle_shift_div_l; lra.
Qed.

Lemma processLines_produced (fls : list FinalLine) (ls : LoopState) :
  ls_produced (foldl processFinalLine ls fls) = ls_produced ls ++ map spokenOf fls.
Proof.
  revert ls. induction fls as [|fl rest IH]; intros ls; simpl.
  - symmetry. apply app_nil_r.
  - rewrite IH, processFinalLine_steps. simpl. rewrite <- app_assoc. reflexivity.
Qed.

(** X2.  A tick that completes produces one spoken line per line of the
    dialogue collaborator, in order, with its speaker, text and deltas, and
    a duration of its text between 0.4 and 9 seconds (one word takes 0.4
    seconds, the cap is 9). *)
Theorem completed_tick_produces_one_timed_line_per_final_line
    (finalLines : list FinalLine) (e : Engine) (r : TickResult) (e' : Engine) :
  tick (Some finalLines) e = (Ok r, e') ->
  producedLines r = map spokenOf finalLines
  /\ Forall (fun l => 0.4 <= secs l /\ secs l <= 9) (producedLines r).
Proof.
  unfold tick. destruct (currentState e) as [st|]; [|discriminate].
  destruct (getCurrentAct (sortedState st)); [|discriminate].
  intros [= <- <-]. simpl.
  rewrite processLines_produced. simpl. split; [reflexivity|].
  apply List.Forall_forall. intros l Hin. apply in_map_iff in Hin.
  destruct Hin as [fl [<- _]]. simpl. apply estimateLineDuration_bounds.
Qed.

Lemma transitionEvents_app (a b : list TelemetryEvent) :
  transitionEvents (a ++ b) = transitionEvents a ++ transitionEvents b.
Proof. unfold transitionEvents. apply omap_app. Qed.

Lemma transitionEvents_transitions (trs : list SceneTransitionEvent) :
  transitionEvents (map SceneTransition trs) = trs.
Proof. induction trs as [|t r IH]; simpl; [reflexivity | f_equal; exact IH]. Qed.

Lemma checkPlateau_events (st : StoryState) :
  Forall loopEvent (snd (checkPlateau st)) /\ transitionEvents (snd (checkPlateau st)) = [].
Proof.
  unfold checkPlateau.
  destruct (length _ <? 3)%nat; [split; [constructor | reflexivity]|].
  destruct (_ || _); simpl; split; try reflexivity; repeat constructor.
Qed.

Lemma processLines_events (fls : list FinalLine) (ls : LoopState) :
  Forall loopEvent (ls_events ls) ->
  transitionEvents (ls_events ls) = ls_transitions ls ->
  Forall loopEvent (ls_events (foldl processFinalLine ls fls))
  /\ transitionEvents (ls_events (foldl processFinalLine ls fls))
     = ls_transitions (foldl processFinalLine ls fls).
Proof.
  revert ls. induction fls as [|fl rest IH]; intros ls Hall Htr; simpl; [split; assumption|].
  apply IH; rewrite processFinalLine_steps; simpl.
  - apply Forall_app. split; [exact Hall|]. apply Forall_app. split.
    + apply List.Forall_forall. intros ev Hin. apply in_map_iff in Hin.
      destruct Hin as [t [<- _]]. exact I.
    + apply checkPlateau_events.
  - rewrite !transitionEvents_app, transitionEvents_transitions, Htr.
    rewrite (proj2 (checkPlateau_events _)), app_nil_r. reflexivity.
Qed.

Lemma tick_telemetry_shape
    (finalLines : list FinalLine) (e : Engine) (st : StoryState)
    (r : TickResult) (e' : Engine) :
  currentState e = Some st ->
  tick (Some finalLines) e = (Ok r, e') ->
  telemetryBuffer e' = []
  /\ exists body : list TelemetryEvent,
       telemetryEvents r =
       telemetryBuffer e
       ++ TurnStart (getCurrentAct st) (sc_index (currentScene st))
          :: body ++ map TurnEnd (producedLines r)
       /\ Forall loopEvent body
       /\ transitionEvents body = transitions r
       /\ In (MetricTick "exchange_counter" (inject_Z (exchangeCounter e + 1))) body.
Proof.
  intros Hst. unfold tick. rewrite Hst.
  destruct (getCurrentAct (sortedState st)); [|discriminate].
  intros [= <- <-]. simpl. split; [reflexivity|].
  set (ls := foldl processFinalLine _ finalLines).
  exists (ls_events ls ++ emitMetrics (exchangeCounter e + 1) (endOfExchange (ls_state ls))).
  destruct (processLines_events finalLines (mkLoop (sortedState st) [] [] []))
    as [Hall Htr]; [constructor | reflexivity |]. fold ls in Hall, Htr.
  split; [|split; [|split]].
  - unfold emitMetrics. rewrite <- !app_assoc. reflexivity.
  - apply Forall_app. split; [exact Hall|]. unfold emitMetrics. repeat constructor.
  - rewrite transitionEvents_app, Htr. unfold emitMetrics. simpl. apply app_nil_r.
  - apply in_or_app. right. left. reflexivity.
Qed.

(** X3.  A tick that completes hands over, in this order: everything that
    was waiting in the telemetry buffer, its [turn.start] with the act and
    scene it started in, the scene transitions and metric ticks of the
    exchange (the transitions being exactly the returned ones, the metrics
    including the new exchange counter), and last one [turn.end] per
    produced line.  It leaves the buffer empty. *)
Theorem completed_tick_flushes_telemetry_in_order
    (finalLines : list FinalLine) (e : Engine) (st : StoryState)
    (r : TickResult) (e' : Engine) :
  currentState e = Some st ->
  tick (Some finalLines) e = (Ok r, e') ->
  telemetryBuffer e' = []
  /\ exists body : list TelemetryEvent,
       telemetryEvents r =
       telemetryBuffer e
       ++ TurnStart (getCurrentAct st) (sc_index (currentScene st))
          :: body ++ map TurnEnd (producedLines r)
       /\ Forall loopEvent body
       /\ transitionEvents body = transitions r
       /\ In (MetricTick "exchange_counter" (inject_Z (exchangeCounter e + 1))) body.
Proof. apply tick_telemetry_shape. Qed.

(** X4.  An accepted nudge waits in the pending list, after the nudges
    already pending, until the next tick that completes: that tick delivers
    the [nudge.applied] event of the nudge ahead of its own [turn.start] and
    leaves the pending list empty. *)
Theorem accepted_nudge_is_pending_until_the_next_completed_tick
    (nudge : Nudge) (verdict : option bool) (e e1 : Engine)
    (finalLines : list FinalLine) (r : TickResult) (e2 : Engine) :
  applyNudge nudge verdict e = (Ok true, e1) ->
  tick (Some finalLines) e1 = (Ok r, e2) ->
  pendingOf e1 = pendingOf e ++ [nudge]
  /\ pendingOf e2 = []
  /\ exists (act : option Act) (scene : Z) (rest : list TelemetryEvent),
       telemetryEvents r =
       telemetryBuffer e ++ NudgeApplied nudge :: TurnStart act scene :: rest.
Proof.
  intros Ha Ht.
  assert (exists st, currentState e = Some st
                     /\ currentState e1 = Some (scheduleNudge nudge (exchangeCounter e) st)
                     /\ telemetryBuffer e1 = telemetryBuffer e ++ [NudgeApplied nudge])
    as [st [Hst [Hst1 Hbuf]]].
  { unfold applyNudge in Ha.
    destruct (currentState e) as [st|]; [|discriminate].
    exists st. split; [reflexivity|].
    destruct (getCurrentAct st); [|discriminate].
    destruct (includesNudge _ _); [discriminate|].
    destruct (negb _); [discriminate|].
    destruct (_ && _); [discriminate|].
    destruct verdict as [[|]|]; try discriminate.
    injection Ha as <-. split; reflexivity. }
  split; [|split].
  - unfold pendingOf. rewrite Hst, Hst1. simpl.
    unfold scheduleNudge. destruct (n_intensity nudge); reflexivity.
  - unfold tick in Ht. rewrite Hst1 in Ht.
    destruct (getCurrentAct (sortedState _)); [|discriminate].
    injection Ht as _ <-. reflexivity.
  - destruct (tick_telemetry_shape finalLines e1 _ r e2 Hst1 Ht) as [_ [body [Hev _]]].
    eexists _, _, _. rewrite Hev, Hbuf, <- app_assoc. reflexivity.
Qed.

End NudgeLifecycle.

(** ** Recovery bias, recent lines, callbacks *)

Section Windows.

Open Scope Q_scope.

Lemma tick_recovery (finalLines : list FinalLine) (e : Engine) (st : StoryState)
    (r : TickResult) (e' : Engine) :
  currentState e = Some st ->
  tick (Some finalLines) e = (Ok r, e') ->
  recoveryOf e' = recoveryAfterExchange (recoveryBias st).
Proof.
  intros Hst. unfold tick. rewrite Hst.
  destruct (getCurrentAct (sortedState st)); [|discriminate].
  intros [= _ <-]. unfold recoveryOf. simpl.
  destruct (processLines_frame finalLines (mkLoop (sortedState st) [] [] []))
    as (_ & Hb & _). simpl in Hb. rewrite Hb. reflexivity.
Qed.

(** X5.  The recovery bias that an accepted major nudge installs lasts two
    exchanges: it shows 2 exchanges left right away, 1 after the next tick
    that completes, and is gone after the second.  A tick that fails in
    between does not use it up. *)
Theorem recovery_bias_lasts_two_completed_ticks
    (nudge : Nudge) (verdict : option bool) (e e1 e2 e3 : Engine)
    (lines1 lines2 : list FinalLine) (r1 r2 : TickResult) :
  n_intensity nudge = major ->
  applyNudge nudge verdict e = (Ok true, e1) ->
  tick (Some lines1) e1 = (Ok r1, e2) ->
  tick (Some lines2) e2 = (Ok r2, e3) ->
  recoveryOf e1 = Some 2%Z
  /\ recoveryOf (snd (tick None e1)) = Some 2%Z
  /\ recoveryOf e2 = Some 1%Z
  /\ recoveryOf e3 = None.
Proof.
  intros Hmajor Ha Ht1 Ht2.
  assert (exists st1, currentState e1 = Some st1 /\ recoveryBias st1 = Some 2%Z)
    as [st1 [Hst1 Hb1]].
  { unfold applyNudge in Ha.
    destruct (currentState e) as [st|]; [|discriminate].
    destruct (getCurrentAct st); [|discriminate].
    destruct (includesNudge _ _); [discriminate|].
    destruct (negb _); [discriminate|].
    destruct (_ && _); [discriminate|].
    destruct verdict as [[|]|]; try discriminate.
    injection Ha as <-. eexists. split; [reflexivity|].
    unfold scheduleNudge. rewrite Hmajor. reflexivity. }
  pose proof (tick_recovery lines1 e1 st1 r1 e2 Hst1 Ht1) as H2.
  rewrite Hb1 in H2. simpl in H2.
  assert (exists st2, currentState e2 = Some st2 /\ recoveryBias st2 = Some 1%Z)
    as [st2 [Hst2 Hb2]].
  { unfold recoveryOf in H2. destruct (currentState e2) as [st2|]; [|discriminate].
    exists st2. split; [reflexivity | exact H2]. }
  pose proof (tick_recovery lines2 e2 st2 r2 e3 Hst2 Ht2) as H3.
  rewrite Hb2 in H3. simpl in H3.
  split; [unfold recoveryOf; rewrite Hst1; exact Hb1|].
  split; [|split; assumption].
  unfold tick. rewrite Hst1. unfold recoveryOf.
  destruct (getCurrentAct (sortedState st1)); simpl; exact Hb1.
Qed.

(** *** The window of recent lines *)

Lemma slice_last_short {A} (n : nat) (l : list A) :
  (length l <= n)%nat -> slice_last n l = l.
Proof.
  intros H. unfold slice_last. replace (length l - n)%nat with 0%nat by lia. reflexivity.
Qed.

Lemma slice_last_length {A} (n : nat) (l : list A) :
  length (slice_last n l) = Nat.min n (length l).
Proof. unfold slice_last. rewrite length_drop. lia. Qed.

Lemma slice_last_app_slice {A} (n : nat) (l k : list A) :
  slice_last n (slice_last n l ++ k) = slice_last n (l ++ k).
Proof.
  unfold slice_last at 2.
  rewrite <- (take_drop (length l - n) l) at 3.
  rewrite <- app_assoc.
  set (a := take (length l - n) l). set (b := drop (length l - n) l ++ k).
  unfold slice_last. rewrite (length_app a b).
  assert (length a <= length a + length b - n)%nat as Hle.
  { subst a b. rewrite length_take, length_app, length_drop. lia. }
  replace (length a + length b - n)%nat with (length a + (length b - n))%nat by lia.
  rewrite drop_app_add. reflexivity.
Qed.

Lemma updateLoveGraph_record (line : SpokenLine) (st : StoryState) :
  recordFrame st (updateLoveGraph line st).
Proof.
  unfold updateLoveGraph. destruct (loveGraph (sortedState st) !! _); repeat split.
Qed.

Lemma checkActAdvancement_record (st : StoryState) :
  recordFrame st (snd (checkActAdvancement st)).
Proof.
  unfold checkActAdvancement.
  destruct (getCurrentAct st); [|repeat split].
  destruct (List.find _ checkpoints); [|repeat split].
  destruct (loveGraph (sortedState st) !! _); repeat split.
Qed.

Lemma checkPlateau_record (st : StoryState) : recordFrame st (fst (checkPlateau st)).
Proof.
  unfold checkPlateau.
  destruct (length _ <? 3)%nat; [repeat split|].
  destruct (_ || _); repeat split.
Qed.

(** The filter of [processLine] on the callbacks, with or without tokens. *)
Lemma processLine_callbacks (fl : FinalLine) (st : StoryState) :
  callbacks (snd (processLine fl st)) =
  List.filter (fun token => negb (mem_string token (fl_used_tokens fl))) (callbacks st).
Proof.
  unfold processLine. simpl.
  destruct (fl_used_tokens fl) as [|u us]; simpl; [|reflexivity].
  induction (callbacks st) as [|c cs IH]; simpl; [reflexivity | f_equal; exact IH].
Qed.

Lemma processLine_recentLines (fl : FinalLine) (st : StoryState) :
  recentLines (snd (processLine fl st)) = slice_last 16 (recentLines st ++ [spokenOf fl]).
Proof.
  unfold processLine, spokenOf. simpl.
  destruct (16 <? length _)%nat eqn:E; [reflexivity|].
  apply Nat.ltb_ge in E. symmetry. apply slice_last_short. exact E.
Qed.

Lemma advanceAct_record (c : Checkpoint) (st : StoryState) :
  recentLines (snd (advanceAct c st)) = recentLines st
  /\ callbacks (snd (advanceAct c st)) = callbacks st.
Proof. split; reflexivity. Qed.

Lemma processFinalLine_record (ls : LoopState) (fl : FinalLine) :
  recentLines (ls_state (processFinalLine ls fl))
  = slice_last 16 (recentLines (ls_state ls) ++ [spokenOf fl])
  /\ callbacks (ls_state (processFinalLine ls fl))
     = List.filter (fun token => negb (mem_string token (fl_used_tokens fl)))
         (callbacks (ls_state ls)).
Proof.
  rewrite processFinalLine_steps.
  rewrite <- processLine_recentLines, <- processLine_callbacks.
  set (st1 := snd (processLine fl (ls_state ls))).
  set (st2 := updateLoveGraph (spokenOf fl) st1).
  destruct (updateLoveGraph_record (spokenOf fl) st1) as (R2 & C2 & _).
  destruct (checkActAdvancement_record st2) as (R3 & C3 & _).
  fold st2 in R2, C2.
  set (st4 := match fst (checkActAdvancement st2) with
              | Some c => snd (advanceAct c (snd (checkActAdvancement st2)))
              | None => snd (checkActAdvancement st2)
              end).
  assert (recentLines st4 = recentLines st1 /\ callbacks st4 = callbacks st1) as [R4 C4].
  { subst st4. destruct (fst (checkActAdvancement st2)) as [c|].
    - destruct (advanceAct_record c (snd (checkActAdvancement st2))) as [Ra Ca].
      split; congruence.
    - split; congruence. }
  destruct (checkPlateau_record st4) as (R5 & C5 & _).
  cbn [ls_state]. split; congruence.
Qed.

Lemma filter_filter_used (fl : FinalLine) (rest : list FinalLine) (cbs : list string) :
  List.filter (fun token => negb (usedBy rest token))
    (List.filter (fun token => negb (mem_string token (fl_used_tokens fl))) cbs)
  = List.filter (fun token => negb (usedBy (fl :: rest) token)) cbs.
Proof.
  induction cbs as [|c cs IH]; simpl; [reflexivity|].
  destruct (mem_string c (fl_used_tokens fl)); simpl; [exact IH|].
  destruct (usedBy rest c); simpl; [exact IH | f_equal; exact IH].
Qed.

Lemma processLines_callbacks (fls : list FinalLine) (ls : LoopState) :
  callbacks (ls_state (foldl processFinalLine ls fls))
  = List.filter (fun token => negb (usedBy fls token)) (callbacks (ls_state ls)).
Proof.
  revert ls. induction fls as [|fl rest IH]; intros ls; simpl.
  - induction (callbacks (ls_state ls)) as [|c cs IHc]; simpl;
      [reflexivity | f_equal; exact IHc].
  - rewrite IH, (proj2 (processFinalLine_record ls fl)). apply filter_filter_used.
Qed.

Lemma processLines_recentLines (fls : list FinalLine) (ls : LoopState) :
  (length (recentLines (ls_state ls)) <= 16)%nat ->
  recentLines (ls_state (foldl processFinalLine ls fls))
  = slice_last 16 (recentLines (ls_state ls) ++ map spokenOf fls).
Proof.
  revert ls. induction fls as [|fl rest IH]; intros ls Hlen; simpl.
  - rewrite app_nil_r, slice_last_short by exact Hlen. reflexivity.
  - pose proof (proj1 (processFinalLine_record ls fl)) as Hr1.
    rewrite IH by (rewrite Hr1, slice_last_length; lia).
    rewrite Hr1, slice_last_app_slice, <- app_assoc. reflexivity.
Qed.

(** A property of the engine that the constructor establishes and every
    call keeps holds after every sequence of calls. *)
Lemma run_invariant (P : Engine -> Prop) :
  P newEngine ->
  (forall (c : Call) (e : Engine), P e -> P (snd (call c e))) ->
  forall cs : list Call, P (run cs newEngine).
Proof.
  intros H0 Hstep cs. generalize newEngine H0.
  induction cs as [|c rest IH]; intros e He; [exact He|].
  unfold run. simpl. apply IH. apply Hstep. exact He.
Qed.

Lemma applyNudge_state (n : Nudge) (v : option bool) (e : Engine) :
  snd (applyNudge n v e) = e
  \/ exists st, currentState e = Some st
       /\ snd (applyNudge n v e)
          = emitTelemetry (NudgeApplied n)
              (setState (scheduleNudge n (exchangeCounter e) st) e).
Proof.
  unfold applyNudge.
  destruct (currentState e) as [st|]; [|left; reflexivity].
  destruct (getCurrentAct st); [|left; reflexivity].
  destruct (includesNudge _ _); [left; reflexivity|].
  destruct (negb _); [left; reflexivity|].
  destruct (_ && _); [left; reflexivity|].
  destruct v as [[|]|]; try (left; reflexivity).
  right. exists st. split; reflexivity.
Qed.

Lemma tick_state (beat : option (list FinalLine)) (e : Engine) :
  match currentState e with
  | None => snd (tick beat e) = e
  | Some st =>
      (exists fls, beat = Some fls
         /\ currentState (snd (tick beat e))
            = Some (sortedState (endOfExchange
                (ls_state (foldl processFinalLine (mkLoop (sortedState st) [] [] []) fls)))))
      \/ currentState (snd (tick beat e)) = Some (sortedState st)
  end.
Proof.
  unfold tick. destruct (currentState e) as [st|]; [|reflexivity].
  destruct (getCurrentAct (sortedState st)); [|right; reflexivity].
  destruct beat as [fls|]; [|right; reflexivity].
  left. exists fls. split; reflexivity.
Qed.

Lemma call_recentBounded (c : Call) (e : Engine) :
  recentBounded e -> recentBounded (snd (call c e)).
Proof.
  unfold recentBounded. intros H. destruct c as [seed|n v|beat|]; simpl.
  - simpl. lia.
  - destruct (applyNudge n v e) as [r e'] eqn:Ea. simpl.
    destruct (applyNudge_state n v e) as [Hs|[st [Hst Hs]]];
      rewrite Ea in Hs; simpl in Hs; subst e'; [exact H|].
    simpl. rewrite Hst in H. unfold scheduleNudge. destruct (n_intensity n); exact H.
  - destruct (tick beat e) as [r e'] eqn:Et. simpl.
    pose proof (tick_state beat e) as Hs. rewrite Et in Hs. simpl in Hs.
    destruct (currentState e) as [st|] eqn:Hst; [|subst e'; rewrite Hst; exact I].
    destruct Hs as [[fls [_ ->]]| ->]; [|exact H].
    simpl. rewrite (processLines_recentLines fls (mkLoop (sortedState st) [] [] []) H).
    rewrite slice_last_length. lia.
  - unfold afterGetState. destruct (currentState e) as [st|] eqn:Hst; simpl;
      [exact H | rewrite Hst; exact I].
Qed.

(** X6.  The engine keeps the 16 most recent lines.  In every state it can
    reach the window holds at most 16 lines, and a tick that completes
    leaves in it the last 16 of the lines it held followed by the lines
    the tick produced; the summary shows the last 3 of them. *)
Theorem recent_lines_are_the_last_sixteen
    (calls : list Call) (st : StoryState) (finalLines : list FinalLine)
    (r : TickResult) (e' : Engine) :
  currentState (run calls newEngine) = Some st ->
  tick (Some finalLines) (run calls newEngine) = (Ok r, e') ->
  (length (recentLines st) <= 16)%nat
  /\ exists st', currentState e' = Some st'
       /\ recentLines st' = slice_last 16 (recentLines st ++ producedLines r)
       /\ (length (recentLines st') <= 16)%nat
       /\ sum_lastLines (updatedSummary r) = slice_last 3 (recentLines st').
Proof.
  intros Hst Ht.
  pose proof (run_invariant recentBounded I call_recentBounded calls) as Hb.
  unfold recentBounded in Hb. rewrite Hst in Hb. split; [exact Hb|].
  unfold tick in Ht. rewrite Hst in Ht.
  destruct (getCurrentAct (sortedState st)); [|discriminate].
  injection Ht as <- <-. simpl. eexists. split; [reflexivity|]. simpl.
  rewrite (processLines_recentLines finalLines (mkLoop (sortedState st) [] [] []) Hb).
  rewrite processLines_produced. simpl.
  split; [reflexivity|]. split; [rewrite slice_last_length; lia | reflexivity].
Qed.

(** X7.  A tick that completes removes from the open callbacks exactly the
    tokens that one of its lines used, and keeps the others in order: the
    callbacks never grow during an episode. *)
Theorem completed_tick_drops_exactly_the_used_callbacks
    (finalLines : list FinalLine) (e : Engine) (st : StoryState)
    (r : TickResult) (e' : Engine) :
  currentState e = Some st ->
  tick (Some finalLines) e = (Ok r, e') ->
  exists st', currentState e' = Some st'
    /\ callbacks st' = List.filter (fun token => negb (usedBy finalLines token)) (callbacks st)
    /\ (forall token, In token (callbacks st') ->
          In token (callbacks st) /\ usedBy finalLines token = false)
    /\ (length (callbacks st') <= length (callbacks st))%nat.
Proof.
  intros Hst Ht. unfold tick in Ht. rewrite Hst in Ht.
  destruct (getCurrentAct (sortedState st)); [|discriminate].
  injection Ht as _ <-. eexists. split; [reflexivity|]. simpl.
  rewrite (processLines_callbacks finalLines (mkLoop (sortedState st) [] [] [])). simpl.
  split; [reflexivity|]. split.
  - intros token Hin. apply filter_In in Hin. destruct Hin as [Hin Hu].
    split; [exact Hin | apply negb_true_iff; exact Hu].
  - apply filter_length_le.
Qed.

End Windows.

(** ** Scenes *)

Section Scenes.

Lemma scenesConsistent_indices (past : list Scene) (cur : Scene) :
  map sc_index (past ++ [cur]) = map Z.of_nat (seq 0 (length (past ++ [cur])))
  <-> map sc_index past = map Z.of_nat (seq 0 (length past))
      /\ sc_index cur = Z.of_nat (length past).
Proof.
  rewrite length_app. simpl. rewrite Nat.add_1_r, seq_S, !map_app. simpl. split.
  - intros H. apply app_inj_tail in H. exact H.
  - intros [-> ->]. reflexivity.
Qed.

Lemma scenesConsistent_same (st st' : StoryState) :
  pastScenes st' = pastScenes st -> currentScene st' = currentScene st ->
  actPath st' = actPath st ->
  scenesConsistent st -> scenesConsistent st'.
Proof.
  unfold scenesConsistent, allScenes. intros -> -> ->. exact (fun H => H).
Qed.

Lemma advanceAct_scenes (c : Checkpoint) (st : StoryState) :
  scenesConsistent st -> scenesConsistent (snd (advanceAct c st)).
Proof.
  unfold scenesConsistent, allScenes. intros (Hact & Hidx & Hclosed & Hopen & Hcnt).
  apply scenesConsistent_indices in Hidx. destruct Hidx as [Hidx Hcur].
  unfold advanceAct. simpl.
  rewrite map_app in Hact. simpl in Hact.
  split; [|split; [|split; [|split]]].
  - rewrite !map_app. simpl. rewrite <- Hact. reflexivity.
  - apply scenesConsistent_indices. split.
    + apply scenesConsistent_indices. split; [exact Hidx | exact Hcur].
    + rewrite length_app. simpl. rewrite Hcur. lia.
  - apply Forall_app. split; [exact Hclosed|]. constructor; [reflexivity | constructor].
  - reflexivity.
  - apply Forall_app in Hcnt. destruct Hcnt as [Hpast Hlast].
    apply Forall_app. split.
    + apply Forall_app. split; [exact Hpast|].
      constructor; [|constructor]. simpl. exact (Forall_inv Hlast).
    + constructor; [simpl; lia | constructor].
Qed.

Lemma scheduleNudge_scenes (n : Nudge) (counter : Z) (st : StoryState) :
  scenesConsistent st -> scenesConsistent (scheduleNudge n counter st).
Proof.
  unfold scenesConsistent, allScenes. intros (Hact & Hidx & Hclosed & Hopen & Hcnt).
  rewrite map_app in Hact. apply scenesConsistent_indices in Hidx.
  apply Forall_app in Hcnt. destruct Hcnt as [Hpast Hlast].
  pose proof (Forall_inv Hlast) as [Hmaj Hmin].
  unfold scheduleNudge. destruct (n_intensity n); simpl.
  all: split; [rewrite map_app; exact Hact|].
  all: split; [apply scenesConsistent_indices; exact Hidx|].
  all: split; [exact Hclosed|]. all: split; [exact Hopen|].
  all: apply Forall_app; split; [exact Hpast|].
  all: constructor; [simpl; lia | constructor].
Qed.

Lemma processFinalLine_scenes (ls : LoopState) (fl : FinalLine) :
  scenesConsistent (ls_state ls) -> scenesConsistent (ls_state (processFinalLine ls fl)).
Proof.
  intros H. rewrite processFinalLine_steps. cbn [ls_state].
  set (st1 := snd (processLine fl (ls_state ls))).
  set (st2 := updateLoveGraph (spokenOf fl) st1).
  assert (scenesConsistent st2) as H2.
  { destruct (updateLoveGraph_record (spokenOf fl) st1) as (_ & _ & P & C).
    apply (scenesConsistent_same st1); [exact P | exact C | apply updateLoveGraph_actPath|].
    exact H. }
  assert (scenesConsistent (snd (checkActAdvancement st2))) as H3.
  { destruct (checkActAdvancement_record st2) as (_ & _ & P & C).
    apply (scenesConsistent_same st2);
      [exact P | exact C | apply checkActAdvancement_actPath | exact H2]. }
  set (st4 := match fst (checkActAdvancement st2) with
              | Some c => snd (advanceAct c (snd (checkActAdvancement st2)))
              | None => snd (checkActAdvancement st2)
              end).
  assert (scenesConsistent st4) as H4.
  { subst st4. destruct (fst (checkActAdvancement st2)) as [c|];
      [apply advanceAct_scenes|]; exact H3. }
  destruct (checkPlateau_record st4) as (_ & _ & P & C).
  apply (scenesConsistent_same st4); [exact P | exact C | apply checkPlateau_actPath | exact H4].
Qed.

Lemma processLines_scenes (fls : list FinalLine) (ls : LoopState) :
  scenesConsistent (ls_state ls) ->
  scenesConsistent (ls_state (foldl processFinalLine ls fls)).
Proof.
  revert ls. induction fls as [|fl rest IH]; intros ls H; simpl; [exact H|].
  apply IH, processFinalLine_scenes, H.
Qed.

Lemma call_scenesConsistent (c : Call) (e : Engine) :
  engineScenesConsistent e -> engineScenesConsistent (snd (call c e)).
Proof.
  unfold engineScenesConsistent. intros H. destruct c as [seed|n v|beat|]; simpl.
  - unfold scenesConsistent, allScenes. simpl.
    repeat split; repeat constructor; simpl; lia.
  - destruct (applyNudge n v e) as [r e'] eqn:Ea. simpl.
    destruct (applyNudge_state n v e) as [Hs|[st [Hst Hs]]];
      rewrite Ea in Hs; simpl in Hs; subst e'; [exact H|].
    simpl. rewrite Hst in H. apply scheduleNudge_scenes. exact H.
  - destruct (tick beat e) as [r e'] eqn:Et. simpl.
    pose proof (tick_state beat e) as Hs. rewrite Et in Hs. simpl in Hs.
    destruct (currentState e) as [st|] eqn:Hst; [|subst e'; rewrite Hst; exact I].
    destruct Hs as [[fls [_ ->]]| ->]; [|exact H].
    apply (processLines_scenes fls (mkLoop (sortedState st) [] [] [])). exact H.
  - unfold afterGetState. destruct (currentState e) as [st|] eqn:Hst; simpl;
      [exact H | rewrite Hst; exact I].
Qed.

(** X8.  In every state the engine can reach, the episode has one scene per
    entry of its act path, in order: the scene is of that act and its index
    is its position counted from 0.  Every scene but the current one was
    closed with reason checkpoint, the current scene is open and is the
    scene of the current act, and no scene counts a negative number of
    nudges. *)
Theorem scenes_follow_the_act_path (calls : list Call) (st : StoryState) :
  currentState (run calls newEngine) = Some st ->
  scenesConsistent st
  /\ getCurrentAct st = Some (sc_act (currentScene st))
  /\ sc_index (currentScene st) = Z.of_nat (length (pastScenes st))
  /\ length (actPath st) = S (length (pastScenes st)).
Proof.
  intros Hst.
  pose proof (run_invariant engineScenesConsistent I call_scenesConsistent calls) as H.
  unfold engineScenesConsistent in H. rewrite Hst in H.
  split; [exact H|].
  destruct H as (Hact & Hidx & _). unfold allScenes in *.
  apply scenesConsistent_indices in Hidx. destruct Hidx as [_ Hcur].
  split; [|split; [exact Hcur|]].
  - unfold getCurrentAct. rewrite <- Hact, map_app. simpl. apply last_snoc.
  - rewrite <- Hact, length_map, length_app. simpl. lia.
Qed.

End Scenes.

(** ** Text similarity and the plateau detector *)

Section Plateau.

Open Scope Q_scope.














End Plateau.

(** ** The pair keys of the relationship graph *)

Section PairKeys.

Open Scope Q_scope.

Lemma initRow_lookup (c : string) (rest : list string) (g : LoveGraph) (key : string) :
  foldl (fun g' d => <[pairKeyOf c d := basePair]> g') g rest !! key =
  if existsb (fun d => String.eqb key (pairKeyOf c d)) rest then Some basePair
  else g !! key.
Proof.
  revert g. induction rest as [|d rest IH]; intros g; simpl; [reflexivity|].
  rewrite IH. destruct (String.eqb key (pairKeyOf c d)) eqn:E; simpl.
  - apply String.eqb_eq in E. subst key. rewrite lookup_insert_eq.
    destruct (existsb _ rest); reflexivity.
  - apply String.eqb_neq in E. rewrite lookup_insert_ne by congruence. reflexivity.
Qed.

Lemma initLoveGraph_lookup (cs : list string) (g : LoveGraph) (key : string) :
  initLoveGraph cs g !! key = if pairOfCastb cs key then Some basePair else g !! key.
Proof.
  revert g. induction cs as [|c rest IH]; intros g; simpl; [reflexivity|].
  rewrite IH, initRow_lookup.
  destruct (existsb _ rest); destruct (pairOfCastb rest key); reflexivity.
Qed.

Lemma pairOfCastb_spec (cs : list string) (key : string) :
  pairOfCastb cs key = true <-> pairOfCast cs key.
Proof.
  induction cs as [|c rest IH]; simpl.
  - split; [discriminate|]. intros (i & j & a & b & _ & Hi & _). discriminate.
  - rewrite orb_true_iff, IH, existsb_exists. split.
    + intros [[d [Hin Hk]]|(i & j & a & b & Hij & Hi & Hj & Hk)].
      * apply String.eqb_eq in Hk.
        apply list_elem_of_In, list_elem_of_lookup in Hin. destruct Hin as [j Hj].
        exists 0%nat, (S j), c, d. repeat split; try assumption. lia.
      * exists (S i), (S j), a, b. repeat split; try assumption. lia.
    + intros (i & j & a & b & Hij & Hi & Hj & Hk).
      destruct i as [|i]; simpl in Hi.
      * injection Hi as <-. destruct j as [|j]; [lia|]. simpl in Hj.
        left. exists b. split; [|apply String.eqb_eq; exact Hk].
        apply list_elem_of_In, list_elem_of_lookup. exists j. exact Hj.
      * destruct j as [|j]; [lia|]. simpl in Hj.
        right. exists i, j, a, b. repeat split; try assumption. lia.
Qed.

(** X11.  [startEpisode] gives the relationship graph one record for each
    pair of characters, under the key first-second in the order of the
    seed, and nothing else: a key holds a record exactly when it is the key
    of two characters of the list, the first listed before the second, and
    the record is then the baseline (0.1, 0.1, 0.2, 0.1). *)
Theorem startEpisode_tracks_each_pair_in_seed_order
    (seed : EpisodeSeed) (e : Engine) (key : string) :
  exists (summary : EpisodeSummary) (e' : Engine),
    startEpisode seed e = (Ok summary, e')
    /\ (pairOfCast (characters seed) key ->
        loveGraphSnapshot summary !! key = Some basePair)
    /\ (~ pairOfCast (characters seed) key ->
        loveGraphSnapshot summary !! key = None).
Proof.
  eexists _, _. split; [reflexivity|]. simpl.
  rewrite initLoveGraph_lookup, lookup_empty.
  pose proof (pairOfCastb_spec (characters seed) key) as Hs.
  destruct (pairOfCastb (characters seed) key).
  - split; [reflexivity|]. intros Hn. exfalso. apply Hn, Hs. reflexivity.
  - split; [|reflexivity]. intros Hp. apply Hs in Hp. discriminate.
Qed.

End PairKeys.

(** ** The spotlight key *)

Section SpotlightKey.

Open Scope Q_scope.

Lemma ltb_asym (a b : string) : String.ltb b a = true -> String.ltb a b = false.
Proof.
  unfold String.ltb. rewrite (String.compare_antisym a b).
  destruct (String.compare b a); simpl; congruence.
Qed.

Lemma sortSpotlight_idempotent (sp : Spotlight) :
  sortSpotlight (sortSpotlight sp) = sortSpotlight sp.
Proof.
  destruct sp as [[a|] [b|]]; simpl; try reflexivity.
  destruct (String.ltb b a) eqn:E; simpl.
  - rewrite (ltb_asym a b E). reflexivity.
  - rewrite E. reflexivity.
Qed.

Lemma spotlightKey_sortedState (st : StoryState) :
  spotlightKey (sortedState st) = spotlightKey st.
Proof.
  unfold spotlightKey, sortedState. simpl. rewrite sortSpotlight_idempotent. reflexivity.
Qed.









End SpotlightKey.

(** ** Episodes over time *)

Section OverTime.

(** X13.  Until an episode is started nothing happens: every [tick] fails
    with its precondition error, every [applyNudge] returns false, and the
    engine stays as the constructor left it (no state, counter 0, empty
    telemetry buffer). *)
Theorem nothing_happens_before_an_episode_starts (cs : list Call) :
  noRestart cs ->
  run cs newEngine = newEngine
  /\ Forall idleOutcome (outcomes cs newEngine).
Proof.
  induction cs as [|c rest IH]; intros Hno; simpl.
  - split; [reflexivity | constructor].
  - inversion Hno as [|? ? Hc Hrest]; subst.
    destruct (IH Hrest) as [Hrun Hout].
    assert (snd (call c newEngine) = newEngine /\ idleOutcome (fst (call c newEngine)))
      as [Hs Ho].
    { destruct c as [seed|n v|beat|]; [discriminate| | |]; split; reflexivity || exact I. }
    unfold run in *. simpl. rewrite Hs. split; [exact Hrun|].
    constructor; [exact Ho | exact Hout].
Qed.

(** X14.  Within an episode the exchange counter is the number of ticks
    called since [startEpisode], the failed ones included, and the exchange
    recorded for the last major nudge lies between 0 and the counter. *)
Theorem exchange_counter_counts_the_ticks_of_the_episode
    (seed : EpisodeSeed) (e0 : Engine) (cs : list Call) :
  noRestart cs ->
  exchangeCounter (run cs (snd (startEpisode seed e0))) = ticksIn cs
  /\ (0 <= lastMajorOf (run cs (snd (startEpisode seed e0))) <= ticksIn cs)%Z.
Proof.
  intros Hno.
  destruct (startEpisode_cadence seed e0) as [Hinv [Hc Hl]].
  destruct (run_cadence cs _ Hno Hinv) as [[st [Hst [_ Hle]]] [Hcnt Hlast]].
  rewrite Hc in Hcnt. rewrite Hl in Hlast.
  split; [lia|]. split; [exact Hlast|].
  unfold lastMajorOf. rewrite Hst. simpl. lia.
Qed.

Lemma processLines_prefix (fls : list FinalLine) (ls : LoopState) :
  actPath (ls_state ls) `prefix_of` actPath (ls_state (foldl processFinalLine ls fls)).
Proof.
  revert ls. induction fls as [|fl rest IH]; intros ls; simpl; [reflexivity|].
  etransitivity; [|apply IH].
  destruct (processFinalLine_step ls fl) as [[-> _]|[cp [_ [_ [-> _]]]]];
    [reflexivity | apply prefix_app_r; reflexivity].
Qed.

Lemma call_prefix (c : Call) (e : Engine) (st : StoryState) :
  isStart c = false ->
  currentState e = Some st ->
  exists st', currentState (snd (call c e)) = Some st'
    /\ actPath st `prefix_of` actPath st'.
Proof.
  intros Hc Hst. destruct c as [seed|n v|beat|]; [discriminate| | |]; simpl.
  - destruct (applyNudge n v e) as [r e'] eqn:Ea. simpl.
    destruct (applyNudge_state n v e) as [Hs|[st0 [Hst0 Hs]]];
      rewrite Ea in Hs; simpl in Hs; subst e'; [exists st; split; [exact Hst | reflexivity]|].
    rewrite Hst in Hst0. injection Hst0 as <-.
    eexists. split; [reflexivity|].
    unfold scheduleNudge. destruct (n_intensity n); reflexivity.
  - destruct (tick beat e) as [r e'] eqn:Et. simpl.
    pose proof (tick_state beat e) as Hs. rewrite Et, Hst in Hs. simpl in Hs.
    destruct Hs as [[fls [_ ->]]| ->].
    + eexists. split; [reflexivity|].
      apply (processLines_prefix fls (mkLoop (sortedState st) [] [] [])).
    + eexists. split; [reflexivity | reflexivity].
  - unfold afterGetState. rewrite Hst. simpl.
    eexists. split; [reflexivity | reflexivity].
Qed.

Lemma run_prefix (cs : list Call) (e : Engine) (st : StoryState) :
  noRestart cs ->
  currentState e = Some st ->
  exists st', currentState (run cs e) = Some st'
    /\ actPath st `prefix_of` actPath st'.
Proof.
  revert e st. induction cs as [|c rest IH]; intros e st Hno Hst.
  - exists st. split; [exact Hst | reflexivity].
  - inversion Hno as [|? ? Hc Hrest]; subst.
    destruct (call_prefix c e st Hc Hst) as [st1 [Hst1 Hp1]].
    destruct (IH _ st1 Hrest Hst1) as [st2 [Hst2 Hp2]].
    exists st2. split; [exact Hst2 | etransitivity; eassumption].
Qed.

(** X15.  Within an episode the act path only grows at its end: the path of
    an earlier state is a prefix of the path of every later state.  Act 5
    is final: once the episode is in act 5, its act path never changes
    again until a new episode is started. *)
Theorem act_path_only_grows_and_act_5_is_final
    (calls cs : list Call) (st : StoryState) :
  currentState (run calls newEngine) = Some st ->
  noRestart cs ->
  exists st' : StoryState,
    currentState (run cs (run calls newEngine)) = Some st'
    /\ actPath st `prefix_of` actPath st'
    /\ (getCurrentAct st = Some Act5 -> actPath st' = actPath st).
Proof.
  intros Hst Hno.
  destruct (run_prefix cs _ st Hno Hst) as [st' [Hst' Hp]].
  exists st'. split; [exact Hst'|]. split; [exact Hp|].
  intros H5.
  pose proof (run_sequential calls newEngine I) as Hs.
  unfold engineSequential in Hs. rewrite Hst in Hs.
  pose proof (run_sequential (calls ++ cs) newEngine I) as Hs'.
  rewrite run_app in Hs'. unfold engineSequential in Hs'. rewrite Hst' in Hs'.
  destruct Hs as [k [Hk Hpath]]. destruct Hs' as [k' [Hk' Hpath']].
  unfold getCurrentAct in H5. rewrite Hpath in H5.
  assert (k = 5)%nat as ->.
  { assert (k = 1 \/ k = 2 \/ k = 3 \/ k = 4 \/ k = 5)%nat as Hc by lia.
    destruct Hc as [->|[->|[->|[->| ->]]]]; simpl in H5; try discriminate. reflexivity. }
  pose proof (prefix_length _ _ Hp) as Hlen.
  rewrite Hpath, Hpath' in Hlen. rewrite !length_take in Hlen. simpl in Hlen.
  assert (k' = 5)%nat as -> by lia.
  congruence.
Qed.

End OverTime.

(** * Further properties of the evaluation engine *)

Section EvaluationScores.

Open Scope Q_scope.

Variable embeddingNovelty : Nudge -> list SpokenLine -> Q.

Lemma actCoherenceWeights_cases (act : Act) :
  EvaluationEngine.actCoherenceWeights act == 0.7
  \/ EvaluationEngine.actCoherenceWeights act == 0.9
  \/ EvaluationEngine.actCoherenceWeights act == 1.2
  \/ EvaluationEngine.actCoherenceWeights act == 1.6
  \/ EvaluationEngine.actCoherenceWeights act == 1.8.
Proof. destruct act; simpl; intuition reflexivity. Qed.

(** X16.  Lambda, the weight of the coherence cost, is positive and grows
    with the fragility it is given and with the act; for a fragility
    between 0 and 1 it lies between 0.6 and 1.8 times the act's base
    weight, and at fragility 1 it is three times what it is at 0. *)
Theorem lambda_scales_with_fragility_and_act (f f' : Q) (act act' : Act) :
  0 <= f -> f <= f' -> f' <= 1 -> (act_num act <= act_num act')%Z ->
  0.6 * EvaluationEngine.actCoherenceWeights act <= EvaluationEngine.calculateLambda f act
  /\ EvaluationEngine.calculateLambda f act <= EvaluationEngine.calculateLambda f' act
  /\ EvaluationEngine.calculateLambda f' act <= 1.8 * EvaluationEngine.actCoherenceWeights act
  /\ EvaluationEngine.calculateLambda f act <= EvaluationEngine.calculateLambda f act'
  /\ EvaluationEngine.calculateLambda 1 act == 3 * EvaluationEngine.calculateLambda 0 act
  /\ 0 < EvaluationEngine.calculateLambda f act.
Proof.
  intros H0 Hff H1 Hact. unfold EvaluationEngine.calculateLambda.
  destruct act, act'; simpl in Hact; try lia; simpl; repeat split; lra.
Qed.

Lemma detectContradictions_range (ev : EvaluationEngine.Evaluator) :
  0 <= EvaluationEngine.detectContradictions ev
  /\ EvaluationEngine.detectContradictions ev <= 0.5.
Proof.
  unfold EvaluationEngine.detectContradictions.
  destruct (length _ <? 2)%nat; [lra|].
  destruct (slice_last 2 _) as [|r0 [|r1 [|]]]; try lra.
  destruct (existsb _ _); lra.
Qed.

Lemma fragility_range (ev : EvaluationEngine.Evaluator) :
  0 <= fragility_total (EvaluationEngine.calculateFragilityIndex ev)
  /\ fragility_total (EvaluationEngine.calculateFragilityIndex ev) <= 1.
Proof.
  unfold EvaluationEngine.calculateFragilityIndex. cbn [fragility_total].
  split; [|apply Q.le_min_l].
  destruct (detectContradictions_range ev) as [Hc _].
  set (t := if (0 <? length _)%nat then _ else 0.2).
  set (u := if (0 <? length _)%nat then _ else 0.3).
  pose proof (Q.le_max_l 0 (t - 0.5)). pose proof (Q.le_max_l 0 (0.5 - u)).
  apply Q.min_glb; lra.
Qed.

Lemma coherence_range (c : Nudge) (state : EvaluationState) :
  0 < coherence_total (EvaluationEngine.calculateCoherenceCost c state)
  /\ coherence_total (EvaluationEngine.calculateCoherenceCost c state) <= 1.
Proof.
  unfold EvaluationEngine.calculateCoherenceCost. cbn [coherence_total].
  split; [|apply Q.le_min_l].
  assert (0.05 <= EvaluationEngine.assessPersonaDriftRisk c) as Hp
    by (unfold EvaluationEngine.assessPersonaDriftRisk; destruct (n_type c); lra).
  assert (0.1 <= EvaluationEngine.assessActGrammarViolation c (es_act state)) as Hg
    by (unfold EvaluationEngine.assessActGrammarViolation;
        destruct (es_act state), (n_type c); lra).
  assert (0.1 <= EvaluationEngine.assessContinuityRisk c state) as Hk
    by (unfold EvaluationEngine.assessContinuityRisk; destruct (_ && _); lra).
  assert (0.05 <= EvaluationEngine.assessSafetyRisk c) as Hs
    by (unfold EvaluationEngine.assessSafetyRisk; destruct (_ && _); lra).
  set (risk := 0.3 * _ + 0.25 * _ + 0.25 * _ + 0.2 * _).
  assert (0.075 <= risk) as Hrisk by (subst risk; lra).
  clearbody risk. apply Q.min_glb_lt; [reflexivity|].
  destruct (es_act state); cbn [act_num];
    [ setoid_replace ((inject_Z 1 - 1) * 0.1 + 1) with 1 using relation Qeq by reflexivity
    | setoid_replace ((inject_Z 2 - 1) * 0.1 + 1) with 1.1 using relation Qeq by reflexivity
    | setoid_replace ((inject_Z 3 - 1) * 0.1 + 1) with 1.2 using relation Qeq by reflexivity
    | setoid_replace ((inject_Z 4 - 1) * 0.1 + 1) with 1.3 using relation Qeq by reflexivity
    | setoid_replace ((inject_Z 5 - 1) * 0.1 + 1) with 1.4 using relation Qeq by reflexivity ];
    lra.
Qed.

Lemma scoreNudgeCandidate_range (c : Nudge) (state : EvaluationState)
    (fragility : FragilityComponents) (ev : EvaluationEngine.Evaluator) :
  0 <= fragility_total fragility -> fragility_total fragility <= 1 ->
  scoresInRange (EvaluationEngine.scoreNudgeCandidate embeddingNovelty c state fragility ev).
Proof.
  intros H0 H1. unfold scoresInRange, EvaluationEngine.scoreNudgeCandidate.
  cbn [fragilityIndex coherenceCost freshnessGain finalScore].
  destruct (coherence_range c state) as [Hc0 Hc1].
  split; [exact H0|]. split; [exact H1|].
  split; [apply Qlt_le_weak; exact Hc0|]. split; [exact Hc1|].
  split; [apply Q.le_min_l|].
  split; [apply Q.le_max_l|].
  apply Q.max_lub; [lra | apply Q.le_min_l].
Qed.

End EvaluationScores.

Section Recommendation.

Open Scope Q_scope.

Variable embeddingNovelty : Nudge -> list SpokenLine -> Q.

(** The scoring loop stores one snapshot per candidate, in order and
    unchosen, numbers the scored candidates from [position] on, and changes
    nothing else of the evaluator. *)
Lemma scoreCandidates_shape (state : EvaluationState) (fragility : FragilityComponents)
    (cands : list Nudge) (position : nat) (ev : EvaluationEngine.Evaluator) :
  let r := EvaluationEngine.scoreCandidates embeddingNovelty state fragility position cands ev in
  EvaluationEngine.evaluationSnapshots (snd r)
  = EvaluationEngine.evaluationSnapshots ev ++ map (snapshotOf (es_act state)) (fst r)
  /\ map EvaluationEngine.sd_nudge (fst r) = cands
  /\ map EvaluationEngine.sd_position (fst r) = seq position (length cands)
  /\ Forall (scoredWith embeddingNovelty state fragility
               (EvaluationEngine.rollingWindow ev) (EvaluationEngine.recentDeltas ev))
       (fst r)
  /\ EvaluationEngine.rollingWindow (snd r) = EvaluationEngine.rollingWindow ev
  /\ EvaluationEngine.recentDeltas (snd r) = EvaluationEngine.recentDeltas ev
  /\ EvaluationEngine.majorNudgeCount (snd r) = EvaluationEngine.majorNudgeCount ev
  /\ EvaluationEngine.lastMajorNudgeTime (snd r) = EvaluationEngine.lastMajorNudgeTime ev
  /\ EvaluationEngine.exchangeCounter (snd r) = EvaluationEngine.exchangeCounter ev.
Proof.
  revert position ev. induction cands as [|c rest IH]; intros position ev.
  - cbn. rewrite app_nil_r. repeat split; try reflexivity. constructor.
  - cbn [EvaluationEngine.scoreCandidates].
    set (scores := EvaluationEngine.scoreNudgeCandidate embeddingNovelty c state fragility ev).
    set (ev1 := EvaluationEngine.mkEvaluator _ _ _ _ _ _).
    specialize (IH (S position) ev1). cbv zeta in IH.
    destruct (EvaluationEngine.scoreCandidates embeddingNovelty state fragility
                (S position) rest ev1) as [scored ev2].
    cbn [fst snd] in *.
    destruct IH as (Hsnap & Hnud & Hpos & Hwith & Hw & Hd & Hc & Hl & Hx).
    split; [rewrite Hsnap; subst ev1; cbn; rewrite <- app_assoc; reflexivity|].
    split; [cbn; rewrite Hnud; reflexivity|].
    split; [cbn; rewrite Hpos; reflexivity|].
    split.
    { constructor; [|exact Hwith]. exists ev. repeat split; reflexivity. }
    subst ev1. cbn in *. repeat split; assumption.
Qed.

Lemma insertByScore_perm (x : EvaluationEngine.Scored) (l : list EvaluationEngine.Scored) :
  EvaluationEngine.insertByScore x l ≡ₚ x :: l.
Proof.
  induction l as [|y r IH]; cbn; [reflexivity|].
  destruct (Qltb _ _); [reflexivity|].
  rewrite IH. apply perm_swap.
Qed.

Lemma sortByScore_perm (l : list EvaluationEngine.Scored) :
  EvaluationEngine.sortByScore l ≡ₚ l.
Proof.
  unfold EvaluationEngine.sortByScore.
  assert (forall acc,
            foldl (fun acc x => EvaluationEngine.insertByScore x acc) acc l ≡ₚ acc ++ l) as H.
  { induction l as [|x r IH]; intros acc; cbn; [rewrite app_nil_r; reflexivity|].
    rewrite IH, insertByScore_perm. apply Permutation_middle. }
  apply (H []).
Qed.

Lemma outranks_above (x y z : EvaluationEngine.Scored) :
  finalScore (EvaluationEngine.sd_scores y) < finalScore (EvaluationEngine.sd_scores x) ->
  outranks y z -> outranks x z.
Proof.
  intros Hyx [Hzy | [Hzy _]]; left; [lra|]. rewrite Hzy. exact Hyx.
Qed.

Lemma insertByScore_ranked (x : EvaluationEngine.Scored) (l : list EvaluationEngine.Scored) :
  ranked l ->
  Forall (fun y => (EvaluationEngine.sd_position y < EvaluationEngine.sd_position x)%nat) l ->
  ranked (EvaluationEngine.insertByScore x l).
Proof.
  induction l as [|y r IH]; intros Hr Hpos; cbn.
  - split; [constructor | exact I].
  - destruct Hr as [Hy Hr]. inversion Hpos as [|? ? Hyx Hrx]; subst.
    destruct (Qltb _ _) eqn:Hlt.
    + apply Qltb_lt in Hlt. split; [|split; assumption].
      constructor; [left; exact Hlt|].
      eapply Forall_impl; [exact Hy|]. intros z Hz. eapply outranks_above; eassumption.
    + split; [|apply IH; assumption].
      apply insertByScore_Forall; [|exact Hy].
      assert (~ finalScore (EvaluationEngine.sd_scores y)
                < finalScore (EvaluationEngine.sd_scores x)) as Hnlt.
      { intros H. apply Qltb_lt in H. congruence. }
      apply Qnot_lt_le in Hnlt. apply Qle_lt_or_eq in Hnlt.
      destruct Hnlt as [H | H]; [left; exact H | right; split; [exact H | exact Hyx]].
Qed.

Lemma sortByScore_ranked (l : list EvaluationEngine.Scored) (position : nat) :
  map EvaluationEngine.sd_position l = seq position (length l) ->
  ranked (EvaluationEngine.sortByScore l).
Proof.
  unfold EvaluationEngine.sortByScore.
  assert (forall p acc,
            map EvaluationEngine.sd_position l = seq p (length l) ->
            ranked acc ->
            Forall (fun y => (EvaluationEngine.sd_position y < p)%nat) acc ->
            ranked (foldl (fun acc x => EvaluationEngine.insertByScore x acc) acc l)) as H.
  { induction l as [|x r IH]; intros p acc Hseq Hr Hacc; cbn; [exact Hr|].
    cbn in Hseq. injection Hseq as Hx Hseq.
    apply (IH (S p)); [exact Hseq | |].
    - apply insertByScore_ranked; [exact Hr|]. rewrite Hx. exact Hacc.
    - apply insertByScore_Forall; [lia|].
      eapply Forall_impl; [exact Hacc|]. intros; cbn in *; lia. }
  intros Hseq. apply (H position []); [exact Hseq | exact I | constructor].
Qed.

Lemma seq_positions (l : list EvaluationEngine.Scored) (position j : nat)
    (sc : EvaluationEngine.Scored) :
  map EvaluationEngine.sd_position l = seq position (length l) ->
  l !! j = Some sc -> EvaluationEngine.sd_position sc = (position + j)%nat.
Proof.
  intros Hseq Hj.
  assert (map EvaluationEngine.sd_position l !! j = Some (EvaluationEngine.sd_position sc)) as H
    by (rewrite list_lookup_fmap, Hj; reflexivity).
  rewrite Hseq in H. apply lookup_seq in H. lia.
Qed.

(** What [consider] does, case by case, in terms of the candidates it scored. *)
Lemma consider_cases (state : EvaluationState) (lastLine : option SpokenLine)
    (ev : EvaluationEngine.Evaluator) :
  let result := EvaluationEngine.consider embeddingNovelty state lastLine ev in
  exists (scored : list EvaluationEngine.Scored),
    map EvaluationEngine.sd_nudge scored = EvaluationEngine.generateNudgeCandidates state
    /\ map EvaluationEngine.sd_position scored = seq 0 (length scored)
    /\ Forall (scoredWith embeddingNovelty state (fragilityWith lastLine ev)
                 (windowWith lastLine ev) (EvaluationEngine.recentDeltas ev)) scored
    /\ EvaluationEngine.rollingWindow (snd result) = windowWith lastLine ev
    /\ EvaluationEngine.recentDeltas (snd result) = EvaluationEngine.recentDeltas ev
    /\ EvaluationEngine.majorNudgeCount (snd result) = EvaluationEngine.majorNudgeCount ev
    /\ EvaluationEngine.lastMajorNudgeTime (snd result) = EvaluationEngine.lastMajorNudgeTime ev
    /\ EvaluationEngine.exchangeCounter (snd result) = EvaluationEngine.exchangeCounter ev + 1
    /\ ((autoNudge (fst result) = None /\ abstain (fst result) = true
         /\ rec_rationales (fst result) <> []
         /\ (rec_scores (fst result)
             = mkScores 0 0 (fragility_total (fragilityWith lastLine ev)) 0
             \/ exists best, best ∈ scored
                            /\ rec_scores (fst result) = EvaluationEngine.sd_scores best)
         /\ EvaluationEngine.evaluationSnapshots (snd result)
            = EvaluationEngine.evaluationSnapshots ev
              ++ map (snapshotOf (es_act state)) scored)
        \/ (exists (i : nat) (best : EvaluationEngine.Scored)
                   (others : list EvaluationEngine.Scored),
              scored !! i = Some best
              /\ EvaluationEngine.sortByScore scored = best :: others
              /\ fst result
                 = mkRecommendation (Some (EvaluationEngine.sd_nudge best))
                     (EvaluationEngine.sd_rationales best)
                     (EvaluationEngine.sd_scores best) false
              /\ EvaluationEngine.minScoreThreshold
                 <= finalScore (EvaluationEngine.sd_scores best)
              /\ fst (EvaluationEngine.checkCadenceConstraints
                        (EvaluationEngine.sd_nudge best) (snd result)) = true
              /\ EvaluationEngine.evaluationSnapshots (snd result)
                 = EvaluationEngine.evaluationSnapshots ev
                   ++ alter EvaluationEngine.markChosen i
                        (map (snapshotOf (es_act state)) scored))).
Proof.
  unfold EvaluationEngine.consider.
  set (ev1 := EvaluationEngine.mkEvaluator _ _ _ _ _ _).
  set (fragility := EvaluationEngine.calculateFragilityIndex ev1).
  pose proof (scoreCandidates_shape state fragility
                (EvaluationEngine.generateNudgeCandidates state) 0 ev1) as Hshape.
  cbv zeta in Hshape.
  destruct (EvaluationEngine.scoreCandidates embeddingNovelty state fragility 0
              (EvaluationEngine.generateNudgeCandidates state) ev1) as [scored ev2].
  cbn [fst snd] in Hshape.
  destruct Hshape as (Hsnap & Hnud & Hpos & Hwith & Hw & Hd & Hc & Hl & Hx).
  assert (map EvaluationEngine.sd_position scored = seq 0 (length scored)) as Hpos'.
  { rewrite Hpos. f_equal. rewrite <- Hnud. apply length_map. }
  exists scored. split; [exact Hnud|]. split; [exact Hpos'|].
  split; [exact Hwith|].
  pose proof (sortByScore_perm scored) as Hperm.
  destruct (EvaluationEngine.sortByScore scored) as [|best others] eqn:Hsort.
  - cbn [fst snd]. repeat (split; [assumption|]). left.
    repeat split; [discriminate | left; reflexivity | exact Hsnap].
  - assert (best ∈ scored) as Hbest by (rewrite <- Hperm; left).
    destruct (Qltb _ _) eqn:Hlow.
    + cbn [fst snd]. repeat (split; [assumption|]). left.
      repeat split; [discriminate | left; reflexivity | exact Hsnap].
    + destruct (negb _) eqn:Hcad.
      * cbn [fst snd]. repeat (split; [assumption|]). left.
        repeat split; [discriminate | right; exists best; split; [exact Hbest | reflexivity]
                      | exact Hsnap].
      * cbn [fst snd EvaluationEngine.rollingWindow EvaluationEngine.recentDeltas
               EvaluationEngine.majorNudgeCount EvaluationEngine.lastMajorNudgeTime
               EvaluationEngine.exchangeCounter EvaluationEngine.evaluationSnapshots].
        repeat (split; [assumption|]). right.
        pose proof Hbest as Hin.
        apply list_elem_of_lookup in Hin. destruct Hin as [i Hi].
        exists i, best, others. split; [exact Hi|]. split; [reflexivity|].
        split; [reflexivity|].
        split.
        { assert (~ finalScore (EvaluationEngine.sd_scores best)
                    < EvaluationEngine.minScoreThreshold) as Hn.
          { intros H. apply Qltb_lt in H. congruence. }
          apply Qnot_lt_le. exact Hn. }
        split.
        { apply negb_false_iff in Hcad.
          unfold EvaluationEngine.checkCadenceConstraints in *.
          cbn [EvaluationEngine.exchangeCounter EvaluationEngine.lastMajorNudgeTime].
          exact Hcad. }
        rewrite (seq_positions scored 0 i best Hpos' Hi). rewrite Hsnap.
        change (EvaluationEngine.evaluationSnapshots ev1)
          with (EvaluationEngine.evaluationSnapshots ev).
        cbn [Nat.add]. apply alter_app_r.
Qed.

Lemma generateRationales_nonempty (c : Nudge) (scores : EvaluationScores)
    (state : EvaluationState) (ev : EvaluationEngine.Evaluator) :
  EvaluationEngine.generateRationales c scores state ev <> [].
Proof.
  unfold EvaluationEngine.generateRationales.
  match goal with |- context [(0 <? length ?r)%nat] => set (rationales := r) end.
  destruct (0 <? length rationales)%nat eqn:H; [|discriminate].
  apply Nat.ltb_lt in H. destruct rationales; [cbn in H; lia | discriminate].
Qed.

Lemma scoredWith_range (state : EvaluationState) (lastLine : option SpokenLine)
    (ev : EvaluationEngine.Evaluator) (w : list SpokenLine) (ds : list ChemistryDeltas)
    (sc : EvaluationEngine.Scored) :
  scoredWith embeddingNovelty state (fragilityWith lastLine ev) w ds sc ->
  scoresInRange (EvaluationEngine.sd_scores sc)
  /\ 0 < coherenceCost (EvaluationEngine.sd_scores sc)
  /\ EvaluationEngine.sd_rationales sc <> [].
Proof.
  intros (ev' & Hs & Hr & _ & _). rewrite Hr, Hs.
  destruct (fragility_range (EvaluationEngine.mkEvaluator (windowWith lastLine ev)
              (EvaluationEngine.recentDeltas ev) (EvaluationEngine.evaluationSnapshots ev)
              (EvaluationEngine.majorNudgeCount ev) (EvaluationEngine.lastMajorNudgeTime ev)
              (EvaluationEngine.exchangeCounter ev + 1))) as [H0 H1].
  split; [apply scoreNudgeCandidate_range; assumption|].
  split; [apply coherence_range | apply generateRationales_nonempty].
Qed.

Lemma map_scores_snapshotOf (act : Act) (scored : list EvaluationEngine.Scored) :
  map snap_scores (map (snapshotOf act) scored) = map EvaluationEngine.sd_scores scored.
Proof. rewrite map_map. reflexivity. Qed.

Lemma consider_scores_range (state : EvaluationState) (lastLine : option SpokenLine)
    (ev : EvaluationEngine.Evaluator) :
  let result := EvaluationEngine.consider embeddingNovelty state lastLine ev in
  let scoredNow :=
    drop (length (EvaluationEngine.evaluationSnapshots ev))
         (EvaluationEngine.evaluationSnapshots (snd result)) in
  Forall (fun s => scoresInRange (snap_scores s) /\ 0 < coherenceCost (snap_scores s))
         scoredNow
  /\ scoresInRange (rec_scores (fst result)).
Proof.
  cbv zeta.
  destruct (consider_cases state lastLine ev)
    as (scored & _ & _ & Hwith & _ & _ & _ & _ & _ & Hcases).
  assert (Forall (fun sc => scoresInRange (EvaluationEngine.sd_scores sc)
                            /\ 0 < coherenceCost (EvaluationEngine.sd_scores sc)) scored)
    as Hall.
  { eapply Forall_impl; [exact Hwith|]. intros sc Hsc.
    destruct (scoredWith_range _ _ _ _ _ _ Hsc) as (? & ? & _). split; assumption. }
  assert (forall i,
            Forall (fun s => scoresInRange (snap_scores s) /\ 0 < coherenceCost (snap_scores s))
              (alter EvaluationEngine.markChosen i (map (snapshotOf (es_act state)) scored)))
    as Hsnaps.
  { intros i. apply List.Forall_forall. intros s Hs.
    apply (List.in_map snap_scores) in Hs.
    rewrite map_alter_markChosen, map_scores_snapshotOf in Hs by reflexivity.
    apply List.in_map_iff in Hs. destruct Hs as (sc & Heq & Hin). rewrite <- Heq.
    exact (proj1 (List.Forall_forall _ _) Hall sc Hin). }
  destruct Hcases as [(_ & _ & _ & Hscores & Hsnap)
                     | (i & best & others & Hi & _ & Hres & _ & _ & Hsnap)].
  - rewrite Hsnap, drop_app_length. split.
    + apply List.Forall_forall. intros s Hs.
      apply List.in_map_iff in Hs. destruct Hs as (sc & <- & Hin).
      exact (proj1 (List.Forall_forall _ _) Hall sc Hin).
    + destruct Hscores as [-> | (best & Hbest & ->)].
      * destruct (fragility_range (EvaluationEngine.mkEvaluator (windowWith lastLine ev)
              (EvaluationEngine.recentDeltas ev) (EvaluationEngine.evaluationSnapshots ev)
              (EvaluationEngine.majorNudgeCount ev) (EvaluationEngine.lastMajorNudgeTime ev)
              (EvaluationEngine.exchangeCounter ev + 1))) as [H0 H1].
        unfold scoresInRange. cbn [fragilityIndex coherenceCost freshnessGain finalScore].
        fold (fragilityWith lastLine ev) in H0, H1.
        repeat split; try assumption; lra.
      * apply list_elem_of_In in Hbest.
        exact (proj1 (proj1 (List.Forall_forall _ _) Hall best Hbest)).
  - rewrite Hsnap, drop_app_length. split; [apply Hsnaps|].
    rewrite Hres. cbn [rec_scores].
    apply list_elem_of_lookup_2, list_elem_of_In in Hi.
    exact (proj1 (proj1 (List.Forall_forall _ _) Hall best Hi)).
Qed.

(** X17.  Every score that [consider] reports lies in its declared range:
    for each snapshot it stores and for the recommendation it returns, the
    fragility index and the coherence cost are in [0,1], the freshness gain
    is at most 1 and the final score is in [-1,1]; the coherence cost of a
    scored candidate is never 0. *)
Theorem consider_reports_scores_within_their_ranges
    (state : EvaluationState) (lastLine : option SpokenLine)
    (ev : EvaluationEngine.Evaluator) :
  let result := EvaluationEngine.consider embeddingNovelty state lastLine ev in
  let scoredNow :=
    drop (length (EvaluationEngine.evaluationSnapshots ev))
         (EvaluationEngine.evaluationSnapshots (snd result)) in
  Forall (fun s => scoresInRange (snap_scores s) /\ 0 < coherenceCost (snap_scores s))
         scoredNow
  /\ scoresInRange (rec_scores (fst result)).
Proof. exact (consider_scores_range state lastLine ev). Qed.

(** X18.  Of two scorings of the same candidate that differ only in the
    fragility they are given, the one with the higher fragility has the
    same freshness gain and coherence cost and a final score that is no
    higher. *)
Theorem a_more_fragile_scene_never_scores_a_nudge_higher
    (c : Nudge) (state : EvaluationState) (calm fragile : FragilityComponents)
    (ev : EvaluationEngine.Evaluator) :
  fragility_total calm <= fragility_total fragile ->
  let s := EvaluationEngine.scoreNudgeCandidate embeddingNovelty c state calm ev in
  let s' := EvaluationEngine.scoreNudgeCandidate embeddingNovelty c state fragile ev in
  finalScore s' <= finalScore s
  /\ freshnessGain s' = freshnessGain s
  /\ coherenceCost s' = coherenceCost s.
Proof.
  intros Hle. cbv zeta. unfold EvaluationEngine.scoreNudgeCandidate.
  cbn [finalScore freshnessGain coherenceCost].
  split; [|split; reflexivity].
  destruct (coherence_range c state) as [Hc0 _].
  set (fg := freshness_total _).
  set (cc := coherence_total _) in *.
  apply Q.max_le_compat_l, Q.min_le_compat_l.
  assert (EvaluationEngine.calculateLambda (fragility_total calm) (es_act state) * cc
          <= EvaluationEngine.calculateLambda (fragility_total fragile) (es_act state) * cc)
    as Hmul.
  { apply Qmult_le_compat_r; [|lra].
    unfold EvaluationEngine.calculateLambda. destruct (es_act state); cbn; lra. }
  lra.
Qed.

(** X19.  Every candidate that the evaluation engine generates for an act
    is an automatic nudge that the act's gate allows and does not block; it
    is major exactly when it raises the stakes, which only happens in act 3,
    and carries a token only when it is a recall.  The narrative engine, in
    that act and with the safety check passed, therefore refuses it only
    for cadence: a major one within six exchanges of the last major. *)
Theorem candidates_pass_the_gate_of_their_act
    (state : EvaluationState) (c : Nudge) (e : Engine) (st : StoryState) :
  In c (EvaluationEngine.generateNudgeCandidates state) ->
  currentState e = Some st ->
  getCurrentAct st = Some (es_act state) ->
  includesNudge (allowedNudges (actGates (es_act state))) (n_type c) = true
  /\ includesNudge (blockedNudges (actGates (es_act state))) (n_type c) = false
  /\ n_source c = auto
  /\ (n_intensity c = major <-> n_type c = raise_stakes)
  /\ (n_intensity c = major -> es_act state = Act3)
  /\ (n_token c <> None -> n_type c = recall)
  /\ fst (applyNudge c (Some true) e)
     = Ok (negb (bool_decide (n_intensity c = major)
                 && (exchangeCounter e - lastMajorNudgeExchange st <? 6)%Z)).
Proof.
  intros Hin He Hact.
  assert (includesNudge (allowedNudges (actGates (es_act state))) (n_type c) = true
          /\ includesNudge (blockedNudges (actGates (es_act state))) (n_type c) = false
          /\ n_source c = auto
          /\ (n_intensity c = major <-> n_type c = raise_stakes)
          /\ (n_intensity c = major -> es_act state = Act3)
          /\ (n_token c <> None -> n_type c = recall)) as H.
  { unfold EvaluationEngine.generateNudgeCandidates in Hin.
    destruct (es_act state); cbn in Hin;
      repeat (destruct Hin as [<- | Hin];
              [ unfold EvaluationEngine.determineNudgeIntensity;
                cbn [n_type n_intensity n_source n_token];
                repeat rewrite bool_decide_eq_false_2 by discriminate;
                repeat rewrite bool_decide_eq_true_2 by reflexivity;
                cbn [andb];
                repeat split; intros; try reflexivity; try discriminate; try congruence;
                match goal with
                | H : _ <> None |- _ =>
                    contradict H; rewrite bool_decide_eq_false_2 by discriminate; reflexivity
                end | ]);
      destruct Hin. }
  destruct H as (Hallow & Hblock & Hsrc & Hmaj & Hact3 & Htok).
  repeat (split; [assumption|]).
  unfold applyNudge. rewrite He, Hact, Hblock, Hallow. cbn [negb].
  destruct (bool_decide _ && _); reflexivity.
Qed.

(** X20.  When [consider] recommends a nudge, it is the best of the
    candidates it has just scored: its final score is at least the minimum
    threshold 0.3, no other candidate of the call has a higher one, and
    every candidate generated before it has a strictly lower one.  Its
    snapshot, with the scores and rationales of the recommendation, is
    marked chosen; no other snapshot of the call is. *)
Theorem consider_recommends_the_best_candidate
    (state : EvaluationState) (lastLine : option SpokenLine)
    (ev : EvaluationEngine.Evaluator) (n : Nudge) :
  let result := EvaluationEngine.consider embeddingNovelty state lastLine ev in
  let scoredNow :=
    drop (length (EvaluationEngine.evaluationSnapshots ev))
         (EvaluationEngine.evaluationSnapshots (snd result)) in
  autoNudge (fst result) = Some n ->
  abstain (fst result) = false
  /\ EvaluationEngine.minScoreThreshold <= finalScore (rec_scores (fst result))
  /\ exists i : nat,
       scoredNow !! i
       = Some (mkSnapshot (es_act state) n (rec_scores (fst result))
                 (rec_rationales (fst result)) true)
       /\ forall (j : nat) (s : EvaluationSnapshot),
            scoredNow !! j = Some s -> j <> i ->
            chosen s = false
            /\ finalScore (snap_scores s) <= finalScore (rec_scores (fst result))
            /\ ((j < i)%nat ->
                finalScore (snap_scores s) < finalScore (rec_scores (fst result))).
Proof.
  cbv zeta. intros Hauto.
  destruct (consider_cases state lastLine ev)
    as (scored & _ & Hpos & _ & _ & _ & _ & _ & _ & Hcases).
  destruct Hcases as [(Hnone & _) | (i & best & others & Hi & Hsort & Hres & Hmin & _ & Hsnap)];
    [congruence|].
  rewrite Hsnap, drop_app_length. rewrite Hres in *. cbn [autoNudge] in Hauto.
  injection Hauto as <-. cbn [abstain rec_scores rec_rationales].
  split; [reflexivity|]. split; [exact Hmin|].
  exists i. split.
  { rewrite list_lookup_alter, list_lookup_fmap, Hi.
    rewrite decide_True by reflexivity. reflexivity. }
  intros j s Hj Hne.
  rewrite list_lookup_alter, decide_False in Hj by congruence.
  rewrite list_lookup_fmap in Hj.
  destruct (scored !! j) as [sc|] eqn:Hsc; [|discriminate].
  cbn in Hj. injection Hj as <-. cbn [chosen snap_scores snapshotOf].
  split; [reflexivity|].
  pose proof (seq_positions scored 0 j sc Hpos Hsc) as Hpj.
  pose proof (seq_positions scored 0 i best Hpos Hi) as Hpi.
  pose proof (sortByScore_ranked scored 0 Hpos) as Hranked.
  rewrite Hsort in Hranked. destruct Hranked as [Hbest _].
  assert (sc ∈ best :: others) as Hin.
  { rewrite <- Hsort, sortByScore_perm. eapply list_elem_of_lookup_2; eassumption. }
  apply elem_of_cons in Hin. destruct Hin as [-> | Hin]; [lia|].
  apply list_elem_of_In in Hin.
  pose proof (proj1 (List.Forall_forall _ _) Hbest sc Hin) as [Hlt | [Heq Hlater]].
  - split; [lra | intros _; exact Hlt].
  - split; [rewrite Heq; lra | intros Hji; lia].
Qed.

(** X21.  [consider] only appends to the evaluator's history: the snapshots
    it had are kept as they were, at most five are added, none of them
    chosen when it abstains.  It abstains exactly when it recommends no
    nudge, always gives at least one rationale, advances the exchange
    counter by one and leaves the recent deltas and the time of the last
    major nudge alone. *)
Theorem consider_only_appends_to_the_history
    (state : EvaluationState) (lastLine : option SpokenLine)
    (ev : EvaluationEngine.Evaluator) :
  let result := EvaluationEngine.consider embeddingNovelty state lastLine ev in
  let scoredNow :=
    drop (length (EvaluationEngine.evaluationSnapshots ev))
         (EvaluationEngine.evaluationSnapshots (snd result)) in
  take (length (EvaluationEngine.evaluationSnapshots ev))
       (EvaluationEngine.evaluationSnapshots (snd result))
  = EvaluationEngine.evaluationSnapshots ev
  /\ (length scoredNow <= 5)%nat
  /\ (abstain (fst result) = true <-> autoNudge (fst result) = None)
  /\ (abstain (fst result) = true -> Forall (fun s => chosen s = false) scoredNow)
  /\ rec_rationales (fst result) <> []
  /\ EvaluationEngine.exchangeCounter (snd result) = EvaluationEngine.exchangeCounter ev + 1
  /\ EvaluationEngine.recentDeltas (snd result) = EvaluationEngine.recentDeltas ev
  /\ EvaluationEngine.lastMajorNudgeTime (snd result) = EvaluationEngine.lastMajorNudgeTime ev.
Proof.
  cbv zeta.
  destruct (consider_cases state lastLine ev)
    as (scored & Hnud & _ & Hwith & _ & Hd & _ & Hl & Hx & Hcases).
  assert (length scored <= 5)%nat as Hlen.
  { rewrite <- (length_map EvaluationEngine.sd_nudge), Hnud.
    unfold EvaluationEngine.generateNudgeCandidates. rewrite length_take. lia. }
  destruct Hcases as [(Hnone & Habs & Hrat & _ & Hsnap)
                     | (i & best & others & Hi & _ & Hres & _ & _ & Hsnap)].
  - rewrite Hsnap, take_app_length, drop_app_length, length_map.
    split; [reflexivity|]. split; [exact Hlen|].
    split; [split; intros; assumption|].
    split; [intros _; apply List.Forall_forall; intros s Hs;
            apply List.in_map_iff in Hs; destruct Hs as (sc & <- & _); reflexivity|].
    repeat split; assumption.
  - rewrite Hsnap, take_app_length, drop_app_length, length_alter, length_map.
    split; [reflexivity|]. split; [exact Hlen|]. rewrite Hres. cbn [abstain autoNudge rec_rationales].
    split; [split; intros; discriminate|].
    split; [intros; discriminate|].
    split.
    { apply list_elem_of_lookup_2, list_elem_of_In in Hi.
      pose proof (proj1 (List.Forall_forall _ _) Hwith best Hi) as Hb.
      destruct (scoredWith_range _ _ _ _ _ _ Hb) as (_ & _ & Hr). exact Hr. }
    repeat split; assumption.
Qed.

Lemma consider_cadence (state : EvaluationState) (lastLine : option SpokenLine)
    (ev : EvaluationEngine.Evaluator) (n : Nudge) :
  autoNudge (fst (EvaluationEngine.consider embeddingNovelty state lastLine ev)) = Some n ->
  (sinceMajor ev + 1 < 6 -> n_intensity n = minor)
  /\ (sinceMajor ev + 1 <= 2 -> n_type n = comfort).
Proof.
  intros Hauto.
  destruct (consider_cases state lastLine ev)
    as (scored & _ & _ & _ & _ & _ & _ & Hl & Hx & Hcases).
  destruct Hcases as [(Hnone & _) | (i & best & others & _ & _ & Hres & _ & Hcad & _)];
    [congruence|].
  rewrite Hres in Hauto. cbn [autoNudge] in Hauto. injection Hauto as <-.
  unfold EvaluationEngine.checkCadenceConstraints in Hcad. rewrite Hl, Hx in Hcad.
  unfold sinceMajor.
  assert (EvaluationEngine.exchangeCounter ev + 1 - EvaluationEngine.lastMajorNudgeTime ev
          == EvaluationEngine.exchangeCounter ev - EvaluationEngine.lastMajorNudgeTime ev + 1)
    as Heq by ring.
  split.
  - intros Hlt. destruct (n_intensity (EvaluationEngine.sd_nudge best)) eqn:Hint;
      [reflexivity|]. exfalso.
    rewrite bool_decide_eq_true_2 in Hcad by reflexivity.
    rewrite <- Heq in Hlt. apply Qltb_lt in Hlt.
    unfold EvaluationEngine.majorNudgeCooldown in Hcad. rewrite Hlt in Hcad.
    cbn in Hcad. discriminate.
  - intros Hle. rewrite <- Heq in Hle. apply Qle_bool_iff in Hle.
    destruct (bool_decide _ && Qltb _ _); [cbn in Hcad; discriminate|].
    rewrite Hle in Hcad. cbn [andb] in Hcad.
    destruct (bool_decide (n_type (EvaluationEngine.sd_nudge best) = comfort)) eqn:Hc;
      [apply bool_decide_eq_true_1 in Hc; exact Hc | cbn in Hcad; discriminate].
Qed.

Lemma evCall_sinceMajor (c : EvCall) (ev : EvaluationEngine.Evaluator) :
  isCounterReset c = false ->
  0 <= sinceMajor ev ->
  0 <= sinceMajor (evCall embeddingNovelty c ev)
  /\ sinceMajor (evCall embeddingNovelty c ev)
     <= sinceMajor ev + (if isConsider c then 1 else 0).
Proof.
  intros Hreset H0. destruct c as [event | state lastLine]; cbn [evCall isConsider].
  - destruct event as [| |nudge| |name value]; cbn [EvaluationEngine.onTelemetry];
      try (split; lra).
    + unfold sinceMajor in *. cbn. split; lra.
    + destruct (bool_decide _); [|split; lra].
      unfold sinceMajor in *. cbn. split; lra.
    + cbn [isCounterReset] in Hreset. rewrite Hreset. split; lra.
  - destruct (consider_cases state lastLine ev)
      as (scored & _ & _ & _ & _ & _ & _ & Hl & Hx & _).
    unfold sinceMajor in *. rewrite Hl, Hx. split; lra.
Qed.

Lemma evRun_sinceMajor (cs : list EvCall) (ev : EvaluationEngine.Evaluator) :
  forallb (fun c => negb (isCounterReset c)) cs = true ->
  0 <= sinceMajor ev ->
  0 <= sinceMajor (evRun embeddingNovelty cs ev)
  /\ sinceMajor (evRun embeddingNovelty cs ev)
     <= sinceMajor ev + inject_Z (Z.of_nat (considersIn cs)).
Proof.
  revert ev. induction cs as [|c cs IH]; intros ev Hcs H0.
  - cbn [evRun foldl]. split; [exact H0|]. unfold considersIn. cbn [List.filter length].
    change (inject_Z (Z.of_nat 0)) with 0. lra.
  - cbn [forallb] in Hcs. apply andb_true_iff in Hcs. destruct Hcs as [Hc Hcs].
    apply negb_true_iff in Hc.
    destruct (evCall_sinceMajor c ev Hc H0) as [H1 H2].
    destruct (IH (evCall embeddingNovelty c ev) Hcs H1) as [H3 H4].
    change (evRun embeddingNovelty (c :: cs) ev)
      with (evRun embeddingNovelty cs (evCall embeddingNovelty c ev)).
    split; [exact H3|].
    unfold considersIn in *. cbn [List.filter].
    destruct (isConsider c); cbn [length].
    + rewrite Nat2Z.inj_succ. unfold Z.succ. rewrite inject_Z_plus.
      change (inject_Z 1) with 1. lra.
    + lra.
Qed.

(** X22.  Once the evaluator has been told that a major nudge was applied,
    and as long as no metric event overwrites its exchange counter, its
    first two calls of [consider] recommend nothing but a comfort nudge and
    its first five recommend no major nudge, whatever else it is told in
    between. *)
Theorem after_a_major_nudge_consider_holds_back
    (m n : Nudge) (cs : list EvCall) (state : EvaluationState)
    (lastLine : option SpokenLine) (ev : EvaluationEngine.Evaluator) :
  n_intensity m = major ->
  forallb (fun c => negb (isCounterReset c)) cs = true ->
  autoNudge
    (fst (EvaluationEngine.consider embeddingNovelty state lastLine
            (evRun embeddingNovelty cs
               (EvaluationEngine.onTelemetry (NudgeApplied m) ev)))) = Some n ->
  ((considersIn cs < 2)%nat -> n_type n = comfort)
  /\ ((considersIn cs < 5)%nat -> n_intensity n = minor).
Proof.
  intros Hm Hcs Hauto.
  set (ev0 := EvaluationEngine.onTelemetry (NudgeApplied m) ev) in *.
  assert (sinceMajor ev0 == 0) as Hzero.
  { subst ev0. cbn [EvaluationEngine.onTelemetry].
    rewrite bool_decide_eq_true_2 by exact Hm. unfold sinceMajor. cbn. ring. }
  destruct (evRun_sinceMajor cs ev0 Hcs) as [_ Hle]; [lra|].
  destruct (consider_cadence _ _ _ _ Hauto) as [Hminor Hcomfort].
  split; intros Hk.
  - apply Hcomfort.
    assert (inject_Z (Z.of_nat (considersIn cs)) <= inject_Z 1) as Hq
      by (rewrite <- Zle_Qle; lia).
    change (inject_Z 1) with 1 in Hq. lra.
  - apply Hminor.
    assert (inject_Z (Z.of_nat (considersIn cs)) <= inject_Z 4) as Hq
      by (rewrite <- Zle_Qle; lia).
    change (inject_Z 4) with 4 in Hq. lra.
Qed.

Lemma addToRollingWindow_length (line : SpokenLine) (w : list SpokenLine) :
  (length (EvaluationEngine.addToRollingWindow line w) <= 12)%nat.
Proof.
  unfold EvaluationEngine.addToRollingWindow, EvaluationEngine.windowSize.
  destruct (12 <? length (w ++ [line]))%nat eqn:H.
  - rewrite slice_last_length. lia.
  - apply Nat.ltb_ge in H. exact H.
Qed.

Lemma evCall_windowsBounded (c : EvCall) (ev : EvaluationEngine.Evaluator) :
  windowsBounded ev -> windowsBounded (evCall embeddingNovelty c ev).
Proof.
  intros [Hw Hd]. destruct c as [event | state lastLine]; cbn [evCall].
  - destruct event as [|line|nudge| |name value]; cbn [EvaluationEngine.onTelemetry];
      try (split; assumption).
    + split; cbn [EvaluationEngine.rollingWindow EvaluationEngine.recentDeltas].
      * apply addToRollingWindow_length.
      * destruct (10 <? length _)%nat eqn:H.
        -- rewrite slice_last_length. lia.
        -- apply Nat.ltb_ge in H. exact H.
    + destruct (bool_decide _); split; assumption.
    + destruct (String.eqb _ _); split; assumption.
  - destruct (consider_cases state lastLine ev)
      as (scored & _ & _ & _ & Hwin & Hds & _).
    split; [rewrite Hwin | rewrite Hds; exact Hd].
    unfold windowWith. destruct lastLine; [apply addToRollingWindow_length | exact Hw].
Qed.

(** X23.  Whatever telemetry the evaluator receives and however often it is
    asked to consider, its rolling window never holds more than 12 lines
    and its recent deltas never more than 10. *)
Theorem evaluator_windows_stay_bounded (cs : list EvCall) :
  windowsBounded (evRun embeddingNovelty cs EvaluationEngine.newEvaluator).
Proof.
  assert (forall ev, windowsBounded ev -> windowsBounded (evRun embeddingNovelty cs ev)) as H.
  { induction cs as [|c cs IH]; intros ev Hev; [exact Hev|].
    apply (IH (evCall embeddingNovelty c ev)), evCall_windowsBounded, Hev. }
  apply H. split; cbn; lia.
Qed.

End Recommendation.

(** * The console's view and the bias flags *)

Section Console.

Open Scope Q_scope.

Lemma sortedState_idempotent (st : StoryState) :
  sortedState (sortedState st) = sortedState st.
Proof.
  unfold sortedState, withSpotlight. cbn. rewrite sortSpotlight_idempotent. reflexivity.
Qed.

Lemma settled_idempotent (e : Engine) : settled (settled e) = settled e.
Proof.
  unfold settled. cbn. destruct (currentState e) as [st|]; cbn; [|reflexivity].
  rewrite sortedState_idempotent. reflexivity.
Qed.

Lemma afterGetState_settled (e : Engine) : settled (afterGetState e) = settled e.
Proof.
  unfold afterGetState, settled. destruct (currentState e) as [st|] eqn:E; cbn.
  - rewrite sortedState_idempotent. reflexivity.
  - rewrite E. reflexivity.
Qed.

Lemma scheduleNudge_sortedState (n : Nudge) (counter : Z) (st : StoryState) :
  sortedState (scheduleNudge n counter (sortedState st))
  = sortedState (scheduleNudge n counter st).
Proof.
  unfold scheduleNudge, sortedState, withSpotlight.
  destruct (n_intensity n); cbn; rewrite sortSpotlight_idempotent; reflexivity.
Qed.

(** A call other than [getState] answers the same on an engine and on the
    engine with its spotlight sorted, and leaves the same engine up to the
    order of the spotlight. *)
Lemma call_settled (c : Call) (e : Engine) :
  isGetState c = false ->
  fst (call c (settled e)) = fst (call c e)
  /\ settled (snd (call c (settled e))) = settled (snd (call c e)).
Proof.
  intros Hc. destruct c as [seed|n v|beat|]; [| | |discriminate]; unfold call.
  - unfold startEpisode. cbn. split; reflexivity.
  - unfold applyNudge, settled. cbn [currentState exchangeCounter telemetryBuffer].
    destruct (currentState e) as [st|] eqn:E; cbn [fmap option_fmap option_map].
    2:{ cbn. rewrite E. split; reflexivity. }
    change (getCurrentAct (sortedState st)) with (getCurrentAct st).
    change (lastMajorNudgeExchange (sortedState st)) with (lastMajorNudgeExchange st).
    destruct (getCurrentAct st) as [act|].
    2:{ cbn. rewrite E. cbn. rewrite sortedState_idempotent. split; reflexivity. }
    destruct (includesNudge (blockedNudges (actGates act)) (n_type n)).
    { cbn. rewrite E. cbn. rewrite sortedState_idempotent. split; reflexivity. }
    destruct (negb (includesNudge (allowedNudges (actGates act)) (n_type n))).
    { cbn. rewrite E. cbn. rewrite sortedState_idempotent. split; reflexivity. }
    destruct (bool_decide (n_intensity n = major) && _).
    { cbn. rewrite E. cbn. rewrite sortedState_idempotent. split; reflexivity. }
    destruct v as [[|]|].
    + cbn. rewrite scheduleNudge_sortedState. split; reflexivity.
    + cbn. rewrite E. cbn. rewrite sortedState_idempotent. split; reflexivity.
    + cbn. rewrite E. cbn. rewrite sortedState_idempotent. split; reflexivity.
  - unfold tick, settled. cbn [currentState exchangeCounter telemetryBuffer].
    destruct (currentState e) as [st|] eqn:E; cbn [fmap option_fmap option_map].
    2:{ cbn. rewrite E. split; reflexivity. }
    rewrite sortedState_idempotent.
    change (getCurrentAct (sortedState st)) with (getCurrentAct st).
    change (currentScene (sortedState st)) with (currentScene st).
    split; reflexivity.
Qed.

Lemma call_same_settled (c : Call) (e e' : Engine) :
  isGetState c = false -> settled e = settled e' ->
  fst (call c e) = fst (call c e')
  /\ settled (snd (call c e)) = settled (snd (call c e')).
Proof.
  intros Hc Hee.
  destruct (call_settled c e Hc) as [H1 H2].
  destruct (call_settled c e' Hc) as [H3 H4].
  rewrite <- H1, <- H2, <- H3, <- H4, Hee. split; reflexivity.
Qed.

Lemma getState_settled (e : Engine) : getState (settled e) = getState e.
Proof.
  unfold getState, settled. cbn [currentState].
  destruct (currentState e) as [st|]; cbn [fmap option_fmap option_map]; [|reflexivity].
  rewrite sortedState_idempotent.
  unfold generateThresholdBadges, calculateFragilityIndex, getLoveGraphForSpotlight.
  rewrite spotlightKey_sortedState. reflexivity.
Qed.

Lemma run_without_getState (cs : list Call) (e e' : Engine) :
  settled e = settled e' ->
  outcomes (List.filter (fun c => negb (isGetState c)) cs) e
  = List.filter (fun o => negb (isObserved o)) (outcomes cs e')
  /\ settled (run (List.filter (fun c => negb (isGetState c)) cs) e)
     = settled (run cs e').
Proof.
  revert e e'. induction cs as [|c cs IH]; intros e e' Hee; [split; [reflexivity | exact Hee]|].
  destruct (isGetState c) eqn:Hc.
  - destruct c; try discriminate. cbn [List.filter isGetState negb outcomes call fst snd].
    change (run (CallGetState :: cs) e') with (run cs (afterGetState e')).
    apply IH. rewrite afterGetState_settled. exact Hee.
  - destruct (call_same_settled c e e' Hc Hee) as [Hout Hnext].
    cbn [List.filter]. rewrite Hc. cbn [negb outcomes List.filter].
    change (run (c :: List.filter (fun c => negb (isGetState c)) cs) e)
      with (run (List.filter (fun c => negb (isGetState c)) cs) (snd (call c e))).
    change (run (c :: cs) e') with (run cs (snd (call c e'))).
    destruct (IH _ _ Hnext) as [IH1 IH2].
    assert (isObserved (fst (call c e')) = false) as Hobs.
    { destruct c as [seed|n v|beat|]; [| | |discriminate]; unfold call.
      - destruct (startEpisode seed e'); reflexivity.
      - destruct (applyNudge n v e'); reflexivity.
      - destruct (tick beat e'); reflexivity. }
    rewrite Hobs. cbn [negb]. rewrite Hout, IH1. split; [reflexivity | exact IH2].
Qed.

(** X24.  Reading the state is invisible to everything else: with the
    calls of [getState] left out, the other calls return exactly what they
    return with them, and the snapshot read at the end is the same. *)
Theorem getState_is_invisible_to_the_other_calls (cs : list Call) (e : Engine) :
  outcomes (List.filter (fun c => negb (isGetState c)) cs) e
  = List.filter (fun o => negb (isObserved o)) (outcomes cs e)
  /\ getState (run (List.filter (fun c => negb (isGetState c)) cs) e)
     = getState (run cs e).
Proof.
  destruct (run_without_getState cs e e eq_refl) as [Hout Hrun].
  split; [exact Hout|].
  rewrite <- getState_settled, Hrun. apply getState_settled.
Qed.




Lemma foldl_applyNudgeBias (init : BiasFlags) (pending : list Nudge) :
  let flags := foldl applyNudgeBias init pending in
  bias_stakes flags
  = (if existsb (fun n => includesNudge [raise_stakes; comfort; aside; tempo_up] (n_type n))
          pending
     then Some 0.4 else bias_stakes init)
  /\ bias_self_disclosure flags
     = (if existsb (fun n => includesNudge [vulnerability; tempo_down] (n_type n)) pending
        then Some 0.5 else bias_self_disclosure init)
  /\ bias_reassure flags
     = (if existsb (fun n => includesNudge [comfort; recall; tempo_down] (n_type n)) pending
        then Some 0.7 else bias_reassure init)
  /\ bias_clarify flags = bias_clarify init
  /\ recall_token flags
     = match last (omap (fun n => if truthy (n_token n) then n_token n else None) pending)
       with
       | Some token => Some token
       | None => recall_token init
       end.
Proof.
  revert init. induction pending as [|n rest IH]; intros init.
  - cbn. repeat split; reflexivity.
  - cbn [foldl]. specialize (IH (applyNudgeBias init n)). cbv zeta in IH |- *.
    destruct IH as (Hs & Hd & Hr & Hc & Ht).
    rewrite Hs, Hd, Hr, Hc, Ht. cbn [existsb].
    unfold applyNudgeBias at 1 2 3 4.
    cbn [bias_stakes bias_self_disclosure bias_reassure bias_clarify].
    split; [|split; [|split; [|split]]].
    + match goal with
      | |- context [_ || existsb ?f rest] => destruct (existsb f rest)
      end; [rewrite orb_true_r; reflexivity|].
      rewrite orb_false_r. destruct (n_type n); reflexivity.
    + match goal with
      | |- context [_ || existsb ?f rest] => destruct (existsb f rest)
      end; [rewrite orb_true_r; reflexivity|].
      rewrite orb_false_r. destruct (n_type n); reflexivity.
    + match goal with
      | |- context [_ || existsb ?f rest] => destruct (existsb f rest)
      end; [rewrite orb_true_r; reflexivity|].
      rewrite orb_false_r. destruct (n_type n); reflexivity.
    + reflexivity.
    + unfold applyNudgeBias. cbn [recall_token omap list_omap].
      destruct (truthy (n_token n)) eqn:Htok.
      * destruct (n_token n) as [token|]; [|discriminate].
        rewrite last_cons. destruct (last _); reflexivity.
      * reflexivity.
Qed.

(** X26.  The bias flags of an exchange sum up the nudges accepted since
    the last one: the stakes bias is 0.4 when a raise_stakes, comfort, aside
    or tempo_up nudge is pending and unset otherwise; the self-disclosure
    bias is 0.5 for a pending vulnerability or tempo_down nudge; the
    reassurance bias is 0.7 for a pending comfort, recall or tempo_down
    nudge, else 0.6 during recovery; the clarify flag is set exactly during
    recovery; and the recall token is the token of the last pending nudge
    that carries one. *)
Theorem bias_flags_sum_up_the_pending_nudges (st : StoryState) :
  let flags := buildBiasFlags st in
  let recovering := match recoveryBias st with Some _ => true | None => false end in
  bias_stakes flags
  = (if pendingOfType [raise_stakes; comfort; aside; tempo_up] st then Some 0.4 else None)
  /\ bias_self_disclosure flags
     = (if pendingOfType [vulnerability; tempo_down] st then Some 0.5 else None)
  /\ bias_reassure flags
     = (if pendingOfType [comfort; recall; tempo_down] st then Some 0.7
        else if recovering then Some 0.6 else None)
  /\ bias_clarify flags = recovering
  /\ recall_token flags = last (pendingTokens st).
Proof.
  cbv zeta. unfold buildBiasFlags, pendingOfType, pendingTokens.
  match goal with
  | |- context [foldl applyNudgeBias ?init _] =>
      destruct (foldl_applyNudgeBias init (pendingNudges st)) as (Hs & Hd & Hr & Hc & Ht)
  end.
  rewrite Hs, Hd, Hr, Hc, Ht.
  destruct (recoveryBias st); cbn [bias_stakes bias_self_disclosure bias_reassure
                                    bias_clarify recall_token];
    repeat split; try reflexivity;
    destruct (last _); reflexivity.
Qed.

End Console.

Section History.

Open Scope Q_scope.

Variable embeddingNovelty : Nudge -> list SpokenLine -> Q.

Lemma evCall_history (c : EvCall) (ev : EvaluationEngine.Evaluator) :
  Forall (fun s => scoresInRange (snap_scores s)) (EvaluationEngine.evaluationSnapshots ev) ->
  Forall (fun s => scoresInRange (snap_scores s))
    (EvaluationEngine.evaluationSnapshots (evCall embeddingNovelty c ev)).
Proof.
  intros Hev.
  destruct c as [event | state lastLine]; cbn [evCall].
  - destruct event as [| |nudge| |name value]; cbn [EvaluationEngine.onTelemetry];
      try exact Hev.
    + destruct (bool_decide _); exact Hev.
    + destruct (String.eqb _ _); exact Hev.
  - pose proof (consider_scores_range embeddingNovelty state lastLine ev) as [Hnew _].
    destruct (consider_cases embeddingNovelty state lastLine ev)
      as (scored & _ & _ & _ & _ & _ & _ & _ & _ & Hcases).
    assert (EvaluationEngine.evaluationSnapshots
              (snd (EvaluationEngine.consider embeddingNovelty state lastLine ev))
            = EvaluationEngine.evaluationSnapshots ev
              ++ drop (length (EvaluationEngine.evaluationSnapshots ev))
                   (EvaluationEngine.evaluationSnapshots
                      (snd (EvaluationEngine.consider embeddingNovelty state lastLine ev))))
      as Hsplit.
    { destruct Hcases as [(_ & _ & _ & _ & Hsnap) | (i & best & others & _ & _ & _ & _ & _ & Hsnap)];
        rewrite Hsnap, drop_app_length; reflexivity. }
    rewrite Hsplit. apply Forall_app. split; [exact Hev|].
    eapply Forall_impl; [exact Hnew|]. intros s [Hs _]. exact Hs.
Qed.

(** X27.  Every score in an evaluator's history is in range, whatever it has
    been told and asked: the recent scores it reports are at most five, each
    with fragility index and coherence cost in [0,1], freshness gain at most
    1 and final score in [-1,1]. *)
Theorem recent_scores_are_at_most_five_and_in_range (cs : list EvCall) :
  let recent :=
    EvaluationEngine.getRecentScores (evRun embeddingNovelty cs EvaluationEngine.newEvaluator) in
  (length recent <= 5)%nat /\ Forall scoresInRange recent.
Proof.
  cbv zeta. unfold EvaluationEngine.getRecentScores.
  split; [rewrite length_map, slice_last_length; lia|].
  assert (forall ev,
            Forall (fun s => scoresInRange (snap_scores s))
              (EvaluationEngine.evaluationSnapshots ev) ->
            Forall (fun s => scoresInRange (snap_scores s))
              (EvaluationEngine.evaluationSnapshots (evRun embeddingNovelty cs ev))) as H.
  { induction cs as [|c cs IH]; intros ev Hev; [exact Hev|].
    apply (IH (evCall embeddingNovelty c ev)), evCall_history, Hev. }
  specialize (H EvaluationEngine.newEvaluator (List.Forall_nil _)).
  apply List.Forall_map. unfold slice_last.
  match goal with |- Forall _ (drop ?n ?l) => rewrite <- (take_drop n l) in H end.
  apply Forall_app in H. exact (proj2 H).
Qed.

End History.

(** * The two engines wired together *)

Section WiredEngines.

Open Scope Q_scope.

Lemma feed_app (a b : list TelemetryEvent) (ev : EvaluationEngine.Evaluator) :
  feed (a ++ b) ev = feed b (feed a ev).
Proof. unfold feed. apply foldl_app. Qed.

Lemma feed_quiet (events : list TelemetryEvent) (ev : EvaluationEngine.Evaluator) :
  Forall (fun event => isTurnEnd event = false) events ->
  EvaluationEngine.rollingWindow (feed events ev) = EvaluationEngine.rollingWindow ev
  /\ EvaluationEngine.recentDeltas (feed events ev) = EvaluationEngine.recentDeltas ev.
Proof.
  revert ev. induction events as [|event rest IH]; intros ev Hq; [split; reflexivity|].
  inversion Hq as [|? ? Hevent Hrest]; subst.
  change (feed (event :: rest) ev) with (feed rest (EvaluationEngine.onTelemetry event ev)).
  destruct (IH (EvaluationEngine.onTelemetry event ev) Hrest) as [Hw Hd].
  rewrite Hw, Hd.
  destruct event as [| |nudge| |name value]; cbn [EvaluationEngine.onTelemetry];
    try discriminate; try (split; reflexivity).
  - destruct (bool_decide _); split; reflexivity.
  - destruct (String.eqb _ _); split; reflexivity.
Qed.

Lemma feed_turnEnds (lines : list SpokenLine) (ev : EvaluationEngine.Evaluator) :
  windowsBounded ev ->
  EvaluationEngine.exchangeCounter (feed (map TurnEnd lines) ev)
  = EvaluationEngine.exchangeCounter ev
  /\ EvaluationEngine.recentDeltas (feed (map TurnEnd lines) ev)
     = slice_last 10 (EvaluationEngine.recentDeltas ev ++ map deltas lines)
  /\ EvaluationEngine.rollingWindow (feed (map TurnEnd lines) ev)
     = slice_last 12 (EvaluationEngine.rollingWindow ev ++ lines).
Proof.
  revert ev. induction lines as [|line rest IH]; intros ev [Hw Hd].
  - cbn. rewrite !app_nil_r, !slice_last_short by assumption. repeat split; reflexivity.
  - change (feed (map TurnEnd (line :: rest)) ev)
      with (feed (map TurnEnd rest) (EvaluationEngine.onTelemetry (TurnEnd line) ev)).
    set (ev1 := EvaluationEngine.onTelemetry (TurnEnd line) ev).
    assert (EvaluationEngine.recentDeltas ev1
            = slice_last 10 (EvaluationEngine.recentDeltas ev ++ [deltas line])) as Hd1.
    { subst ev1. cbn [EvaluationEngine.onTelemetry EvaluationEngine.recentDeltas].
      destruct (10 <? length _)%nat eqn:H; [reflexivity|].
      apply Nat.ltb_ge in H. symmetry. apply slice_last_short. exact H. }
    assert (EvaluationEngine.rollingWindow ev1
            = slice_last 12 (EvaluationEngine.rollingWindow ev ++ [line])) as Hw1.
    { subst ev1. cbn [EvaluationEngine.onTelemetry EvaluationEngine.rollingWindow].
      unfold EvaluationEngine.addToRollingWindow, EvaluationEngine.windowSize.
      destruct (12 <? length _)%nat eqn:H; [reflexivity|].
      apply Nat.ltb_ge in H. symmetry. apply slice_last_short. exact H. }
    assert (windowsBounded ev1) as Hb1.
    { split; [rewrite Hw1 | rewrite Hd1]; rewrite slice_last_length; lia. }
    destruct (IH ev1 Hb1) as (Hx & Hds & Hws).
    rewrite Hx, Hds, Hws, Hd1, Hw1, !slice_last_app_slice, <- !app_assoc.
    repeat split; reflexivity.
Qed.

Lemma call_bufferQuiet (c : Call) (e : Engine) :
  bufferQuiet e -> bufferQuiet (snd (call c e)).
Proof.
  unfold bufferQuiet. intros Hq. destruct c as [seed|n v|beat|]; unfold call.
  - exact Hq.
  - unfold applyNudge. destruct (currentState e) as [st|]; [|exact Hq].
    destruct (getCurrentAct st); [|exact Hq].
    destruct (includesNudge _ _); [exact Hq|].
    destruct (negb _); [exact Hq|].
    destruct (bool_decide _ && _); [exact Hq|].
    destruct v as [[|]|]; try exact Hq.
    cbn. apply Forall_app. split; [exact Hq | repeat constructor].
  - unfold tick. destruct (currentState e) as [st|]; [|exact Hq].
    destruct (getCurrentAct (sortedState st)).
    + destruct beat; cbn; [constructor|].
      apply Forall_app. split; [exact Hq | repeat constructor].
    + cbn. apply Forall_app. split; [exact Hq | repeat constructor].
  - unfold afterGetState. destruct (currentState e); exact Hq.
Qed.

(** X28.  An evaluator that is fed the telemetry of a completed tick, in
    order, ends up with the narrative engine's exchange counter as its own,
    with the deltas of the produced lines as the latest of its ten recent
    deltas and with the produced lines as the latest of the twelve lines of
    its rolling window. *)
Theorem evaluator_follows_the_ticks_it_is_fed
    (calls : list Call) (finalLines : list FinalLine) (r : TickResult) (e' : Engine)
    (ev : EvaluationEngine.Evaluator) :
  tick (Some finalLines) (run calls newEngine) = (Ok r, e') ->
  windowsBounded ev ->
  EvaluationEngine.exchangeCounter (feed (telemetryEvents r) ev)
  = inject_Z (exchangeCounter e')
  /\ EvaluationEngine.recentDeltas (feed (telemetryEvents r) ev)
     = slice_last 10 (EvaluationEngine.recentDeltas ev ++ map deltas (producedLines r))
  /\ EvaluationEngine.rollingWindow (feed (telemetryEvents r) ev)
     = slice_last 12 (EvaluationEngine.rollingWindow ev ++ producedLines r).
Proof.
  intros Htick Hb.
  assert (bufferQuiet (run calls newEngine)) as Hq.
  { apply (run_invariant bufferQuiet); [constructor | apply call_bufferQuiet]. }
  unfold tick in Htick. unfold bufferQuiet in Hq.
  destruct (currentState (run calls newEngine)) as [st|]; [|discriminate].
  destruct (getCurrentAct (sortedState st)); [|discriminate].
  injection Htick as <- <-.
  cbn [telemetryEvents producedLines exchangeCounter].
  set (ls := foldl processFinalLine _ finalLines).
  destruct (processLines_events finalLines (mkLoop (sortedState st) [] [] []))
    as [Hloop _]; [constructor | reflexivity |]. fold ls in Hloop.
  set (counter := (exchangeCounter (run calls newEngine) + 1)%Z).
  set (pre := (telemetryBuffer (run calls newEngine)
               ++ [TurnStart (getCurrentAct st) (sc_index (currentScene st))])
              ++ ls_events ls).
  assert (Forall (fun event => isTurnEnd event = false) pre) as Hpre.
  { subst pre. apply Forall_app. split.
    - apply Forall_app. split; [exact Hq | repeat constructor].
    - eapply Forall_impl; [exact Hloop|]. intros [] H; try reflexivity; destruct H. }
  rewrite app_assoc. fold pre.
  match goal with
  | |- context [pre ++ ?m1 :: ?m2 :: ?m3 :: ?m4 :: map TurnEnd ?lines] =>
      change (pre ++ m1 :: m2 :: m3 :: m4 :: map TurnEnd lines)
        with (pre ++ [m1; m2; m3; m4] ++ map TurnEnd lines);
      set (metrics := [m1; m2; m3; m4])
  end.
  rewrite !feed_app.
  destruct (feed_quiet pre ev Hpre) as [Hw1 Hd1].
  set (ev1 := feed pre ev) in *.
  set (ev2 := feed metrics ev1).
  assert (EvaluationEngine.exchangeCounter ev2 = inject_Z counter
          /\ EvaluationEngine.rollingWindow ev2 = EvaluationEngine.rollingWindow ev1
          /\ EvaluationEngine.recentDeltas ev2 = EvaluationEngine.recentDeltas ev1)
    as (Hx2 & Hw2 & Hd2).
  { subst ev2 metrics. unfold feed. cbn. repeat split; reflexivity. }
  assert (windowsBounded ev2) as Hb2.
  { destruct Hb as [Hbw Hbd]. split; [rewrite Hw2, Hw1 | rewrite Hd2, Hd1]; assumption. }
  destruct (feed_turnEnds (ls_produced ls) ev2 Hb2) as (Hx & Hd & Hw).
  rewrite Hx, Hd, Hw, Hx2, Hd2, Hw2, Hd1, Hw1. repeat split; reflexivity.
Qed.

End WiredEngines.

(** * Further worked instances *)

Section MoreInstances.

Open Scope Q_scope.

(** [raise_stakes] in act 1 is refused and leaves the engine as it was. *)
Lemma applyNudge_unaccepted_instance :
  fst (applyNudge raiseStakesMajor (Some true) started) = Ok false
  /\ snd (applyNudge raiseStakesMajor (Some true) started) = started.
Proof.
  split; [vm_compute; reflexivity|].
  apply (applyNudge_changes_nothing_unless_accepted raiseStakesMajor (Some true) started).
  vm_compute. discriminate.
Defined.

(** The first exchange of an episode, two lines of eight words each. *)
Lemma completed_tick_lines_instance :
  exists (r : TickResult) (e' : Engine),
    tick (Some sparkThenStill) started = (Ok r, e')
    /\ producedLines r = map spokenOf sparkThenStill
    /\ Forall (fun l => 0.4 <= secs l /\ secs l <= 9) (producedLines r).
Proof.
  eexists. eexists.
  split. { vm_compute. reflexivity. }
  eapply (completed_tick_produces_one_timed_line_per_final_line sparkThenStill started _ _).
  vm_compute. reflexivity.
Defined.

Lemma telemetry_flush_instance :
  exists (st : StoryState) (r : TickResult) (e' : Engine),
    currentState started = Some st
    /\ tick (Some sparkThenStill) started = (Ok r, e')
    /\ telemetryBuffer e' = [].
Proof.
  eexists. eexists. eexists.
  split. { vm_compute. reflexivity. }
  split. { vm_compute. reflexivity. }
  eapply proj1.
  eapply (completed_tick_flushes_telemetry_in_order sparkThenStill started _ _ _).
  { vm_compute. reflexivity. }
  { vm_compute. reflexivity. }
Defined.

(** A comfort nudge in act 1, then an exchange without lines. *)
Lemma pending_nudge_instance :
  exists (e1 : Engine) (r : TickResult) (e2 : Engine),
    applyNudge comfortMinor (Some true) started = (Ok true, e1)
    /\ tick (Some []) e1 = (Ok r, e2)
    /\ pendingOf e1 = pendingOf started ++ [comfortMinor]
    /\ pendingOf e2 = []
    /\ exists (act : option Act) (scene : Z) (rest : list TelemetryEvent),
         telemetryEvents r =
         telemetryBuffer started ++ NudgeApplied comfortMinor :: TurnStart act scene :: rest.
Proof.
  eexists. eexists. eexists.
  split. { vm_compute. reflexivity. }
  split. { vm_compute. reflexivity. }
  eapply (accepted_nudge_is_pending_until_the_next_completed_tick
            comfortMinor (Some true) started _ [] _ _).
  { vm_compute. reflexivity. }
  { vm_compute. reflexivity. }
Defined.

(** A major nudge after six exchanges, then two exchanges without lines. *)
Lemma recovery_bias_instance :
  exists (e1 e2 e3 : Engine) (r1 r2 : TickResult),
    n_intensity raiseStakesMajor = major
    /\ applyNudge raiseStakesMajor (Some true) sixExchangesIn = (Ok true, e1)
    /\ tick (Some []) e1 = (Ok r1, e2)
    /\ tick (Some []) e2 = (Ok r2, e3)
    /\ recoveryOf e1 = Some 2%Z
    /\ recoveryOf (snd (tick None e1)) = Some 2%Z
    /\ recoveryOf e2 = Some 1%Z
    /\ recoveryOf e3 = None.
Proof.
  do 5 eexists.
  split. { reflexivity. }
  split. { vm_compute. reflexivity. }
  split. { vm_compute. reflexivity. }
  split. { vm_compute. reflexivity. }
  eapply (recovery_bias_lasts_two_completed_ticks raiseStakesMajor (Some true)
            sixExchangesIn _ _ _ [] [] _ _).
  { reflexivity. }
  { vm_compute. reflexivity. }
  { vm_compute. reflexivity. }
  { vm_compute. reflexivity. }
Defined.

Lemma recent_lines_instance :
  exists (st : StoryState) (r : TickResult) (e' : Engine),
    currentState (run [CallStart emmaJake; warmUp] newEngine) = Some st
    /\ tick (Some sparkThenStill) (run [CallStart emmaJake; warmUp] newEngine) = (Ok r, e')
    /\ length (recentLines st) = 2%nat
    /\ (length (recentLines st) <= 16)%nat.
Proof.
  eexists. eexists. eexists.
  split. { vm_compute. reflexivity. }
  split. { vm_compute. reflexivity. }
  split. { vm_compute. reflexivity. }
  eapply proj1.
  eapply (recent_lines_are_the_last_sixteen [CallStart emmaJake; warmUp] _ sparkThenStill _ _).
  { vm_compute. reflexivity. }
  { vm_compute. reflexivity. }
Defined.

(** A line that uses the one open callback. *)
Lemma used_callback_instance :
  exists (r : TickResult) (e' : Engine),
    currentState (mkEngine (Some sparkAndCallback) 0 []) = Some sparkAndCallback
    /\ tick (Some [recallLine]) (mkEngine (Some sparkAndCallback) 0 []) = (Ok r, e')
    /\ exists st', currentState e' = Some st'
         /\ callbacks st'
            = List.filter (fun token => negb (usedBy [recallLine] token))
                (callbacks sparkAndCallback)
         /\ (forall token, In token (callbacks st') ->
               In token (callbacks sparkAndCallback) /\ usedBy [recallLine] token = false)
         /\ (length (callbacks st') <= length (callbacks sparkAndCallback))%nat.
Proof.
  eexists. eexists.
  split. { reflexivity. }
  split. { vm_compute. reflexivity. }
  eapply (completed_tick_drops_exactly_the_used_callbacks [recallLine]
            (mkEngine (Some sparkAndCallback) 0 []) sparkAndCallback).
  { reflexivity. }
  { vm_compute. reflexivity. }
Defined.

Lemma scenes_instance :
  exists st : StoryState,
    currentState (run [CallStart emmaJake; warmUp; CallTick (Some sparkThenStill)] newEngine)
    = Some st
    /\ length (pastScenes st) = 2%nat
    /\ scenesConsistent st
    /\ getCurrentAct st = Some (sc_act (currentScene st))
    /\ sc_index (currentScene st) = Z.of_nat (length (pastScenes st))
    /\ length (actPath st) = S (length (pastScenes st)).
Proof.
  eexists.
  split. { vm_compute. reflexivity. }
  split. { vm_compute. reflexivity. }
  apply (scenes_follow_the_act_path
           [CallStart emmaJake; warmUp; CallTick (Some sparkThenStill)]).
  vm_compute. reflexivity.
Defined.



Lemma pair_keys_instance :
  exists (summary : EpisodeSummary) (e' : Engine),
    startEpisode trioSeed newEngine = (Ok summary, e')
    /\ loveGraphSnapshot summary !! "emma-sam"%string = Some basePair.
Proof.
  destruct (startEpisode_tracks_each_pair_in_seed_order trioSeed newEngine "emma-sam")
    as (summary & e' & Hs & Hyes & _).
  exists summary, e'. split; [exact Hs|]. apply Hyes.
  exists 0%nat, 2%nat, "emma"%string, "sam"%string.
  split; [lia|]. repeat split; reflexivity.
Defined.


Lemma idle_engine_instance :
  noRestart [quietTick; CallNudge comfortMinor (Some true); CallGetState]
  /\ run [quietTick; CallNudge comfortMinor (Some true); CallGetState] newEngine = newEngine
  /\ Forall idleOutcome
       (outcomes [quietTick; CallNudge comfortMinor (Some true); CallGetState] newEngine).
Proof.
  assert (noRestart [quietTick; CallNudge comfortMinor (Some true); CallGetState]) as Hno
    by (repeat constructor).
  split; [exact Hno|].
  apply (nothing_happens_before_an_episode_starts
           [quietTick; CallNudge comfortMinor (Some true); CallGetState] Hno).
Defined.

Lemma exchange_counter_instance :
  noRestart cadenceCalls
  /\ ticksIn cadenceCalls = 8%Z
  /\ exchangeCounter (run cadenceCalls (snd (startEpisode emmaJake newEngine)))
     = ticksIn cadenceCalls
  /\ (0 <= lastMajorOf (run cadenceCalls (snd (startEpisode emmaJake newEngine)))
      <= ticksIn cadenceCalls)%Z.
Proof.
  assert (noRestart cadenceCalls) as Hno by (repeat constructor).
  split; [exact Hno|]. split; [reflexivity|].
  apply (exchange_counter_counts_the_ticks_of_the_episode emmaJake newEngine cadenceCalls Hno).
Defined.

Lemma act_path_growth_instance :
  exists st st' : StoryState,
    currentState (run [CallStart emmaJake; warmUp] newEngine) = Some st
    /\ noRestart [CallTick (Some sparkThenStill)]
    /\ currentState (run [CallTick (Some sparkThenStill)]
                       (run [CallStart emmaJake; warmUp] newEngine)) = Some st'
    /\ actPath st `prefix_of` actPath st'.
Proof.
  assert (noRestart [CallTick (Some sparkThenStill)]) as Hno by (repeat constructor).
  edestruct (act_path_only_grows_and_act_5_is_final [CallStart emmaJake; warmUp]
               [CallTick (Some sparkThenStill)]) as (st' & Hst' & Hprefix & _).
  { vm_compute. reflexivity. }
  { exact Hno. }
  eexists. exists st'.
  split. { vm_compute. reflexivity. }
  split. { exact Hno. }
  split. { exact Hst'. }
  exact Hprefix.
Defined.

Lemma lambda_instance :
  EvaluationEngine.calculateLambda 0.25 Act2 <= EvaluationEngine.calculateLambda 0.75 Act2
  /\ EvaluationEngine.calculateLambda 0.25 Act2 <= EvaluationEngine.calculateLambda 0.25 Act4
  /\ 0 < EvaluationEngine.calculateLambda 0.25 Act2.
Proof.
  destruct (lambda_scales_with_fragility_and_act 0.25 0.75 Act2 Act4)
    as (_ & H1 & _ & H2 & _ & H3).
  { lra. } { lra. } { lra. } { cbn. lia. }
  split; [exact H1|]. split; [exact H2 | exact H3].
Defined.

Lemma fragile_scene_instance :
  fragility_total calmFragility <= fragility_total highFragility
  /\ finalScore (EvaluationEngine.scoreNudgeCandidate halfNovelty comfortAuto calmAct1
                   highFragility EvaluationEngine.newEvaluator)
     <= finalScore (EvaluationEngine.scoreNudgeCandidate halfNovelty comfortAuto calmAct1
                      calmFragility EvaluationEngine.newEvaluator).
Proof.
  assert (fragility_total calmFragility <= fragility_total highFragility) as Hle
    by (cbn; lra).
  split; [exact Hle|].
  pose proof (a_more_fragile_scene_never_scores_a_nudge_higher halfNovelty comfortAuto
                calmAct1 calmFragility highFragility EvaluationEngine.newEvaluator Hle) as H.
  cbv zeta in H. exact (proj1 H).
Defined.

Lemma candidate_gate_instance :
  exists st : StoryState,
    In comfortAuto (EvaluationEngine.generateNudgeCandidates calmAct1)
    /\ currentState started = Some st
    /\ getCurrentAct st = Some Act1
    /\ includesNudge (allowedNudges (actGates (es_act calmAct1))) (n_type comfortAuto) = true
    /\ includesNudge (blockedNudges (actGates (es_act calmAct1))) (n_type comfortAuto)
       = false
    /\ n_source comfortAuto = auto
    /\ (n_intensity comfortAuto = major <-> n_type comfortAuto = raise_stakes)
    /\ (n_intensity comfortAuto = major -> es_act calmAct1 = Act3)
    /\ (n_token comfortAuto <> None -> n_type comfortAuto = recall)
    /\ fst (applyNudge comfortAuto (Some true) started)
       = Ok (negb (bool_decide (n_intensity comfortAuto = major)
                   && (exchangeCounter started - lastMajorNudgeExchange st <? 6)%Z)).
Proof.
  assert (In comfortAuto (EvaluationEngine.generateNudgeCandidates calmAct1)) as Hin
    by (left; reflexivity).
  eexists.
  split. { exact Hin. }
  split. { vm_compute. reflexivity. }
  split. { vm_compute. reflexivity. }
  eapply (candidates_pass_the_gate_of_their_act calmAct1 comfortAuto started _ Hin).
  { vm_compute. reflexivity. }
  { vm_compute. reflexivity. }
Defined.

(** A new evaluator on a calm act 1 state recommends the comfort nudge. *)
Lemma best_candidate_instance :
  autoNudge (fst (EvaluationEngine.consider halfNovelty calmAct1 None
                    EvaluationEngine.newEvaluator)) = Some comfortAuto
  /\ abstain (fst (EvaluationEngine.consider halfNovelty calmAct1 None
                     EvaluationEngine.newEvaluator)) = false
  /\ EvaluationEngine.minScoreThreshold
     <= finalScore (rec_scores (fst (EvaluationEngine.consider halfNovelty calmAct1 None
                                       EvaluationEngine.newEvaluator))).
Proof.
  assert (autoNudge (fst (EvaluationEngine.consider halfNovelty calmAct1 None
                            EvaluationEngine.newEvaluator)) = Some comfortAuto) as Hauto
    by (vm_compute; reflexivity).
  split; [exact Hauto|].
  pose proof (consider_recommends_the_best_candidate halfNovelty calmAct1 None
                EvaluationEngine.newEvaluator comfortAuto) as H.
  cbv zeta in H. destruct (H Hauto) as (Ha & Hm & _).
  split; [exact Ha | exact Hm].
Defined.

(** In act 3, right after a major nudge, the evaluator abstains. *)
Lemma abstaining_instance :
  abstain (fst (EvaluationEngine.consider halfNovelty calmAct3 None justAfterMajor)) = true
  /\ Forall (fun s => chosen s = false)
       (drop (length (EvaluationEngine.evaluationSnapshots justAfterMajor))
          (EvaluationEngine.evaluationSnapshots
             (snd (EvaluationEngine.consider halfNovelty calmAct3 None justAfterMajor)))).
Proof.
  assert (abstain (fst (EvaluationEngine.consider halfNovelty calmAct3 None justAfterMajor))
          = true) as Habs by (vm_compute; reflexivity).
  split; [exact Habs|].
  pose proof (consider_only_appends_to_the_history halfNovelty calmAct3 None justAfterMajor)
    as H.
  cbv zeta in H. destruct H as (_ & _ & _ & Hnone & _).
  exact (Hnone Habs).
Defined.

Lemma holding_back_instance :
  n_intensity raiseStakesMajor = major
  /\ autoNudge
       (fst (EvaluationEngine.consider halfNovelty calmAct1 None
               (evRun halfNovelty oneTurn
                  (EvaluationEngine.onTelemetry (NudgeApplied raiseStakesMajor)
                     EvaluationEngine.newEvaluator)))) = Some comfortAuto
  /\ n_type comfortAuto = comfort
  /\ n_intensity comfortAuto = minor.
Proof.
  assert (autoNudge
            (fst (EvaluationEngine.consider halfNovelty calmAct1 None
                    (evRun halfNovelty oneTurn
                       (EvaluationEngine.onTelemetry (NudgeApplied raiseStakesMajor)
                          EvaluationEngine.newEvaluator)))) = Some comfortAuto) as Hauto
    by (vm_compute; reflexivity).
  split; [reflexivity|]. split; [exact Hauto|].
  destruct (after_a_major_nudge_consider_holds_back halfNovelty raiseStakesMajor comfortAuto
              oneTurn calmAct1 None EvaluationEngine.newEvaluator eq_refl eq_refl Hauto)
    as [Hcomfort Hminor].
  split; [apply Hcomfort | apply Hminor]; unfold considersIn; cbn; lia.
Defined.


(** The first exchange of an episode, fed to a new evaluator. *)
Lemma wired_engines_instance :
  exists (r : TickResult) (e' : Engine),
    tick (Some sparkThenStill) (run [CallStart emmaJake] newEngine) = (Ok r, e')
    /\ windowsBounded EvaluationEngine.newEvaluator
    /\ length (producedLines r) = 2%nat
    /\ EvaluationEngine.exchangeCounter (feed (telemetryEvents r) EvaluationEngine.newEvaluator)
       = inject_Z (exchangeCounter e')
    /\ EvaluationEngine.recentDeltas (feed (telemetryEvents r) EvaluationEngine.newEvaluator)
       = slice_last 10 (EvaluationEngine.recentDeltas EvaluationEngine.newEvaluator
                        ++ map deltas (producedLines r))
    /\ EvaluationEngine.rollingWindow (feed (telemetryEvents r) EvaluationEngine.newEvaluator)
       = slice_last 12 (EvaluationEngine.rollingWindow EvaluationEngine.newEvaluator
                        ++ producedLines r).
Proof.
  assert (windowsBounded EvaluationEngine.newEvaluator) as Hb by (split; cbn; lia).
  eexists. eexists.
  split. { vm_compute. reflexivity. }
  split. { exact Hb. }
  split. { vm_compute. reflexivity. }
  eapply (evaluator_follows_the_ticks_it_is_fed [CallStart emmaJake] sparkThenStill _ _
            EvaluationEngine.newEvaluator).
  { vm_compute. reflexivity. }
  { exact Hb. }
Defined.

End MoreInstances.
